(** * keypad-mapper: the HID codec and the request/response framing

    A shallow embedding of the protocol core of keypad-mapper
    ([src/utils.ts], [src/types.ts], [src/api.ts]) and the properties its
    specification states about it; the examples are the test vectors of
    the modules' spec files. The embedding goes on with the records of
    key actions ([src/tools/generate-key-actions.ts],
    [src/key-action.ts]), the keypad session ([src/keypad.ts]) and the
    functions of the command line ([src/cli-impl.ts]).

    JavaScript numbers that hold integers are [Z], and the arithmetic of
    the knob key ids rounds as doubles do ([JsNumber]); a [number[]] and a Node
    [Buffer] are both [list Z] (a [Buffer] holds bytes, which the theorems
    say where they need it); a string is the list of its code units, all
    below 256; a thrown [Error] is the [Err] case of [result]; an [async]
    function over a [HidIO] handle is a function of the handle's state. *)

From stdpp Require Import base option list numbers strings pretty gmap sorting.
From Stdlib Require Import ZArith Lia.

Local Open Scope Z_scope.

(* ===================================================================== *)
(** ** Errors *)
(* ===================================================================== *)

(** What the code throws. *)
Inductive error : Type :=
| ERR_OUT_OF_RANGE                       (* Node: a Buffer read past the end *)
| TypeError                              (* a property of [undefined] *)
| NoResponse                             (* 'No response received.' *)
| InvalidSize (len : nat)                (* `Invalid size:${len}` *)
| UnsupportedKeyMapType (type : Z)       (* `Unsupported KeyMap type: ${type}.` *)
| InvalidLayerResponse (buffer : list Z) (* `Invalid layer response: ${buffer}` *).

Inductive result (A : Type) : Type :=
| Ok (a : A)
| Err (e : error).
Arguments Ok {A} a.
Arguments Err {A} e.

Definition bind {A B} (r : result A) (f : A -> result B) : result B :=
  match r with
  | Ok a => f a
  | Err e => Err e
  end.

Declare Scope result_scope.
Delimit Scope result_scope with result.
Notation "x <- r ;; k" := (bind r (fun x => k))
  (at level 100, r at next level, right associativity) : result_scope.
Local Open Scope result_scope.

Definition is_Ok {A} (r : result A) : bool :=
  match r with Ok _ => true | Err _ => false end.

Definition result_map {A B} (f : A -> B) (r : result A) : result B :=
  a <- r ;; Ok (f a).
Notation "f <$$> r" := (result_map (fmap f) r) (at level 61, left associativity).

(* ===================================================================== *)
(** ** Node's Buffer, as far as the code uses it *)
(* ===================================================================== *)

Module Buffer.

Definition t := list Z.

Definition is_byte (v : Z) : bool := (0 <=? v) && (v <=? 0xFF).

(** [Buffer.alloc(n)]: [n] zero bytes. *)
Definition alloc (n : nat) : t := replicate n 0.

(** [buf.readUInt8(offset)]: the byte, or a RangeError past the end. *)
Definition readUInt8 (buf : t) (offset : nat) : result Z :=
  match buf !! offset with
  | Some v => Ok v
  | None => Err ERR_OUT_OF_RANGE
  end.

(** [buf.readInt8(offset)]: the byte as a two's-complement number. *)
Definition readInt8 (buf : t) (offset : nat) : result Z :=
  v <- readUInt8 buf offset ;;
  Ok (if v <? 0x80 then v else v - 0x100).

(** [buf.readUInt16LE(offset)]: [first + last * 2 ** 8]. *)
Definition readUInt16LE (buf : t) (offset : nat) : result Z :=
  first <- readUInt8 buf offset ;;
  last <- readUInt8 buf (offset + 1) ;;
  Ok (first + last * 2 ^ 8).

(** [buf.writeUInt8(value, offset)]: a RangeError when the value is not
    a byte or the offset is past the end. *)
Definition writeUInt8 (buf : t) (value : Z) (offset : nat) : result t :=
  if is_byte value && (offset <? length buf)%nat
  then Ok (<[offset := value]> buf)
  else Err ERR_OUT_OF_RANGE.

End Buffer.

(* ===================================================================== *)
(** ** utils.ts *)
(* ===================================================================== *)

Module Utils.

Definition toInt8 (n : Z) : Z :=
  if 0 <=? n then
    (if n <=? 0x7F then n else 0x7F)
  else
    let d := 0x100 + n in
    if (0x80 <=? d) && (d <=? 0xFF) then d else 0x80.

Definition fromInt8 (n : Z) : result Z :=
  let buf := Buffer.alloc 1 in
  buf <- Buffer.writeUInt8 buf (Z.land n 0xFF) 0 ;;
  Buffer.readInt8 buf 0.

Definition splitUInt16LE (v : Z) : list Z :=
  let b := Z.land (Z.shiftr v 8) 0xFF in
  let l := Z.land v 0xFF in
  [l; b].

End Utils.

(* ===================================================================== *)
(** ** JavaScript numbers and objects *)
(* ===================================================================== *)

Module JsNumber.

(** [ToInt32]: the value the bitwise operators work on. *)
Definition toInt32 (n : Z) : Z := (n + 2 ^ 31) mod 2 ^ 32 - 2 ^ 31.

(** [a | b] and [a & b] *)
Definition or (a b : Z) : Z := toInt32 (Z.lor a b).
Definition and (a b : Z) : Z := toInt32 (Z.land a b).

(** The arithmetic of doubles on integers. A number is a double: an
    integer is one when its significand has at most 53 bits and it is
    at most [MAX_VALUE]. [nearest n] is the integer of a 53-bit
    significand that is nearest to [n], the one of the even significand
    when two are as near; up to 2^53 that is [n] itself. *)
Definition nearest (n : Z) : Z :=
  let a := Z.abs n in
  if a <? 2 ^ 53 then n
  else
    let ulp := 2 ^ (Z.log2 a - 52) in
    let q := a / ulp in
    let r := a mod ulp in
    let q' := if 2 * r <? ulp then q
              else if ulp <? 2 * r then q + 1
              else if Z.even q then q else q + 1 in
    Z.sgn n * (q' * ulp).

(** [Number.MAX_VALUE] *)
Definition MAX_VALUE : Z := 2 ^ 1024 - 2 ^ 971.

(** The double an exact integer result is rounded to: [None] when that
    is an infinity. *)
Definition number (n : Z) : option Z :=
  let r := nearest n in
  if Z.abs r <=? MAX_VALUE then Some r else None.

(** [a + b], [a - b], [a * b], [a % b] and [a / b] of two doubles that
    are integers: the exact result, rounded. The result is [None] when
    it is an infinity or NaN, and for a quotient that is not exact (it
    is rounded then, to a fraction or to an integer). With a [None] the
    computation is not followed further: a sum, a difference or a
    product of an infinity or NaN is one again. The remainder is exact
    and has the sign of [a]; an exact quotient of two doubles is a
    double. *)
Definition add (a b : Z) : option Z := number (a + b).
Definition sub (a b : Z) : option Z := number (a - b).
Definition mul (a b : Z) : option Z := number (a * b).
Definition rem (a b : Z) : option Z := if b =? 0 then None else Some (Z.rem a b).
Definition div (a b : Z) : option Z :=
  if b =? 0 then None
  else if Z.rem a b =? 0 then Some (Z.quot a b)
  else None.

End JsNumber.

Module JsObject.

(** An object used as a record: its own properties, in the order of
    [Object.entries]: the keys that are array indices first, ascending,
    then the other keys in the order they were added. *)
Definition t (A : Type) : Type := list (string * A).

(** The names every object literal inherits from [Object.prototype]. *)
Definition prototype_names : list string :=
  ["constructor"; "__defineGetter__"; "__defineSetter__"; "hasOwnProperty";
   "__lookupGetter__"; "__lookupSetter__"; "isPrototypeOf";
   "propertyIsEnumerable"; "toString"; "valueOf"; "__proto__";
   "toLocaleString"]%string.

(** What [record[name]] evaluates to: the own property, a function (or
    the prototype) inherited from [Object.prototype], or [undefined]. *)
Inductive property (A : Type) : Type :=
| Own (a : A)
| Inherited
| Undefined.
Arguments Own {A} a.
Arguments Inherited {A}.
Arguments Undefined {A}.

(** [record[name]] *)
Definition get {A} (record : t A) (name : string) : property A :=
  match List.find (fun e => String.eqb (fst e) name) record with
  | Some e => Own (snd e)
  | None =>
      if bool_decide (name ∈ prototype_names) then Inherited else Undefined
  end.

(** [Object.keys(record)] *)
Definition keys {A} (record : t A) : list string := fst <$> record.

(** The value of a string of decimal digits. *)
Fixpoint digits_value (name : string) (acc : N) : option N :=
  match name with
  | EmptyString => Some acc
  | String c name' =>
      let d := Ascii.N_of_ascii c in
      if ((48 <=? d) && (d <=? 57))%N
      then digits_value name' (10 * acc + (d - 48))%N
      else None
  end.

(** A key is an array index when it is the canonical decimal text of an
    integer from 0 to 2^32 - 2. *)
Definition array_index (name : string) : option N :=
  match name with
  | EmptyString => None
  | String c name' =>
      if String.eqb (String c EmptyString) "0" && negb (String.eqb name' EmptyString) then None
      else
        match digits_value name 0 with
        | Some n => if (n <? 2 ^ 32 - 1)%N then Some n else None
        | None => None
        end
  end.

(** Where a new key goes: an array index before the first key that is
    no array index or a larger one, any other key at the end. *)
Fixpoint insert_new {A} (record : t A) (name : string) (index : option N) (v : A)
    : t A :=
  match record with
  | [] => [(name, v)]
  | e :: record' =>
      match index, array_index (fst e) with
      | Some n, Some m =>
          if (n <? m)%N then (name, v) :: record
          else e :: insert_new record' name index v
      | Some _, None => (name, v) :: record
      | None, _ => e :: insert_new record' name index v
      end
  end.

(** [record[name] = v]: an own property keeps its place and takes the
    new value, a new one is added. (['__proto__'] is no property: the
    assignment replaces the prototype, which the record does not hold.) *)
Definition set {A} (record : t A) (name : string) (v : A) : t A :=
  if String.eqb name "__proto__" then record
  else if existsb (fun e => String.eqb (fst e) name) record
  then (fun e => if String.eqb (fst e) name then (name, v) else e) <$> record
  else insert_new record name (array_index name) v.

End JsObject.

(* ===================================================================== *)
(** ** types.ts *)
(* ===================================================================== *)

Module KeyAction.
Record t : Type := mk { modKey : Z; keyCode : Z }.
End KeyAction.

Module MouseAction.
Record t : Type := mk { modKey : Z; button : Z; x : Z; y : Z; wheel : Z }.

(** [Partial<MouseAction>]: every field may be absent. *)
Record partial : Type := mkPartial {
  p_modKey : option Z; p_button : option Z;
  p_x : option Z; p_y : option Z; p_wheel : option Z }.
End MouseAction.

Module ConsumerAction.
Record t : Type := mk { id : Z }.
End ConsumerAction.

Module KeypadInfo.
Record t : Type := mk { keys : Z; knobs : Z }.
End KeypadInfo.

Module KnobIdAndAction.
(** [knobAction] is the action's name; [findKnobActionName(...)!] is
    [undefined] at run time when no name is found. [knobId] is [None]
    when the number is no integer that [JsNumber] follows. *)
Record t : Type := mk { knobId : option Z; knobAction : option string }.
End KnobIdAndAction.

Module Types.

Definition createKeyAction (keyCode : Z) (modKey : Z) : KeyAction.t :=
  KeyAction.mk modKey keyCode.

Definition MouseButtonLeft : Z := 0x01.
Definition MouseButtonRight : Z := 0x2.
Definition MouseButtonMiddle : Z := 0x04.

Definition emptyMouseAction : MouseAction.t := MouseAction.mk 0 0 0 0 0.

(** [{ ...emptyMouseAction, ...mouseAction }] *)
Definition Mouse (mouseAction : MouseAction.partial) : MouseAction.t :=
  let e := emptyMouseAction in
  MouseAction.mk
    (default (MouseAction.modKey e) (MouseAction.p_modKey mouseAction))
    (default (MouseAction.button e) (MouseAction.p_button mouseAction))
    (default (MouseAction.x e) (MouseAction.p_x mouseAction))
    (default (MouseAction.y e) (MouseAction.p_y mouseAction))
    (default (MouseAction.wheel e) (MouseAction.p_wheel mouseAction)).

(** [Wheel(wheel, modKey = 0)] *)
Definition Wheel (wheel : Z) (modKey : Z) : MouseAction.t :=
  Mouse (MouseAction.mkPartial (Some modKey) None None None
           (Some (Utils.toInt8 wheel))).

Definition Move (x y : Z) : MouseAction.t :=
  Mouse (MouseAction.mkPartial None None (Some (Utils.toInt8 x))
           (Some (Utils.toInt8 y)) None).

(** The entries of the [mouse] table. *)
Definition mouse_LButton := Mouse (MouseAction.mkPartial None (Some MouseButtonLeft) None None None).
Definition mouse_RButton := Mouse (MouseAction.mkPartial None (Some MouseButtonRight) None None None).
Definition mouse_MButton := Mouse (MouseAction.mkPartial None (Some MouseButtonMiddle) None None None).
Definition mouse_MoveDown := Move 0 1.
Definition mouse_MoveUp := Move 0 (-1).
Definition mouse_MoveRight := Move 1 0.
Definition mouse_MoveLeft := Move (-1) 0.
Definition mouse_WheelUp := Wheel 1 0.
Definition mouse_WheelDown := Wheel (-1) 0.

Definition Consumer (id : Z) : ConsumerAction.t := ConsumerAction.mk id.

(** [KnobActions], in the order of its entries. *)
Definition KnobActions : JsObject.t Z :=
  [("Left"%string, 0); ("Click"%string, 1); ("Right"%string, 2)].

Definition getKeyCount (info : KeypadInfo.t) : Z :=
  KeypadInfo.keys info + 3 * KeypadInfo.knobs info.

(** [KnobActions[action]]: for a name that every object inherits that is
    a function (or the prototype), not [undefined]. *)
Definition findKnobAction (action : string) : JsObject.property Z :=
  JsObject.get KnobActions action.

(** [Object.entries(KnobActions).find(([, value]) => value === action)?.[0]] *)
Definition findKnobActionName (action : Z) : option string :=
  fst <$> List.find (fun e => snd e =? action) KnobActions.

(** [1 + info.keys + 3 * (knobId - 1) + knobAction], each operation
    rounded as a double is; [None] when the sum is an infinity or NaN. *)
Definition getKeyIdForKnob (info : KeypadInfo.t) (knobId : Z) (knobAction : Z)
    : option Z :=
  a ← JsNumber.add 1 (KeypadInfo.keys info);
  b ← JsNumber.sub knobId 1;
  c ← JsNumber.mul 3 b;
  d ← JsNumber.add a c;
  JsNumber.add d knobAction.

(** The result is [None] for [undefined]. When [knob] is an infinity,
    [actionIndex] and [knobId] are NaN and no name is found. *)
Definition getKnobByKeyId (info : KeypadInfo.t) (keyId : Z) : option KnobIdAndAction.t :=
  if keyId <=? KeypadInfo.keys info then None
  else
    let knob := a ← JsNumber.sub keyId 1; JsNumber.sub a (KeypadInfo.keys info) in
    let actionIndex := knob ← knob; JsNumber.rem knob 3 in
    let knobId :=
      knob ← knob;
      actionIndex ← actionIndex;
      a ← JsNumber.sub knob actionIndex;
      b ← JsNumber.div a 3;
      JsNumber.add 1 b in
    let knobAction := actionIndex ← actionIndex; findKnobActionName actionIndex in
    Some (KnobIdAndAction.mk knobId knobAction).


(** [ModKey] *)
Definition ModKey : JsObject.t Z :=
  [("Ctrl", 0x01); ("Shift", 0x02); ("Alt", 0x04); ("Gui", 0x08);
   ("RCtrl", 0x10); ("RShift", 0x20); ("RAlt", 0x40); ("RGui", 0x80)]%string.

Definition ModKey_Ctrl : Z := 0x01.
Definition ModKey_Shift : Z := 0x02.
Definition ModKey_Alt : Z := 0x04.
Definition ModKey_Gui : Z := 0x08.
Definition ModKey_RCtrl : Z := 0x10.
Definition ModKey_RShift : Z := 0x20.
Definition ModKey_RAlt : Z := 0x40.
Definition ModKey_RGui : Z := 0x80.

(** [interface WithModKey]: a value with a [modKey] field;
    [withModKey m a] is [{ ...a, modKey: m }]. *)
Class WithModKey (T : Type) : Type := {
  modKey : T -> Z;
  withModKey : Z -> T -> T }.

#[global] Instance KeyAction_WithModKey : WithModKey KeyAction.t := {|
  modKey := KeyAction.modKey;
  withModKey m a := KeyAction.mk m (KeyAction.keyCode a) |}.

#[global] Instance MouseAction_WithModKey : WithModKey MouseAction.t := {|
  modKey := MouseAction.modKey;
  withModKey m a :=
    MouseAction.mk m (MouseAction.button a) (MouseAction.x a)
      (MouseAction.y a) (MouseAction.wheel a) |}.

Definition applyModKey {T} `{WithModKey T} (action : T) (modKey' : Z) : T :=
  withModKey (JsNumber.or (modKey action) modKey') action.

(** [Object.entries(ModKey).forEach(...)]: the names whose bit is set. *)
Definition getModKeyNames (modKey : Z) : list string :=
  fst <$> List.filter (fun e => negb (JsNumber.and (snd e) modKey =? 0)) ModKey.

(** The loop of [createModKey]: [None] is [undefined]. A name that
    [ModKey] only inherits is not [null]; or-ing the inherited function
    adds no bit ([modKey | NaN]). *)
Fixpoint createModKey_loop (names : list string) (modKey : Z) : option Z :=
  match names with
  | [] => Some modKey
  | name :: names' =>
      match JsObject.get ModKey name with
      | JsObject.Undefined => None
      | JsObject.Own code => createModKey_loop names' (JsNumber.or modKey code)
      | JsObject.Inherited => createModKey_loop names' (JsNumber.or modKey 0)
      end
  end.

Definition createModKey (names : list string) : option Z :=
  createModKey_loop names 0.

(** [names.push(actionName); names.join('+')] *)
Definition combineModKeyAndActionName (modKey : Z) (actionName : string) : string :=
  String.concat "+" (getModKeyNames modKey ++ [actionName]).

Definition Shift {T} `{WithModKey T} (key : T) : T := applyModKey key ModKey_Shift.
Definition Ctrl {T} `{WithModKey T} (key : T) : T := applyModKey key ModKey_Ctrl.
Definition Alt {T} `{WithModKey T} (key : T) : T := applyModKey key ModKey_Alt.
Definition Gui {T} `{WithModKey T} (key : T) : T := applyModKey key ModKey_Gui.
Definition RShift {T} `{WithModKey T} (key : T) : T := applyModKey key ModKey_RShift.
Definition RCtrl {T} `{WithModKey T} (key : T) : T := applyModKey key ModKey_RCtrl.
Definition RAlt {T} `{WithModKey T} (key : T) : T := applyModKey key ModKey_RAlt.
Definition RGui {T} `{WithModKey T} (key : T) : T := applyModKey key ModKey_RGui.

Definition NoAction : KeyAction.t := KeyAction.mk 0 0.

(** [!!(key.modKey & ModKey.Shift)] *)
Definition isShift (key : KeyAction.t) : bool :=
  negb (JsNumber.and (KeyAction.modKey key) ModKey_Shift =? 0).

(** [mouse] *)
Definition mouse : JsObject.t MouseAction.t :=
  [("LButton", mouse_LButton); ("RButton", mouse_RButton);
   ("MButton", mouse_MButton); ("MoveDown", mouse_MoveDown);
   ("MoveUp", mouse_MoveUp); ("MoveRight", mouse_MoveRight);
   ("MoveLeft", mouse_MoveLeft); ("WheelUp", mouse_WheelUp);
   ("WheelDown", mouse_WheelDown)]%string.

Definition findMouseAction (name : string) : JsObject.property MouseAction.t :=
  JsObject.get mouse name.

(** lodash's [isEqual] on two mouse actions. *)
#[global] Instance MouseAction_eq_dec : EqDecision MouseAction.t.
Proof. solve_decision. Defined.

#[global] Instance ConsumerAction_eq_dec : EqDecision ConsumerAction.t.
Proof. solve_decision. Defined.

#[global] Instance KeyAction_eq_dec : EqDecision KeyAction.t.
Proof. solve_decision. Defined.

(** [Object.entries(mouse).find(([, action]) => isEqual(mouseAction, action))?.[0]] *)
Definition findMouseActionName (mouseAction : MouseAction.t) : option string :=
  fst <$> List.find (fun e => bool_decide (mouseAction = snd e)) mouse.

(** [Object.values(rest).find((v) => v !== 0)], as the condition of an
    [if]: some value is not 0. *)
Definition some_nonzero (values : list Z) : bool :=
  match List.find (fun v => negb (v =? 0)) values with
  | Some _ => true
  | None => false
  end.

(** A template literal's [${n}] for an integer. *)
Definition number_text (n : Z) : string := pretty n.

Definition formatMouseActionAsMove (mouseAction : MouseAction.t)
    : result (option string) :=
  let x := MouseAction.x mouseAction in
  let y := MouseAction.y mouseAction in
  (* rest: modKey, button, wheel *)
  if some_nonzero [MouseAction.modKey mouseAction; MouseAction.button mouseAction;
                   MouseAction.wheel mouseAction]
  then Ok None
  else
    sx <- Utils.fromInt8 x ;;
    sy <- Utils.fromInt8 y ;;
    Ok (Some ("Move(" +:+ number_text sx +:+ "," +:+ number_text sy +:+ ")")).

Definition formatMouseActionAsWheel (mouseAction : MouseAction.t)
    : result (option string) :=
  let wheel := MouseAction.wheel mouseAction in
  (* rest: modKey, button, x, y *)
  if some_nonzero [MouseAction.modKey mouseAction; MouseAction.button mouseAction;
                   MouseAction.x mouseAction; MouseAction.y mouseAction]
  then Ok None
  else if wheel =? 0 then Ok None
  else
    sw <- Utils.fromInt8 wheel ;;
    Ok (Some ("Wheel(" +:+ number_text sw +:+ ")")).

(** [JSON.stringify] of a string-keyed object of integers, keys in the
    order given. *)
Definition JSON_object (fields : list (string * Z)) : string :=
  let quote := String (Ascii.ascii_of_nat 34) EmptyString in
  "{" +:+ String.concat ","
            ((fun f => quote +:+ fst f +:+ quote +:+ ":" +:+ number_text (snd f))
               <$> fields)
  +:+ "}".

(** [JSON.stringify(action)] for [action = { modKey: 0, ...rest }]: the
    fields in the order every mouse action of this code has them. *)
Definition JSON_MouseAction (action : MouseAction.t) : string :=
  JSON_object
    [("modKey", MouseAction.modKey action); ("button", MouseAction.button action);
     ("x", MouseAction.x action); ("y", MouseAction.y action);
     ("wheel", MouseAction.wheel action)]%string.

(** [a || b] on [string | undefined]: the empty string is falsy too. *)
Definition or_else (a : option string) (b : result (option string))
    : result (option string) :=
  match a with
  | Some (String _ _ as s) => Ok (Some s)
  | _ => b
  end.

Definition formatMouseAction (mouseAction : MouseAction.t) : result string :=
  let modKey := MouseAction.modKey mouseAction in
  let action := MouseAction.mk 0 (MouseAction.button mouseAction)
                  (MouseAction.x mouseAction) (MouseAction.y mouseAction)
                  (MouseAction.wheel mouseAction) in
  actionName <-
    or_else (findMouseActionName action)
      (asWheel <- formatMouseActionAsWheel action ;;
       or_else asWheel
         (asMove <- formatMouseActionAsMove action ;;
          or_else asMove (Ok (Some (JSON_MouseAction action))))) ;;
  Ok (combineModKeyAndActionName modKey (default EmptyString actionName)).

(** [media] *)
Definition media : JsObject.t ConsumerAction.t :=
  [("ScreenBrightnessUp", Consumer 0x006f); ("ScreenBrightnessDown", Consumer 0x0070);
   ("NextTrack", Consumer 0x00b5); ("PrevTrack", Consumer 0x00b6);
   ("Stop", Consumer 0x00b7); ("PlayPause", Consumer 0x00cd);
   ("Mute", Consumer 0x00e2); ("VolumeUp", Consumer 0x00e9);
   ("VolumeDown", Consumer 0x00ea); ("BassUp", Consumer 0x0152);
   ("BassDown", Consumer 0x0153); ("TrebleUp", Consumer 0x0154);
   ("TrebleDown", Consumer 0x0155); ("Multimedia", Consumer 0x0183);
   ("Email", Consumer 0x018a); ("Calculator", Consumer 0x0192);
   ("MyComputer", Consumer 0x0194); ("WWWHome", Consumer 0x0223);
   ("WWWPageBack", Consumer 0x0224); ("WWWPageForward", Consumer 0x0225);
   ("WWWPageRefresh", Consumer 0x0227)]%string.

Definition findConsumerAction (name : string) : JsObject.property ConsumerAction.t :=
  JsObject.get media name.

Definition findConsumerActionName (consumerAction : ConsumerAction.t) : option string :=
  fst <$> List.find (fun e => bool_decide (consumerAction = snd e)) media.

Definition formatConsumerAction (consumerAction : ConsumerAction.t) : string :=
  match findConsumerActionName consumerAction with
  | Some (String _ _ as name) => name
  | _ => JSON_object [("id"%string, ConsumerAction.id consumerAction)]
  end.

(** [LedMode] and [LedColor] *)
Definition LedMode : JsObject.t Z :=
  [("None", 0); ("All", 1); ("LtRb", 2); ("RbLt", 3); ("Single", 4);
   ("White", 5)]%string.

Definition findLedMode (ledMode : string) : JsObject.property Z :=
  JsObject.get LedMode ledMode.

Definition LedColor : JsObject.t Z :=
  [("Red", 1); ("Orrange", 2); ("Yellow", 3); ("Green", 4); ("Cyan", 5);
   ("Blue", 6); ("Purple", 7)]%string.

Definition findLedColor (ledColor : string) : JsObject.property Z :=
  JsObject.get LedColor ledColor.

End Types.

(* ===================================================================== *)
(** ** JavaScript arrays written by index *)
(* ===================================================================== *)

Module JsArray.

(** An array is its [length] and its own properties: an index below
    [length] with no property is a hole, and a negative key is an
    ordinary property that is no element. (The indices written here are
    a byte minus one, far below the 2^32 - 1 where JavaScript's array
    indices end.) *)
Record t (A : Type) : Type := mk { length : nat; props : gmap Z A }.
Arguments mk {A} length props.
Arguments length {A} _.
Arguments props {A} _.

(** [[]] *)
Definition empty {A} : t A := mk 0 ∅.

(** [a[i] = v]: an index at or past [length] extends the array. *)
Definition set {A} (a : t A) (i : Z) (v : A) : t A :=
  mk (if 0 <=? i then Nat.max (length a) (Z.to_nat i + 1) else length a)
     (<[i := v]> (props a)).

(** The elements [a[0], ..., a[length - 1]], [None] for a hole. *)
Definition elements {A} (a : t A) : list (option A) :=
  (fun i : nat => props a !! Z.of_nat i) <$> seq 0 (length a).

End JsArray.

(* ===================================================================== *)
(** ** The HidIO handle of with-hid *)
(* ===================================================================== *)

Module HidIO.

(** The handle's state: the reports written so far, the number of
    [read] calls, and the reports the device will still deliver.
    [read] returns the next report, or the empty buffer on a timeout
    (nothing left to deliver). *)
Record t : Type := mk {
  written : list (list Z);
  reads : nat;
  incoming : list Buffer.t }.

(** [hid.write(req)] resolves to the number of bytes. *)
Definition write (req : list Z) (hid : t) : result Z * t :=
  (Ok (Z.of_nat (length req)),
   mk (written hid ++ [req]) (reads hid) (incoming hid)).

(** [hid.read(timeout)] *)
Definition read (timeout : Z) (hid : t) : result Buffer.t * t :=
  match incoming hid with
  | [] => (Ok (Buffer.alloc 0), mk (written hid) (S (reads hid)) [])
  | buffer :: rest => (Ok buffer, mk (written hid) (S (reads hid)) rest)
  end.

End HidIO.

(** An [async] function over a handle. *)
Definition io (A : Type) : Type := HidIO.t -> result A * HidIO.t.

Definition io_ret {A} (a : A) : io A := fun hid => (Ok a, hid).

Definition io_throw {A} (e : error) : io A := fun hid => (Err e, hid).

(** [await] *)
Definition io_bind {A B} (m : io A) (f : A -> io B) : io B :=
  fun hid =>
    match m hid with
    | (Ok a, hid') => f a hid'
    | (Err e, hid') => (Err e, hid')
    end.

(** A synchronous call that may throw. *)
Definition io_lift {A} (r : result A) : io A := fun hid => (r, hid).

Declare Scope io_scope.
Delimit Scope io_scope with io.
Notation "x <~ m ;; k" := (io_bind m (fun x => k))
  (at level 100, m at next level, right associativity) : io_scope.

(* ===================================================================== *)
(** ** api.ts *)
(* ===================================================================== *)

(** [KeyMap = KeyMapUnknown | KeyMapKeys | KeyMapConsumer | KeyMapMouse];
    the three known variants fix their [type]. *)
Inductive KeyMap : Type :=
| KeyMapKeys (keys : list KeyAction.t)
| KeyMapConsumer (consumer : ConsumerAction.t)
| KeyMapMouse (mouse : MouseAction.t)
| KeyMapUnknown (type : Z) (buffer : Buffer.t).

Module KeyMapWithId.
Record t : Type := mk { layerId : Z; keyId : Z; keyMap : KeyMap }.
End KeyMapWithId.

Module ReadKeypadKeyMapsRequest.
Record t : Type := mk { keys : Z; knobs : Z; layerId : Z }.
End ReadKeypadKeyMapsRequest.

Module WriteKeypadKeyMapParam.
Record t : Type := mk { keyId : Z; layerId : Z; data : list Z }.
End WriteKeypadKeyMapParam.

Module WriteKeypadLedParam.
Record t : Type := mk { layerId : Z; ledModeId : Z; ledColorId : Z }.
End WriteKeypadLedParam.

Module WriteKeypadDelayTimeParam.
Record t : Type := mk { delayTimeMs : Z }.
End WriteKeypadDelayTimeParam.

Module Api.

Import Buffer.

Definition REQUEST_SIZE : nat := 65.

(** The loop of [sendRequest]: [todo] iterations are left. *)
Fixpoint sendRequest_pad (todo : nat) (req : list Z) : list Z :=
  match todo with
  | O => req
  | S todo' => sendRequest_pad todo' (req ++ [0])
  end.

Definition sendRequest (request : list Z) : io Z :=
  let req := request in
  let req := sendRequest_pad (REQUEST_SIZE - length req) req in
  HidIO.write req.

Definition recvResponse : io Buffer.t :=
  (buffer <~ HidIO.read 250 ;;
   if (length buffer =? 0)%nat then io_throw NoResponse
   else io_ret buffer)%io.

(* pack/unpack *)

Definition packKeyActrions (keys : list KeyAction.t) : result (list Z) :=
  let len := length keys in
  if (len <? 0)%nat || (18 <? len)%nat then
    Err (InvalidSize len)
  else
    let data := [Z.of_nat len] in
    Ok (fold_left
          (fun data k => (data ++ [KeyAction.modKey k]) ++ [KeyAction.keyCode k])
          keys data).

(** The loop of [unpackKeyActions]: [todo] iterations are left, the
    next one is iteration [i]. *)
Fixpoint unpackKeyActions_loop (buffer : Buffer.t) (todo : nat) (i : nat)
    (keys : list KeyAction.t) : result (list KeyAction.t) :=
  match todo with
  | O => Ok keys
  | S todo' =>
      modKey <- readUInt8 buffer (0x0B + 2 * i) ;;
      keyCode <- readUInt8 buffer (0x0B + 2 * i + 1) ;;
      unpackKeyActions_loop buffer todo' (S i)
        (keys ++ [KeyAction.mk modKey keyCode])
  end.

Definition unpackKeyActions (buffer : Buffer.t) : result (list KeyAction.t) :=
  len <- readInt8 buffer 0x0A ;;
  unpackKeyActions_loop buffer (Z.to_nat len) 0 [].

Definition packConsumerAction (c : ConsumerAction.t) : list Z :=
  [0x01] ++ Utils.splitUInt16LE (ConsumerAction.id c).

Definition unpackConsumerAction (buffer : Buffer.t) : result ConsumerAction.t :=
  id <- readUInt16LE buffer 0x0B ;;
  Ok (ConsumerAction.mk id).

Definition packMouseAction (action : MouseAction.t) : list Z :=
  [0x04; MouseAction.modKey action; MouseAction.button action;
   MouseAction.x action; MouseAction.y action; MouseAction.wheel action].

Definition unpackMouseAction (buffer : Buffer.t) : result MouseAction.t :=
  modKey <- readUInt8 buffer 0x0B ;;
  button <- readUInt8 buffer 0x0C ;;
  x <- readUInt8 buffer 0x0D ;;
  y <- readUInt8 buffer 0x0E ;;
  wheel <- readUInt8 buffer 0x0F ;;
  Ok (MouseAction.mk modKey button x y wheel).

Definition KeyMapTypes_keys : Z := 0x01.
Definition KeyMapTypes_consumer : Z := 0x02.
Definition KeyMapTypes_mouse : Z := 0x03.

(** [keyMap.type] *)
Definition type (keyMap : KeyMap) : Z :=
  match keyMap with
  | KeyMapKeys _ => KeyMapTypes_keys
  | KeyMapConsumer _ => KeyMapTypes_consumer
  | KeyMapMouse _ => KeyMapTypes_mouse
  | KeyMapUnknown type _ => type
  end.

(** [keyMap.keys], [keyMap.consumer], [keyMap.mouse]: [undefined] on a
    variant without the field, which the callee then fails to read. *)
Definition field_keys (keyMap : KeyMap) : result (list KeyAction.t) :=
  match keyMap with KeyMapKeys keys => Ok keys | _ => Err TypeError end.
Definition field_consumer (keyMap : KeyMap) : result ConsumerAction.t :=
  match keyMap with KeyMapConsumer c => Ok c | _ => Err TypeError end.
Definition field_mouse (keyMap : KeyMap) : result MouseAction.t :=
  match keyMap with KeyMapMouse m => Ok m | _ => Err TypeError end.

Definition isKeyMapKeys (keyMap : KeyMap) : bool := type keyMap =? KeyMapTypes_keys.
Definition isKeyMapConsumer (keyMap : KeyMap) : bool := type keyMap =? KeyMapTypes_consumer.
Definition isKeyMapMouse (keyMap : KeyMap) : bool := type keyMap =? KeyMapTypes_mouse.

Definition createKeyMapKeys (keys : list KeyAction.t) : KeyMap := KeyMapKeys keys.
Definition createKeyMapConsumer (action : ConsumerAction.t) : KeyMap := KeyMapConsumer action.
Definition createKeyMapMouse (action : MouseAction.t) : KeyMap := KeyMapMouse action.

Definition packKeyMap (keyMap : KeyMap) : result (list Z) :=
  data <-
    (if isKeyMapKeys keyMap then
       keys <- field_keys keyMap ;; packKeyActrions keys
     else if isKeyMapConsumer keyMap then
       consumer <- field_consumer keyMap ;; Ok (packConsumerAction consumer)
     else if isKeyMapMouse keyMap then
       mouse <- field_mouse keyMap ;; Ok (packMouseAction mouse)
     else Err (UnsupportedKeyMapType (type keyMap))) ;;
  Ok ([type keyMap; 0; 0; 0; 0; 0] ++ data).

Definition unpackKeyMapWithId (buffer : Buffer.t) : result KeyMapWithId.t :=
  keyId <- readUInt8 buffer 2 ;;
  layerId <- readUInt8 buffer 3 ;;
  type <- readUInt8 buffer 4 ;;
  if type =? KeyMapTypes_keys then
    keys <- unpackKeyActions buffer ;;
    Ok (KeyMapWithId.mk layerId keyId (KeyMapKeys keys))
  else if type =? KeyMapTypes_consumer then
    consumer <- unpackConsumerAction buffer ;;
    Ok (KeyMapWithId.mk layerId keyId (KeyMapConsumer consumer))
  else if type =? KeyMapTypes_mouse then
    mouse <- unpackMouseAction buffer ;;
    Ok (KeyMapWithId.mk layerId keyId (KeyMapMouse mouse))
  else
    Ok (KeyMapWithId.mk layerId keyId (KeyMapUnknown type buffer)).

(* api *)

Definition packReadKeypadKeyMaps (param : ReadKeypadKeyMapsRequest.t) : list Z :=
  [0x03; 0xfa; ReadKeypadKeyMapsRequest.keys param;
   ReadKeypadKeyMapsRequest.knobs param;
   ReadKeypadKeyMapsRequest.layerId param].

(** The loop of [readKeypadKeyMaps]: [todo] responses are still to be
    received. *)
Fixpoint readKeypadKeyMaps_loop (layerId : Z) (todo : nat)
    (result : JsArray.t KeyMap) : io (JsArray.t KeyMap) :=
  match todo with
  | O => io_ret result
  | S todo' =>
      (buffer <~ recvResponse ;;
       keyMapWithId <~ io_lift (unpackKeyMapWithId buffer) ;;
       if negb (KeyMapWithId.layerId keyMapWithId =? layerId) then
         io_throw (InvalidLayerResponse buffer)
       else
         readKeypadKeyMaps_loop layerId todo'
           (JsArray.set result (KeyMapWithId.keyId keyMapWithId - 1)
              (KeyMapWithId.keyMap keyMapWithId)))%io
  end.

Definition readKeypadKeyMaps (param : ReadKeypadKeyMapsRequest.t)
    : io (JsArray.t KeyMap) :=
  (_ <~ sendRequest (packReadKeypadKeyMaps param) ;;
   let layerId := ReadKeypadKeyMapsRequest.layerId param in
   let info := KeypadInfo.mk (ReadKeypadKeyMapsRequest.keys param)
                 (ReadKeypadKeyMapsRequest.knobs param) in
   let result := JsArray.empty in
   let count := Types.getKeyCount info in
   readKeypadKeyMaps_loop layerId (Z.to_nat count) result)%io.

(** The loop of [readKeypadKeyMapTable]: [todo] layers are left, the
    next one is iteration [i]. *)
Fixpoint readKeypadKeyMapTable_loop (info : KeypadInfo.t) (todo : nat) (i : Z)
    (result : list (JsArray.t KeyMap)) : io (list (JsArray.t KeyMap)) :=
  match todo with
  | O => io_ret result
  | S todo' =>
      (list <~ readKeypadKeyMaps
                 (ReadKeypadKeyMapsRequest.mk (KeypadInfo.keys info)
                    (KeypadInfo.knobs info) (i + 1)) ;;
       readKeypadKeyMapTable_loop info todo' (i + 1) (result ++ [list]))%io
  end.

Definition readKeypadKeyMapTable (info : KeypadInfo.t) (layers : Z)
    : io (list (JsArray.t KeyMap)) :=
  readKeypadKeyMapTable_loop info (Z.to_nat layers) 0 [].

Definition packWriteKeypadKeyMapParam (param : WriteKeypadKeyMapParam.t) : list Z :=
  [0x03; 0xfd; WriteKeypadKeyMapParam.keyId param;
   WriteKeypadKeyMapParam.layerId param] ++ WriteKeypadKeyMapParam.data param.

Definition writeKeypadKeyMapRaw (param : WriteKeypadKeyMapParam.t) : io Z :=
  let request := packWriteKeypadKeyMapParam param in
  sendRequest request.

Definition writeKeypadKeyMap (k : KeyMapWithId.t) : io Z :=
  (data <~ io_lift (packKeyMap (KeyMapWithId.keyMap k)) ;;
   writeKeypadKeyMapRaw
     (WriteKeypadKeyMapParam.mk (KeyMapWithId.keyId k)
        (KeyMapWithId.layerId k) data))%io.

Definition packetReadKeypadInfo : list Z := [0x03; 0xfb; 0xfb; 0xfb].
Definition packetEnd : list Z := [0x03; 0xfd; 0xfe; 0xff].

Definition readKeypadInfo : io KeypadInfo.t :=
  (_ <~ sendRequest packetReadKeypadInfo ;;
   res <~ recvResponse ;;
   keys <~ io_lift (readUInt8 res 2) ;;
   knobs <~ io_lift (readUInt8 res 3) ;;
   let result := KeypadInfo.mk keys knobs in
   io_ret result)%io.

Definition packWriteKeypadLedParam (param : WriteKeypadLedParam.t) : list Z :=
  let ledId := (WriteKeypadLedParam.ledColorId param * 16)
               + WriteKeypadLedParam.ledModeId param in
  [0x03; 0xfe; 0xb0; 0x01; 0x08; 0x00; 0x00; 0x00; 0x00; 0x00;
   WriteKeypadLedParam.layerId param; 0x00; ledId].

Definition writeKeypadLed (param : WriteKeypadLedParam.t) : io unit :=
  (_ <~ sendRequest (packWriteKeypadLedParam param) ;;
   _ <~ sendRequest packetEnd ;;
   io_ret tt)%io.

Definition packWriteKeypadDelayTimeParam (param : WriteKeypadDelayTimeParam.t)
    : list Z :=
  let timeBytes := Utils.splitUInt16LE (WriteKeypadDelayTimeParam.delayTimeMs param) in
  [0x03; 0xfe; 0xb0; 0x01; 0x05] ++ timeBytes
  ++ [0x00; 0x00; 0x00; 0x01; 0x00; 0x24].

Definition writeKeypadDelayTime (param : WriteKeypadDelayTimeParam.t) : io unit :=
  (_ <~ sendRequest (packWriteKeypadDelayTimeParam param) ;;
   _ <~ sendRequest packetEnd ;;
   io_ret tt)%io.

End Api.

(* ===================================================================== *)
(** ** JavaScript strings *)
(* ===================================================================== *)

Module JsString.

Import Stdlib.Strings.Ascii.

(** A string is its sequence of UTF-16 code units; the strings here have
    code units below 256, one [ascii] each. *)

(** [String.fromCharCode(c)] *)
Definition fromCharCode (c : Z) : string :=
  String (Ascii.ascii_of_N (Z.to_N c)) EmptyString.

(** [s.charCodeAt(0)] of a string of one code unit. *)
Definition charCode (c : ascii) : Z := Z.of_N (Ascii.N_of_ascii c).

(** [s.toUpperCase()] for code units below 128. *)
Definition toUpperCase_unit (c : ascii) : ascii :=
  let n := Ascii.N_of_ascii c in
  if ((97 <=? n) && (n <=? 122))%N then Ascii.ascii_of_N (n - 32) else c.

Fixpoint toUpperCase (s : string) : string :=
  match s with
  | EmptyString => EmptyString
  | String c s' => String (toUpperCase_unit c) (toUpperCase s')
  end.

(** [text.split('')] *)
Fixpoint split_units (text : string) : list string :=
  match text with
  | EmptyString => []
  | String c text' => String c EmptyString :: split_units text'
  end.

(** [text.split(separator)] for a separator of one code unit. *)
Fixpoint split (separator : ascii) (text : string) : list string :=
  match text with
  | EmptyString => [EmptyString]
  | String c text' =>
      if Ascii.eqb c separator then EmptyString :: split separator text'
      else
        match split separator text' with
        | s :: l => String c s :: l
        | [] => [String c EmptyString]
        end
  end.

(** What [\s] matches below 256: tab, line feed, vertical tab, form
    feed, carriage return, space, no-break space. *)
Definition is_space (c : ascii) : bool :=
  bool_decide (Ascii.N_of_ascii c ∈ [9; 10; 11; 12; 13; 32; 160]%N).

(** [text.split(/\s+/)]: a run of white space is one separator. *)
Fixpoint split_spaces (text : string) : list string :=
  match text with
  | EmptyString => [EmptyString]
  | String c text' =>
      if is_space c then
        match text' with
        | EmptyString => [EmptyString; EmptyString]
        | String c' _ =>
            if is_space c' then split_spaces text'
            else EmptyString :: split_spaces text'
        end
      else
        match split_spaces text' with
        | s :: l => String c s :: l
        | [] => [String c EmptyString]
        end
  end.

(** [text.startsWith(prefix)] for a prefix of one code unit. *)
Definition startsWith (prefix : ascii) (text : string) : bool :=
  match text with
  | String c _ => Ascii.eqb c prefix
  | EmptyString => false
  end.

(** [text.substring(1)] *)
Definition substring1 (text : string) : string :=
  match text with
  | String _ text' => text'
  | EmptyString => EmptyString
  end.

(** [array.join('')] *)
Definition join (array : list string) : string := String.concat EmptyString array.

End JsString.

(* ===================================================================== *)
(** ** tools/generate-key-actions.ts *)
(* ===================================================================== *)

Module KeyCodeDef.
Record t : Type := mk {
  keyCode : Z;
  keyName : option (list string);
  keyNameS : option (list string);
  dictName : option string;
  dictNameS : option string }.
End KeyCodeDef.

Module KeyRecords.
Record t : Type := mk {
  keyRecord : JsObject.t KeyAction.t;
  dictRecord : JsObject.t KeyAction.t }.
End KeyRecords.

Module GenerateKeyActions.

Import Stdlib.Strings.Ascii.

(** [v || undefined] on [string | 0 | undefined]: [None] is [0] or a
    missing element, and the empty string is falsy too. *)
Definition truthy (v : option string) : option string :=
  match v with
  | Some (String _ _ as s) => Some s
  | _ => None
  end.

(** [stdKeys]: an element of a row is a string, [0] or missing. *)
Definition stdKeys
    : list (option string * option string * option string * option string) :=
  [
   (Some "1", Some "!", Some "1", Some "Excl");
   (Some "2", Some "@", Some "2", Some "At");
   (Some "3", Some "#", Some "3", Some "Hash");
   (Some "4", Some "$", Some "4", Some "Dol");
   (Some "5", Some "%", Some "5", Some "Per");
   (Some "6", Some "^", Some "6", Some "Caret");
   (Some "7", Some "&", Some "7", Some "Amp");
   (Some "8", Some (JsString.fromCharCode 42), Some "8", Some "Aster");
   (Some "9", Some (JsString.fromCharCode 40), Some "9", Some "LPar");
   (Some "0", Some (JsString.fromCharCode 41), Some "0", Some "RPar");
   (Some (JsString.fromCharCode 10), None, Some "Enter", None);
   (None, None, Some "Esc", None);
   (None, None, Some "BkSpc", None);
   (Some (JsString.fromCharCode 9), None, Some "Tab", None);
   (Some " ", None, Some "Space", None);
   (Some "-", Some "_", Some "Minus", None);
   (Some "=", Some "+", Some "Equal", None);
   (Some "[", Some "{", Some "LBra", Some "LCBra");
   (Some "]", Some "}", Some "RBra", Some "RCBra");
   (Some (JsString.fromCharCode 92), Some "|", Some "BkSla", Some "Pipe");
   (None, None, None, None);
   (Some ";", Some ":", Some "Semi", Some "Colon");
   (Some "'", Some (JsString.fromCharCode 34), Some "Quote", Some "DQ");
   (Some "`", Some "~", Some "Grave", Some "Tilde");
   (Some ",", Some "<", Some "Comma", Some "LT");
   (Some ".", Some ">", Some "Dot", Some "RT");
   (Some "/", Some "?", Some "Slash", Some "Que");
   (None, None, Some "Caps", None);
   (None, None, Some "F1", None);
   (None, None, Some "F2", None);
   (None, None, Some "F3", None);
   (None, None, Some "F4", None);
   (None, None, Some "F5", None);
   (None, None, Some "F6", None);
   (None, None, Some "F7", None);
   (None, None, Some "F8", None);
   (None, None, Some "F9", None);
   (None, None, Some "F10", None);
   (None, None, Some "F11", None);
   (None, None, Some "F12", None);
   (None, None, Some "PrSc", None);
   (None, None, Some "ScLk", None);
   (None, None, Some "Pause", None);
   (None, None, Some "Ins", None);
   (None, None, Some "Home", None);
   (None, None, Some "PgUp", None);
   (None, None, Some "Del", None);
   (None, None, Some "End", None);
   (None, None, Some "PgDn", None);
   (None, None, Some "Right", None);
   (None, None, Some "Left", None);
   (None, None, Some "Down", None);
   (None, None, Some "Up", None);
   (None, None, Some "NumLk", None);
   (None, None, Some "PadSlash", None);
   (None, None, Some "PadAster", None);
   (None, None, Some "PadMinus", None);
   (None, None, Some "PadPlus", None);
   (None, None, Some "PadEnter", None);
   (None, None, Some "Pad1", Some "PadEnd");
   (None, None, Some "Pad2", Some "PadDown");
   (None, None, Some "Pad3", Some "PadPgDn");
   (None, None, Some "Pad4", Some "PadLeft");
   (None, None, Some "Pad5", None);
   (None, None, Some "Pad6", Some "PadRight");
   (None, None, Some "Pad7", Some "PadHome");
   (None, None, Some "Pad8", Some "PadUp");
   (None, None, Some "Pad9", Some "PadPgUp");
   (None, None, Some "Pad0", Some "PadIns");
   (None, None, Some "PadDot", Some "PadDel");
   (None, None, None, None);
   (None, None, Some "App", None);
   (None, None, Some "Power", None);
   (None, None, Some "PadEqual", None);
   (None, None, Some "F13", None);
   (None, None, Some "F14", None);
   (None, None, Some "F15", None);
   (None, None, Some "F16", None);
   (None, None, Some "F17", None);
   (None, None, Some "F18", None);
   (None, None, Some "F19", None);
   (None, None, Some "F20", None);
   (None, None, Some "F21", None);
   (None, None, Some "F22", None);
   (None, None, Some "F23", None);
   (None, None, Some "F24", None)
  ]%string.

Definition metaKeys : list string :=
  ["LCtrl"; "LShift"; "LAlt"; "LGui"; "RCtrl"; "RShift"; "RAlt"; "RGui"]%string.

Definition createKeyCodeDefs : list KeyCodeDef.t :=
  let a := JsString.charCode "a" in
  [KeyCodeDef.mk 0 (Some ["NULL"%string]) None None None]
  (* for alphabet *)
  ++ ((fun c =>
         let keyCode := c - a + 0x04 in
         let name := JsString.fromCharCode c in
         let shift := JsString.toUpperCase name in
         KeyCodeDef.mk keyCode (Some [shift]) None (Some name) (Some shift))
        <$> seqZ a (JsString.charCode "z" - a + 1))
  (* for standard key *)
  ++ imap (fun i '(stdKey0, stdKey1, stdKey2, stdKey3) =>
             let keyCode := Z.of_nat i + 0x1E in
             let name := truthy stdKey0 in
             let shift := truthy stdKey1 in
             let aliasName := (fun n => [n]) <$> truthy stdKey2 in
             let aliasShift := (fun n => [n]) <$> truthy stdKey3 in
             KeyCodeDef.mk keyCode aliasName aliasShift name shift)
       stdKeys
  (* for meta keys *)
  ++ imap (fun i name => KeyCodeDef.mk (Z.of_nat i + 0xE0) (Some [name]) None None None)
       metaKeys.

(** One round of the [forEach] of [createKeyRecord]. *)
Definition createKeyRecord_step (records : KeyRecords.t) (def : KeyCodeDef.t)
    : KeyRecords.t :=
  let key := Types.createKeyAction (KeyCodeDef.keyCode def) 0 in
  let shiftKey := Types.Shift key in
  let dictRecord := KeyRecords.dictRecord records in
  let dictRecord :=
    match truthy (KeyCodeDef.dictName def) with
    | Some dictName => JsObject.set dictRecord dictName key
    | None => dictRecord
    end in
  let dictRecord :=
    match truthy (KeyCodeDef.dictNameS def) with
    | Some dictNameS => JsObject.set dictRecord dictNameS shiftKey
    | None => dictRecord
    end in
  let keyRecord := KeyRecords.keyRecord records in
  let keyRecord :=
    match KeyCodeDef.keyName def with
    | Some keyName => fold_left (fun r i => JsObject.set r i key) keyName keyRecord
    | None => keyRecord
    end in
  let keyRecord :=
    match KeyCodeDef.keyNameS def with
    | Some keyNameS => fold_left (fun r i => JsObject.set r i shiftKey) keyNameS keyRecord
    | None => keyRecord
    end in
  KeyRecords.mk keyRecord dictRecord.

Definition createKeyRecord (keyCodeDefs : list KeyCodeDef.t) : KeyRecords.t :=
  fold_left createKeyRecord_step keyCodeDefs (KeyRecords.mk [] []).

End GenerateKeyActions.

(* ===================================================================== *)
(** ** key-action-record.ts and key-action.ts *)
(* ===================================================================== *)

(** [key-action-record.ts] is the file [generate] writes: the entries of
    the two records of [createKeyRecord(createKeyCodeDefs())]. *)
Module KeyActionRecord.

Definition key : JsObject.t KeyAction.t :=
  Eval vm_compute in
    KeyRecords.keyRecord
      (GenerateKeyActions.createKeyRecord GenerateKeyActions.createKeyCodeDefs).

Definition dict : JsObject.t KeyAction.t :=
  Eval vm_compute in
    KeyRecords.dictRecord
      (GenerateKeyActions.createKeyRecord GenerateKeyActions.createKeyCodeDefs).

End KeyActionRecord.

(** What a formatter returns: a text, or [JSON.stringify] of a value,
    whose text lists the fields in the order the object was built with
    (which a record does not hold). *)
Inductive formatted (A : Type) : Type :=
| Text (text : string)
| JSON (value : A).
Arguments Text {A} text.
Arguments JSON {A} value.

Module KeyActions.

Import KeyActionRecord.

(** [key[name]] *)
Definition findKeyAction (name : string) : JsObject.property KeyAction.t :=
  JsObject.get key name.

(** [Object.entries(key).find(([, value]) => isEqual(value, keyAction))?.[0]] *)
Definition findKeyActionName (keyAction : KeyAction.t) : option string :=
  fst <$> List.find (fun e => bool_decide (snd e = keyAction)) key.

Definition formatKeyAction (keyAction : KeyAction.t) : formatted KeyAction.t :=
  let keyCode := KeyAction.keyCode keyAction in
  let modKey := KeyAction.modKey keyAction in
  let shifted :=
    if Types.isShift keyAction
    then GenerateKeyActions.truthy
           (findKeyActionName (Types.Shift (Types.createKeyAction keyCode 0)))
    else None in
  match shifted with
  | Some name => Text (Types.combineModKeyAndActionName (modKey - Types.ModKey_Shift) name)
  | None =>
      match GenerateKeyActions.truthy
              (findKeyActionName (Types.createKeyAction keyCode 0)) with
      | Some name => Text (Types.combineModKeyAndActionName modKey name)
      | None => JSON keyAction
      end
  end.

(** The first name of [Object.entries(dict)] whose value is [isEqual]
    to the key action. *)
Definition toCharacter (keyAction : KeyAction.t) : option string :=
  fst <$> List.find (fun e => bool_decide (keyAction = snd e)) dict.

(** [dict[c]] *)
Definition fromCharacter (c : string) : JsObject.property KeyAction.t :=
  JsObject.get dict c.

(** The loop of [toString]: [None] is [undefined]. *)
Fixpoint toString_loop (keyActions : list KeyAction.t) (array : list string)
    : option string :=
  match keyActions with
  | [] => Some (JsString.join array)
  | keyAction :: keyActions' =>
      match toCharacter keyAction with
      | None => None
      | Some c => toString_loop keyActions' (array ++ [c])
      end
  end.

Definition toString (keyActions : list KeyAction.t) : option string :=
  toString_loop keyActions [].

End KeyActions.

(* ===================================================================== *)
(** ** What the command line throws *)
(* ===================================================================== *)

(** A thrown value: the [ConfigurationError] of [cli-impl.ts], with its
    message and its lines, or an error of [api.ts]. *)
Inductive thrown : Type :=
| ConfigurationError (message : string) (lines : list string)
| ApiError (e : error).

(** How a call ends: it returns, it throws, or it goes on with a value
    its types exclude (a function inherited from [Object.prototype]
    where a number or an action is declared), where the model stops. *)
Inductive outcome (A : Type) : Type :=
| Done (a : A)
| Thrown (e : thrown)
| OutOfModel.
Arguments Done {A} a.
Arguments Thrown {A} e.
Arguments OutOfModel {A}.

Definition outcome_bind {A B} (r : outcome A) (f : A -> outcome B) : outcome B :=
  match r with
  | Done a => f a
  | Thrown e => Thrown e
  | OutOfModel => OutOfModel
  end.

Declare Scope outcome_scope.
Delimit Scope outcome_scope with outcome.
Notation "x <-- r ;; k" := (outcome_bind r (fun x => k))
  (at level 100, r at next level, right associativity) : outcome_scope.

(** An [async] function over the handle that may throw either kind. *)
Definition run (A : Type) : Type := HidIO.t -> outcome A * HidIO.t.

Definition run_ret {A} (a : A) : run A := fun hid => (Done a, hid).

Definition run_lift {A} (r : outcome A) : run A := fun hid => (r, hid).

Definition run_bind {A B} (m : run A) (f : A -> run B) : run B :=
  fun hid =>
    match m hid with
    | (Done a, hid') => f a hid'
    | (Thrown e, hid') => (Thrown e, hid')
    | (OutOfModel, hid') => (OutOfModel, hid')
    end.

(** A function of [api.ts] awaited by the command line. *)
Definition run_io {A} (m : io A) : run A :=
  fun hid =>
    match m hid with
    | (Ok a, hid') => (Done a, hid')
    | (Err e, hid') => (Thrown (ApiError e), hid')
    end.

Declare Scope run_scope.
Delimit Scope run_scope with run.
Notation "x <~~ m ;; k" := (run_bind m (fun x => k))
  (at level 100, m at next level, right associativity) : run_scope.

(* ===================================================================== *)
(** ** keypad.ts *)
(* ===================================================================== *)

Module Keypad.

Import Api.

(** The fields of [KeypadImpl] that change; [hid] is the handle the
    functions below run on. *)
Record t : Type := mk { layers : Z; info : KeypadInfo.t }.

Definition defaultLayers : Z := 3.

(** [new KeypadImpl(device, hid)] *)
Definition new : t := mk defaultLayers (KeypadInfo.mk 0 0).

Definition setLayers (layers' : Z) (keypad : t) : t := mk layers' (info keypad).

Definition setInfo (info' : KeypadInfo.t) (keypad : t) : t :=
  mk (layers keypad) (KeypadInfo.mk (KeypadInfo.keys info') (KeypadInfo.knobs info')).

Definition getKeyCount (keypad : t) : Z := Types.getKeyCount (info keypad).

Definition getKnobByKeyId (keypad : t) (keyId : Z) : option KnobIdAndAction.t :=
  Types.getKnobByKeyId (info keypad) keyId.

(** [readInfo] returns [this.info] and leaves the keypad changed. *)
Definition readInfo (keypad : t) : io (KeypadInfo.t * t) :=
  (info' <~ readKeypadInfo ;;
   let keypad' := setInfo info' keypad in
   io_ret (info keypad', keypad'))%io.

Definition readKeyMapTable (keypad : t) : io (list (JsArray.t KeyMap)) :=
  readKeypadKeyMapTable (info keypad) (layers keypad).

Definition writeKeyMap (keypad : t) (keyMapWithId : KeyMapWithId.t) : io Z :=
  writeKeypadKeyMap keyMapWithId.

Definition writeLed (keypad : t) (param : WriteKeypadLedParam.t) : io unit :=
  writeKeypadLed param.

Definition writeDelayTime (keypad : t) (delayTimeMs : Z) : io unit :=
  writeKeypadDelayTime (WriteKeypadDelayTimeParam.mk delayTimeMs).

(** [withHid] runs the process on the handle of the opened device. *)
Definition withKeypad {A} (process : t -> run A) : run A := process new.

End Keypad.

(* ===================================================================== *)
(** ** cli-impl.ts *)
(* ===================================================================== *)

Module HidDeviceQuery.
Record t : Type := mk {
  path : option string;
  vendorId : option Z;
  productId : option Z;
  usagePage : option Z;
  usage : option Z }.
End HidDeviceQuery.

Module HidDevice.
Record t : Type := mk {
  path : option string;
  vendorId : Z;
  productId : Z;
  interface : Z;
  release : Z }.
End HidDevice.

Module PartialKeypadInfo.
Record t : Type := mk { keys : option Z; knobs : option Z }.
End PartialKeypadInfo.

Module CommonOptions.
Record t : Type := mk {
  path : option string;
  layers : option Z;
  keys : option Z;
  knobs : option Z }.
End CommonOptions.

(** The value of an option: a text, or what an argument parser made of
    it. *)
Inductive option_value : Type :=
| OptionText (text : string)
| OptionNumber (n : Z).

Module SetKeyMapOptions.
Record t : Type := mk {
  common : CommonOptions.t;
  layerId : Z;
  keyId : option Z;
  knobId : option Z;
  knobAction : option option_value }.
End SetKeyMapOptions.

Module SetLedOptions.
Record t : Type := mk { common : CommonOptions.t; layerId : Z }.
End SetLedOptions.

(** [MouseAction | KeyAction | ConsumerAction], told apart by the
    fields [keyCode] and [id]. *)
Inductive Action : Type :=
| ActionKey (keyAction : KeyAction.t)
| ActionMouse (mouseAction : MouseAction.t)
| ActionConsumer (consumerAction : ConsumerAction.t).

(** [ActionDef], told apart as [createKeyMapFromActionDef] does. *)
Inductive ActionDef : Type :=
| DefText (text : string)
| DefKeyActions (keys : list KeyAction.t)
| DefKeyAction (key : KeyAction.t)
| DefConsumerAction (consumer : ConsumerAction.t)
| DefKeyMap (keyMap : KeyMap)
| DefMouseAction (mouse : MouseAction.t).

Module Cli.

Import Stdlib.Strings.Ascii.
Import Api.

(** [`${v}`] and the property key [v] is used as. *)
Definition option_text (v : option_value) : string :=
  match v with
  | OptionText text => text
  | OptionNumber n => Types.number_text n
  end.

(** The loop of the [map] of [createKeyActionsFromText]: the units left
    and the index of the first of them. *)
Fixpoint createKeyActionsFromText_loop (text : string) (units : list string) (i : Z)
    : outcome (list KeyAction.t) :=
  match units with
  | [] => Done []
  | c :: units' =>
      match KeyActions.fromCharacter c with
      | JsObject.Undefined =>
          Thrown (ConfigurationError
                    ("cannot convert character '" +:+ c +:+ "' at index "
                     +:+ Types.number_text i
                     +:+ " into a valid KeyAction. Full text: " +:+ text) [])
      | JsObject.Inherited => OutOfModel
      | JsObject.Own keyAction =>
          (keyActions <-- createKeyActionsFromText_loop text units' (i + 1) ;;
           Done (keyAction :: keyActions))%outcome
      end
  end.

Definition createKeyActionsFromText (text : string) : outcome (list KeyAction.t) :=
  createKeyActionsFromText_loop text (JsString.split_units text) 0.

Definition createKeyMapFromActionDef (def : ActionDef) : outcome KeyMap :=
  match def with
  | DefText text =>
      (keys <-- createKeyActionsFromText text ;; Done (createKeyMapKeys keys))%outcome
  | DefKeyActions keys => Done (createKeyMapKeys keys)
  | DefKeyAction key => Done (createKeyMapKeys [key])
  | DefConsumerAction consumer => Done (createKeyMapConsumer consumer)
  | DefKeyMap keyMap => Done keyMap
  | DefMouseAction mouse => Done (createKeyMapMouse mouse)
  end.

(** The inner [map] and [filter] of [createKeyMaps] on layer [l]: the
    definitions left and the index [k] of the first of them. *)
Fixpoint createKeyMaps_layer (actionDefs : list (option ActionDef)) (l k : Z)
    : outcome (list KeyMapWithId.t) :=
  match actionDefs with
  | [] => Done []
  | None :: actionDefs' => createKeyMaps_layer actionDefs' l (k + 1)
  | Some actionDef :: actionDefs' =>
      (keyMap <-- createKeyMapFromActionDef actionDef ;;
       rest <-- createKeyMaps_layer actionDefs' l (k + 1) ;;
       Done (KeyMapWithId.mk (l + 1) (k + 1) keyMap :: rest))%outcome
  end.

(** The outer [map] and the [flatMap]. *)
Fixpoint createKeyMaps_loop (actionDefTable : list (list (option ActionDef))) (l : Z)
    : outcome (list KeyMapWithId.t) :=
  match actionDefTable with
  | [] => Done []
  | actionDefs :: actionDefTable' =>
      (layer <-- createKeyMaps_layer actionDefs l 0 ;;
       rest <-- createKeyMaps_loop actionDefTable' (l + 1) ;;
       Done (layer ++ rest))%outcome
  end.

Definition createKeyMaps (actionDefTable : list (list (option ActionDef)))
    : outcome (list KeyMapWithId.t) :=
  createKeyMaps_loop actionDefTable 0.

Definition unknown_action (name : string) : thrown :=
  ConfigurationError ("cannot resolve the action: '" +:+ name +:+ "' is unknown") [].

Definition parseActionFromText (text : string) : outcome Action :=
  if (String.length text =? 0)%nat
  then Thrown (ConfigurationError
                 "cannot process the action string. The string cannot be empty" [])
  else
    let names := JsString.split "+" text in
    (* names.pop() *)
    let name := List.last names EmptyString in
    let names := removelast names in
    match Types.createModKey names with
    | None =>
        Thrown (ConfigurationError
                  ("cannot parse modifier keys from: '" +:+ text +:+ "'") [])
    | Some modKey =>
        match KeyActions.findKeyAction name with
        | JsObject.Own keyCode => Done (ActionKey (Types.applyModKey keyCode modKey))
        | JsObject.Inherited => OutOfModel
        | JsObject.Undefined =>
            match Types.findMouseAction name with
            | JsObject.Own mouseKey =>
                Done (ActionMouse (Types.applyModKey mouseKey modKey))
            | JsObject.Inherited => OutOfModel
            | JsObject.Undefined =>
                match Types.findConsumerAction name with
                | JsObject.Own consumerAction =>
                    if modKey =? 0 then Done (ActionConsumer consumerAction)
                    else Thrown (unknown_action name)
                | JsObject.Inherited =>
                    if modKey =? 0 then OutOfModel else Thrown (unknown_action name)
                | JsObject.Undefined => Thrown (unknown_action name)
                end
            end
        end
    end.

(** The [forEach] of [parseKeyMapFromKeyText]: every action text is
    parsed, in order. *)
Fixpoint parseKeyMapFromKeyText_loop (actionTexts : list string)
    : outcome (list Action) :=
  match actionTexts with
  | [] => Done []
  | actionText :: actionTexts' =>
      (action <-- parseActionFromText actionText ;;
       actions <-- parseKeyMapFromKeyText_loop actionTexts' ;;
       Done (action :: actions))%outcome
  end.

Definition keyActions_of (actions : list Action) : list KeyAction.t :=
  omap (fun a => match a with ActionKey k => Some k | _ => None end) actions.

Definition consumerActions_of (actions : list Action) : list ConsumerAction.t :=
  omap (fun a => match a with ActionConsumer c => Some c | _ => None end) actions.

Definition mouseActions_of (actions : list Action) : list MouseAction.t :=
  omap (fun a => match a with ActionMouse m => Some m | _ => None end) actions.

Definition conflicting_actions : thrown :=
  ConfigurationError "cannot set conflicting actions" [].

Definition parseKeyMapFromKeyText (text : string) : outcome KeyMap :=
  let actionTexts := JsString.split_spaces text in
  (actions <-- parseKeyMapFromKeyText_loop actionTexts ;;
   let keyActions := keyActions_of actions in
   let consumerActions := consumerActions_of actions in
   let mouseActions := mouseActions_of actions in
   if negb (length keyActions =? 0)%nat then
     if negb (length mouseActions =? 0)%nat || negb (length consumerActions =? 0)%nat
     then Thrown conflicting_actions
     else Done (createKeyMapKeys keyActions)
   else if negb (length consumerActions =? 0)%nat then
     if negb (length mouseActions =? 0)%nat then Thrown conflicting_actions
     else if (1 <? length consumerActions)%nat
     then Thrown (ConfigurationError
                    "cannot process the key map. Only one consumer action is allowed" [])
     else
       match consumerActions with
       | consumerAction :: _ => Done (createKeyMapConsumer consumerAction)
       | [] => OutOfModel
       end
   else if (1 <? length mouseActions)%nat
   then Thrown (ConfigurationError
                  "cannot process the key map. Only one mouse action is allowed" [])
   else
     match mouseActions with
     | mouseAction :: _ => Done (createKeyMapMouse mouseAction)
     | [] => OutOfModel
     end)%outcome.

Definition createKeyMapFromText (text : string) : outcome KeyMap :=
  if JsString.startsWith "@" text
  then
    (keys <-- createKeyActionsFromText (JsString.substring1 text) ;;
     Done (createKeyMapKeys keys))%outcome
  else parseKeyMapFromKeyText text.

(** The argument parser [newOptionRecord] installs: the parser of the
    choices first, when there is one, then [record[value]]. *)
Definition newOptionRecord_argParser {A} (parseArg : option (string -> outcome unit))
    (record : JsObject.t A) (value : string) : outcome (JsObject.property A) :=
  (_ <-- match parseArg with
         | Some parse => parse value
         | None => Done tt
         end ;;
   Done (JsObject.get record value))%outcome.

Definition normalizeKeypadInfo (config : PartialKeypadInfo.t) : option KeypadInfo.t :=
  match PartialKeypadInfo.keys config, PartialKeypadInfo.knobs config with
  | None, None => None
  | keys, knobs => Some (KeypadInfo.mk (default 0 keys) (default 0 knobs))
  end.

Definition invalid_key_ID (keyId keyCount : Z) : thrown :=
  ConfigurationError
    ("invalid key ID: " +:+ Types.number_text keyId
     +:+ ". It must be between 1 and " +:+ Types.number_text keyCount) [].

Definition invalid_knob_ID (knobId knobs : Z) : thrown :=
  ConfigurationError
    ("invalid knob ID: " +:+ Types.number_text knobId
     +:+ ". It must be between 1 and " +:+ Types.number_text knobs) [].

Definition invalid_knob_action (knobAction : option_value) : thrown :=
  ConfigurationError
    ("cannot process the knob action: '" +:+ option_text knobAction +:+ "' is invalid") [].

Definition unresolved_key_ID : thrown :=
  ConfigurationError
    "cannot resolve the key ID. Specify either '--key-id' or both '--knob-id' and '--knob-action'"
    [].

(** [findKnobAction(options.knobAction)] is [KnobActions[knobAction]];
    an inherited function is not [null], and the sum of a number and a
    function is a text, the text of the number followed by the source
    of the function: the model stops there, and where the sum of
    [getKeyIdForKnob] is an infinity or NaN. *)
Definition resolveKeyId (info : KeypadInfo.t) (options : SetKeyMapOptions.t)
    : outcome Z :=
  match SetKeyMapOptions.keyId options with
  | Some keyId =>
      let keyCount := Types.getKeyCount info in
      if (keyId <=? 0) || (Types.getKeyCount info <? keyId)
      then Thrown (invalid_key_ID keyId keyCount)
      else Done keyId
  | None =>
      match SetKeyMapOptions.knobId options, SetKeyMapOptions.knobAction options with
      | Some knobId, Some knobAction =>
          match Types.findKnobAction (option_text knobAction) with
          | JsObject.Undefined => Thrown (invalid_knob_action knobAction)
          | action =>
              if (knobId <=? 0) || (KeypadInfo.knobs info <? knobId)
              then Thrown (invalid_knob_ID knobId (KeypadInfo.knobs info))
              else
                match action with
                | JsObject.Own action =>
                    match Types.getKeyIdForKnob info knobId action with
                    | Some keyId => Done keyId
                    | None => OutOfModel
                    end
                | _ => OutOfModel
                end
          end
      | _, _ => Thrown unresolved_key_ID
      end
  end.

Definition resolveWriteLedParams (layerId : Z) (ledMode ledColor : string)
    : outcome WriteKeypadLedParam.t :=
  match Types.findLedMode ledMode with
  | JsObject.Undefined =>
      Thrown (ConfigurationError ("invalid LED mode: '" +:+ ledMode +:+ "'") [])
  | ledModeId =>
      match Types.findLedColor ledColor with
      | JsObject.Undefined =>
          Thrown (ConfigurationError ("invalid LED color: '" +:+ ledColor +:+ "'") [])
      | ledColorId =>
          match ledModeId, ledColorId with
          | JsObject.Own ledModeId, JsObject.Own ledColorId =>
              Done (WriteKeypadLedParam.mk layerId ledModeId ledColorId)
          | _, _ => OutOfModel
          end
      end
  end.

Definition validateKeyDefTable (keyDefTable : list (list (option ActionDef)))
    (layers keyCount : Z) : outcome unit :=
  let count := Z.of_nat (length keyDefTable) in
  if (count <=? 0) || (layers <? count)
  then Thrown (ConfigurationError
                 ("cannot process the key definition table. It must contain between 1 and "
                  +:+ Types.number_text layers +:+ " layers. Found: "
                  +:+ Types.number_text count) [])
  else
    match list_find (fun keyDefs : list (option ActionDef) =>
                       keyCount < Z.of_nat (length keyDefs)) keyDefTable with
    | Some (i, keyDefs) =>
        Thrown (ConfigurationError
                  ("cannot validate layer " +:+ Types.number_text (Z.of_nat i)
                   +:+ ". The number of keys exceeds the maximum allowed ("
                   +:+ Types.number_text keyCount +:+ "). Found: "
                   +:+ Types.number_text (Z.of_nat (length keyDefs))) [])
    | None => Done tt
    end.

Section Devices.

(** [findHidDevices] of with-hid: the devices of the machine that match
    a query. *)
Variable findHidDevices : HidDeviceQuery.t -> list HidDevice.t.

Definition defaultKeypadQuery : HidDeviceQuery.t :=
  HidDeviceQuery.mk None (Some 0x1189) (Some 0x8840) (Some 0xFF00) (Some 0x01).

Definition findKeypadDevices (query : HidDeviceQuery.t) : list HidDevice.t :=
  findHidDevices query.

Definition detectKeypad (path : option string) : outcome HidDevice.t :=
  let pattern :=
    match path with
    | Some (String _ _ as path') => HidDeviceQuery.mk (Some path') None None None None
    | _ => defaultKeypadQuery
    end in
  let devices := findKeypadDevices pattern in
  if (length devices =? 0)%nat
  then Thrown (ConfigurationError "cannot find the keypad device" [])
  else if (1 <? length devices)%nat
  then
    let names := omap HidDevice.path devices in
    Thrown (ConfigurationError
              "cannot detect the keypad device. Use the '--path' option to specify its path"
              names)
  else
    match devices with
    | device :: _ => Done device
    | [] => OutOfModel
    end.

Definition executeKeypadTask {A} (options : CommonOptions.t) (task : Keypad.t -> run A)
    : run A :=
  (device <~~ run_lift (detectKeypad (CommonOptions.path options)) ;;
   Keypad.withKeypad (fun keypad =>
     let keypad :=
       match CommonOptions.layers options with
       | Some layers => if layers =? 0 then keypad else Keypad.setLayers layers keypad
       | None => keypad
       end in
     match normalizeKeypadInfo
             (PartialKeypadInfo.mk (CommonOptions.keys options)
                (CommonOptions.knobs options)) with
     | Some info => task (Keypad.setInfo info keypad)
     | None =>
         (read <~~ run_io (Keypad.readInfo keypad) ;;
          task (snd read))
     end))%run.

Definition setKeyMap (keys : string) (options : SetKeyMapOptions.t) : run unit :=
  match resolveKeyId (KeypadInfo.mk 0x100 0x100) options with
  | Thrown e => run_lift (Thrown e)
  | _ =>
      executeKeypadTask (SetKeyMapOptions.common options) (fun keypad =>
        (keyId <~~ run_lift (resolveKeyId (Keypad.info keypad) options) ;;
         let keyCount := Keypad.getKeyCount keypad in
         if keyCount <=? keyId
         then run_lift
                (Thrown (ConfigurationError
                           ("cannot validate the key ID: (" +:+ Types.number_text keyId
                            +:+ "). The resolved ID exceeds the total number of keys ("
                            +:+ Types.number_text keyCount +:+ ")") []))
         else
           (keyMap <~~ run_lift (createKeyMapFromText keys) ;;
            _ <~~ run_io (Keypad.writeKeyMap keypad
                            (KeyMapWithId.mk (SetKeyMapOptions.layerId options) keyId keyMap)) ;;
            run_ret tt))%run)
  end.

Definition setLed (ledMode ledColor : string) (options : SetLedOptions.t) : run unit :=
  (param <~~ run_lift (resolveWriteLedParams (SetLedOptions.layerId options)
                         ledMode ledColor) ;;
   executeKeypadTask (SetLedOptions.common options) (fun keypad =>
     run_io (Keypad.writeLed keypad param)))%run.

End Devices.

End Cli.

(* ===================================================================== *)
(** ** Vocabulary of the statements *)
(* ===================================================================== *)

Import Api.

(** The bytes of a list of key actions: [modKey, keyCode] of each. *)
Definition keyActionBytes (keys : list KeyAction.t) : list Z :=
  flat_map (fun k => [KeyAction.modKey k; KeyAction.keyCode k]) keys.

(** The [n] key actions a buffer holds from pair [i] on: pair [j] is the
    two bytes at [0x0B + 2 * j]. *)
Definition keyActionsAt (buffer : Buffer.t) (i n : nat) : list KeyAction.t :=
  (fun j : nat => KeyAction.mk (nth (0x0B + 2 * j) buffer 0)
                               (nth (0x0B + 2 * j + 1) buffer 0)) <$> seq i n.

Definition valid_KeyAction (k : KeyAction.t) : bool :=
  Buffer.is_byte (KeyAction.modKey k) && Buffer.is_byte (KeyAction.keyCode k).

(** A KeyMap of a known type that the device can hold: at most 18 key
    actions of byte fields, a 16-bit consumer id, a mouse action of byte
    fields (a signed delta is held as the byte [toInt8] gives). *)
Definition valid_KeyMap (keyMap : KeyMap) : bool :=
  match keyMap with
  | KeyMapKeys keys => (length keys <=? 18)%nat && forallb valid_KeyAction keys
  | KeyMapConsumer c => (0 <=? ConsumerAction.id c) && (ConsumerAction.id c <=? 0xFFFF)
  | KeyMapMouse m =>
      forallb Buffer.is_byte
        [MouseAction.modKey m; MouseAction.button m; MouseAction.x m;
         MouseAction.y m; MouseAction.wheel m]
  | KeyMapUnknown _ _ => false
  end.

(** The payload from offset 0x0A on is well formed for the type: a count
    of 0 to 18 and that many pairs; the marker 0x01 and the two bytes of
    a consumer id; the marker 0x04 and the five bytes of a mouse action. *)
Definition well_formed_payload (type : Z) (payload : list Z) : bool :=
  if type =? KeyMapTypes_keys then
    match payload with
    | count :: pairs =>
        (0 <=? count) && (count <=? 18)
        && (Z.of_nat (length pairs) =? 2 * count)
    | [] => false
    end
  else if type =? KeyMapTypes_consumer then
    match payload with
    | [0x01; _; _] => true
    | _ => false
    end
  else if type =? KeyMapTypes_mouse then
    match payload with
    | [0x04; _; _; _; _; _] => true
    | _ => false
    end
  else false.

(** The encoding of a KeyMap of a supported type in a report: bytes
    only, a 4-byte header (report id, command, keyId, layerId), the type
    at offset 4, five zero bytes, and a well-formed payload. *)
Definition well_formed_report (buffer : Buffer.t) : bool :=
  forallb Buffer.is_byte buffer
  && match buffer with
     | _ :: _ :: _ :: _ :: type :: 0 :: 0 :: 0 :: 0 :: 0 :: payload =>
         well_formed_payload type payload
     | _ => false
     end.

(** A response that [readKeypadKeyMaps] accepts for [layerId]. *)
Definition accepted_response (layerId : Z) (buffer : Buffer.t) : bool :=
  negb (length buffer =? 0)%nat
  && match unpackKeyMapWithId buffer with
     | Ok k => KeyMapWithId.layerId k =? layerId
     | Err _ => false
     end.

(** The key id a response carries (offset 2). *)
Definition response_keyId (buffer : Buffer.t) : Z := nth 2 buffer 0.

(** The padded request of layer [layerId]. *)
Definition layer_request (info : KeypadInfo.t) (layerId : Z) : list Z :=
  packReadKeypadKeyMaps
    (ReadKeypadKeyMapsRequest.mk (KeypadInfo.keys info) (KeypadInfo.knobs info) layerId)
  ++ replicate 60 0.

(** What one accepted response does to the list being built:
    [result[keyId - 1] = keyMap]. *)
Definition store_response (result : JsArray.t KeyMap) (buffer : Buffer.t)
    : JsArray.t KeyMap :=
  match unpackKeyMapWithId buffer with
  | Ok k => JsArray.set result (KeyMapWithId.keyId k - 1) (KeyMapWithId.keyMap k)
  | Err _ => result
  end.

(** What [readKeypadKeyMaps] throws at a response it does not accept. *)
Definition response_error (buffer : Buffer.t) : error :=
  if (length buffer =? 0)%nat then NoResponse
  else match unpackKeyMapWithId buffer with
       | Ok _ => InvalidLayerResponse buffer
       | Err e => e
       end.

(** The responses of consecutive layers, from [layerId] on: [count]
    accepted responses for each. *)
Fixpoint accepted_layers (count : nat) (layerId : Z) (layers : list (list Buffer.t))
    : bool :=
  match layers with
  | [] => true
  | responses :: layers' =>
      (length responses =? count)%nat
      && forallb (accepted_response layerId) responses
      && accepted_layers count (layerId + 1) layers'
  end.

(** The padded requests of [n] consecutive layers, from [layerId] on. *)
Fixpoint layer_requests (info : KeypadInfo.t) (layerId : Z) (n : nat) : list (list Z) :=
  match n with
  | O => []
  | S n' => layer_request info layerId :: layer_requests info (layerId + 1) n'
  end.

(** The list [readKeypadKeyMaps] builds from accepted responses. *)
Definition stored_responses (responses : list Buffer.t) : JsArray.t KeyMap :=
  fold_left store_response responses JsArray.empty.

(** The signed byte nearest to [n]. *)
Definition clampInt8 (n : Z) : Z := Z.max (-128) (Z.min 127 n).

(** [record[name]] values are compared as the tests compare them. *)
#[global] Instance property_eq_dec {A} `{EqDecision A} : EqDecision (JsObject.property A).
Proof. solve_decision. Defined.

(** The code unit [c] occurs in [s]. *)
Fixpoint has_unit (c : Ascii.ascii) (s : string) : bool :=
  match s with
  | EmptyString => false
  | String c' s' => Ascii.eqb c' c || has_unit c s'
  end.

(** The characters a keyboard types: the printable ASCII characters,
    the tab and the line feed. *)
Definition typeable (c : Ascii.ascii) : bool :=
  let n := Ascii.N_of_ascii c in
  ((32 <=? n) && (n <=? 126) || (n =? 9) || (n =? 10))%N.

(** All the code units below 256. *)
Definition all_units : list Ascii.ascii :=
  (fun n : nat => Ascii.ascii_of_nat n) <$> seq 0 256.

(** The code unit of ['+'], which joins the names of an action text. *)
Definition plus_unit : Ascii.ascii := Eval cbv in Ascii.ascii_of_nat 43.

(** A name an action text can end with: not empty, without ['+']. *)
Definition action_name (name : string) : bool :=
  negb (String.eqb name EmptyString) && negb (has_unit plus_unit name).

(** The number of layers a task of the command line works with: the
    option when it is given and not 0, the default otherwise. *)
Definition task_layers (options : CommonOptions.t) : Z :=
  match CommonOptions.layers options with
  | Some layers => if layers =? 0 then Keypad.defaultLayers else layers
  | None => Keypad.defaultLayers
  end.

(** The padded request of [readKeypadInfo]. *)
Definition info_request : list Z := packetReadKeypadInfo ++ replicate 61 0.

(** The query [detectKeypad] makes for a path. *)
Definition keypad_query (path : option string) : HidDeviceQuery.t :=
  match path with
  | Some (String _ _ as path') => HidDeviceQuery.mk (Some path') None None None None
  | _ => Cli.defaultKeypadQuery
  end.

(** The padded terminator that follows an LED or a delay packet. *)
Definition end_request : list Z := packetEnd ++ replicate 61 0.

(** The padded request of [writeKeypadKeyMap] for the packed bytes
    [data] of a KeyMap. *)
Definition key_map_request (layerId keyId : Z) (data : list Z) : list Z :=
  [0x03; 0xfd; keyId; layerId] ++ data ++ replicate (61 - length data) 0.

(** What [setKeyMap] throws for a key id that is not below the number
    of keys. *)
Definition exceeds_key_count (keyId keyCount : Z) : thrown :=
  ConfigurationError
    ("cannot validate the key ID: (" +:+ Types.number_text keyId
     +:+ "). The resolved ID exceeds the total number of keys ("
     +:+ Types.number_text keyCount +:+ ")") [].

(** The numbers up to 2^53: the integers that a double holds without
    rounding, and that a template literal prints digit by digit. *)
Definition safe_number (n : Z) : bool := Z.abs n <=? 2 ^ 53.

(** An info whose number of keys, [keys + 3 * knobs], and whose knob key
    ids are computed without rounding. *)
Definition safe_info (info : KeypadInfo.t) : bool :=
  Z.abs (KeypadInfo.keys info) + 3 * Z.abs (KeypadInfo.knobs info) <=? 2 ^ 53.

(** Options whose key id, knob id and parsed knob action are safe
    numbers. *)
Definition safe_options (options : SetKeyMapOptions.t) : bool :=
  from_option safe_number true (SetKeyMapOptions.keyId options)
  && from_option safe_number true (SetKeyMapOptions.knobId options)
  && match SetKeyMapOptions.knobAction options with
     | Some (OptionNumber n) => safe_number n
     | _ => true
     end.

(** The place of a key map in a table: its layer id and its key id. *)
Definition place (m : KeyMapWithId.t) : Z * Z :=
  (KeyMapWithId.layerId m, KeyMapWithId.keyId m).

(** The order of the places of a table, row by row. *)
Definition place_before (a b : Z * Z) : Prop :=
  fst a < fst b \/ (fst a = fst b /\ snd a < snd b).

(* ===================================================================== *)
(** * Properties *)
(* ===================================================================== *)

(** Case analysis on every value that a hypothesis matches on. *)
Ltac destruct_matches H :=
  repeat (match type of H with
          | context [match ?z with _ => _ end] => destruct z
          end);
  try discriminate H.

(** ** The repository's test vectors, run on the model *)

Example toInt8_vectors :
  (Utils.toInt8 <$> [0; 1; 0x7F; 0x80; -1; -128; -129]) = [0; 1; 0x7F; 0x7F; 0xFF; 0x80; 0x80].
Proof. reflexivity. Qed.

Example fromInt8_vectors :
  (Utils.fromInt8 <$> [0; 1; 0x7F; 0xFF; 0x80]) = [Ok 0; Ok 1; Ok 0x7F; Ok (-1); Ok (-128)].
Proof. reflexivity. Qed.

Example splitUInt16LE_vector : Utils.splitUInt16LE 0x1234 = [0x34; 0x12].
Proof. reflexivity. Qed.

Example unpack_pack_2key :
  let buffer := [0x03; 0xfa; 0x0f; 0x01; 0x01; 0; 0; 0; 0; 0; 0x02; 0x00; 0x12; 0x01; 0x23] in
  unpackKeyMapWithId buffer
  = Ok (KeyMapWithId.mk 0x01 0x0F
          (KeyMapKeys [Types.createKeyAction 0x12 0; Types.createKeyAction 0x23 0x01]))
  /\ packKeyMap (KeyMapKeys [Types.createKeyAction 0x12 0; Types.createKeyAction 0x23 0x01])
     = Ok (drop 4 buffer).
Proof. split; reflexivity. Qed.

Example unpack_pack_WheelDown :
  let buffer := [0x03; 0xfa; 0x05; 0x02; 0x03; 0; 0; 0; 0; 0; 0x04; 0; 0; 0; 0; 0xff] in
  unpackKeyMapWithId buffer = Ok (KeyMapWithId.mk 0x02 0x05 (KeyMapMouse Types.mouse_WheelDown))
  /\ packKeyMap (KeyMapMouse Types.mouse_WheelDown) = Ok (drop 4 buffer).
Proof. split; reflexivity. Qed.

Example unpack_pack_AL_CALC :
  let buffer := [0x03; 0xfa; 0x02; 0x02; 0x02; 0; 0; 0; 0; 0; 0x01; 0x92; 0x01] in
  unpackKeyMapWithId buffer = Ok (KeyMapWithId.mk 0x02 0x02 (KeyMapConsumer (Types.Consumer 0x0192)))
  /\ packKeyMap (KeyMapConsumer (Types.Consumer 0x0192)) = Ok (drop 4 buffer).
Proof. split; reflexivity. Qed.

Example getKnobByKeyId_vectors :
  let info := KeypadInfo.mk 3 2 in
  (Types.getKnobByKeyId info <$> [1; 2; 3]) = [None; None; None]
  /\ Types.getKeyIdForKnob info 2 1 = Some 8
  /\ Types.getKnobByKeyId info 8
     = Some (KnobIdAndAction.mk (Some 2) (Some "Click"%string))
  /\ JsNumber.nearest (2 ^ 53 + 1) = 2 ^ 53
  /\ JsNumber.nearest (2 ^ 53 + 3) = 2 ^ 53 + 4
  /\ JsNumber.nearest (- (2 ^ 54 + 6)) = - (2 ^ 54 + 8)
  /\ JsNumber.number (2 ^ 1024 - 2 ^ 970 - 1) = Some JsNumber.MAX_VALUE
  /\ JsNumber.number (2 ^ 1024 - 2 ^ 970) = None.
Proof. repeat split; vm_compute; reflexivity. Qed.

(** The [readKeypadKeyMapTable] test: two layers of three keys, the
    second layer's responses arriving as keys 3, 2, 1. *)
Example readKeypadKeyMapTable_test :
  let key1 keyId layerId modKey keyCode : Buffer.t :=
    [0x03; 0xfa; keyId; layerId; 0x01; 0; 0; 0; 0; 0; 0x01; modKey; keyCode] in
  let hid := HidIO.mk [] 0
    [key1 1 1 0x11 0x21; key1 2 1 0x12 0x22; key1 3 1 0x13 0x23;
     key1 3 2 0x14 0x24; key1 2 2 0x15 0x25; key1 1 2 0x16 0x26] in
  let keys1 modKey keyCode := Some (KeyMapKeys [KeyAction.mk modKey keyCode]) in
  let '(table, hid') := readKeypadKeyMapTable (KeypadInfo.mk 3 0) 2 hid in
  (JsArray.elements <$$> table)
  = Ok [[keys1 0x11 0x21; keys1 0x12 0x22; keys1 0x13 0x23];
        [keys1 0x16 0x26; keys1 0x15 0x25; keys1 0x14 0x24]]
  /\ HidIO.written hid'
     = [[0x03; 0xfa; 0x03; 0x00; 0x01] ++ replicate 60 0;
        [0x03; 0xfa; 0x03; 0x00; 0x02] ++ replicate 60 0]
  /\ HidIO.reads hid' = 6%nat.
Proof. vm_compute. repeat split; reflexivity. Qed.

(* ===================================================================== *)
(** ** Signed bytes (utils.ts) *)
(* ===================================================================== *)

Lemma land_0xFF_byte (v : Z) : 0 <= v <= 0xFF -> Z.land v 0xFF = v.
Proof.
  intros Hv. change 0xFF with (Z.ones 8).
  rewrite Z.land_ones by lia. apply Z.mod_small. lia.
Qed.

Lemma fromInt8_byte (v : Z) :
  0 <= v <= 0xFF -> Utils.fromInt8 v = Ok (if v <? 0x80 then v else v - 0x100).
Proof.
  intros Hv. unfold Utils.fromInt8, Buffer.writeUInt8, Buffer.is_byte.
  rewrite land_0xFF_byte by done.
  replace (0 <=? v) with true by lia. replace (v <=? 0xFF) with true by lia.
  reflexivity.
Qed.

Lemma toInt8_byte (n : Z) : 0 <= Utils.toInt8 n <= 0xFF.
Proof. unfold Utils.toInt8. repeat case_match; lia. Qed.

(** C6: [fromInt8 (toInt8 n) = n] for every integer [n] of [-128, 127];
    above 127 [toInt8] gives 127 and below -128 it gives 128 (0x80), so a
    value out of range is clamped, not wrapped, and does not come back. *)
Theorem toInt8_fromInt8_inverse (n : Z) :
  (-128 <= n <= 127 -> Utils.fromInt8 (Utils.toInt8 n) = Ok n)
  /\ (127 < n ->
      Utils.toInt8 n = 0x7F /\ Utils.fromInt8 (Utils.toInt8 n) = Ok 127
      /\ Utils.fromInt8 (Utils.toInt8 n) <> Ok n)
  /\ (n < -128 ->
      Utils.toInt8 n = 0x80 /\ Utils.fromInt8 (Utils.toInt8 n) = Ok (-128)
      /\ Utils.fromInt8 (Utils.toInt8 n) <> Ok n).
Proof.
  split; [|split]; intros Hn.
  - rewrite fromInt8_byte by apply toInt8_byte.
    f_equal. unfold Utils.toInt8. repeat case_match; lia.
  - assert (Utils.toInt8 n = 0x7F) as ->.
    { unfold Utils.toInt8. repeat case_match; lia. }
    change (Utils.fromInt8 0x7F) with (@Ok Z 127).
    split; [reflexivity|]. split; [reflexivity|]. intros [=]. lia.
  - assert (Utils.toInt8 n = 0x80) as ->.
    { unfold Utils.toInt8. repeat case_match; lia. }
    change (Utils.fromInt8 0x80) with (@Ok Z (-128)).
    split; [reflexivity|]. split; [reflexivity|]. intros [=]. lia.
Qed.

Lemma toInt8_fromInt8_inverse_witness :
  Utils.fromInt8 (Utils.toInt8 (-3)) = Ok (-3)
  /\ Utils.toInt8 300 = 0x7F
  /\ Utils.toInt8 (-300) = 0x80.
Proof.
  split; [|split].
  - apply (toInt8_fromInt8_inverse (-3)). lia.
  - apply (toInt8_fromInt8_inverse 300). lia.
  - apply (toInt8_fromInt8_inverse (-300)). lia.
Defined.

(* ===================================================================== *)
(** ** Knob key ids (types.ts) *)
(* ===================================================================== *)

Lemma findKnobActionName_inverse (a : Z) :
  0 <= a <= 2 ->
  exists name, Types.findKnobActionName a = Some name
               /\ Types.findKnobAction name = JsObject.Own a.
Proof.
  intros Ha.
  assert (a = 0 \/ a = 1 \/ a = 2) as [-> | [-> | ->]] by lia;
    eexists; split; reflexivity.
Qed.

(** Up to 2^53 every integer is a double. *)
Lemma number_safe (n : Z) :
  Z.abs n <= 2 ^ 53 -> JsNumber.number n = Some n.
Proof.
  intros Hn. unfold JsNumber.number.
  assert (JsNumber.nearest n = n) as ->.
  { unfold JsNumber.nearest. destruct (Z.abs n <? 2 ^ 53) eqn:Hlt; [done|].
    apply Z.ltb_ge in Hlt.
    assert (n = 2 ^ 53 \/ n = - 2 ^ 53) as [-> | ->] by lia; reflexivity. }
  rewrite (proj2 (Z.leb_le _ _)); [done|].
  unfold JsNumber.MAX_VALUE.
  assert (2 ^ 53 <= 2 ^ 1024 - 2 ^ 971); [|lia].
  change (2 ^ 1024) with (2 ^ 53 * 2 ^ 971). change (2 ^ 971) with (2 ^ 53 * 2 ^ 918) at 2.
  assert (0 < 2 ^ 918) by done. nia.
Qed.

Lemma getKeyIdForKnob_safe (info : KeypadInfo.t) (knobId knobAction : Z) :
  1 <= knobId -> 0 <= knobAction <= 2 ->
  Z.abs (1 + KeypadInfo.keys info) <= 2 ^ 53 ->
  Z.abs (1 + KeypadInfo.keys info + 3 * (knobId - 1)) <= 2 ^ 53 ->
  3 * (knobId - 1) <= 2 ^ 53 ->
  1 + KeypadInfo.keys info + 3 * (knobId - 1) + knobAction <= 2 ^ 53 ->
  Types.getKeyIdForKnob info knobId knobAction
  = Some (1 + KeypadInfo.keys info + 3 * (knobId - 1) + knobAction).
Proof.
  intros Hk Ha Hsafe1 Hsafe2 Hsafe3 Hsafe4.
  unfold Types.getKeyIdForKnob, JsNumber.add, JsNumber.sub, JsNumber.mul.
  rewrite (number_safe (1 + _)) by lia. cbn [mbind option_bind].
  rewrite (number_safe (knobId - 1)) by lia. cbn [mbind option_bind].
  rewrite (number_safe (3 * _)) by lia. cbn [mbind option_bind].
  rewrite (number_safe (1 + _ + _)) by lia. cbn [mbind option_bind].
  apply number_safe. lia.
Qed.

Lemma getKnobByKeyId_safe (info : KeypadInfo.t) (keyId : Z) :
  KeypadInfo.keys info < keyId ->
  Z.abs (keyId - 1) <= 2 ^ 53 -> keyId - 1 - KeypadInfo.keys info <= 2 ^ 53 ->
  let knob := keyId - 1 - KeypadInfo.keys info in
  Types.getKnobByKeyId info keyId
  = Some (KnobIdAndAction.mk (Some (1 + Z.quot knob 3))
            (Types.findKnobActionName (Z.rem knob 3))).
Proof.
  intros Hlt Hsafe Hsafe' knob.
  assert (0 <= knob) as Hknob by (unfold knob; lia).
  assert (0 <= Z.rem knob 3 < 3) as Hrem.
  { rewrite Z.rem_mod_nonneg by lia. apply Z.mod_pos_bound. lia. }
  assert (knob - Z.rem knob 3 = 3 * Z.quot knob 3) as Hq.
  { pose proof (Z.quot_rem' knob 3). lia. }
  assert (0 <= Z.quot knob 3) by (apply Z.quot_pos; lia).
  unfold Types.getKnobByKeyId. case_match; [lia|].
  unfold JsNumber.sub, JsNumber.add, JsNumber.rem, JsNumber.div.
  rewrite (number_safe (keyId - 1)) by lia. cbn [mbind option_bind].
  fold knob. rewrite (number_safe knob) by (unfold knob; lia).
  cbn [mbind option_bind Z.eqb].
  rewrite (number_safe (knob - _)) by (unfold knob in *; lia).
  cbn [mbind option_bind]. rewrite Hq.
  rewrite (Z.mul_comm 3), Z.rem_mul, Z.quot_mul by lia.
  cbn [Z.eqb mbind option_bind].
  rewrite number_safe by (unfold knob in *; lia). reflexivity.
Qed.

Lemma getKnobByKeyId_getKeyIdForKnob (info : KeypadInfo.t) (knobId action : Z) :
  1 <= knobId -> 0 <= action <= 2 ->
  Z.abs (KeypadInfo.keys info) + 3 * knobId <= 2 ^ 53 ->
  Types.getKnobByKeyId info (1 + KeypadInfo.keys info + 3 * (knobId - 1) + action)
  = Some (KnobIdAndAction.mk (Some knobId) (Types.findKnobActionName action)).
Proof.
  intros Hk Ha Hsafe. rewrite getKnobByKeyId_safe by lia. cbv zeta.
  replace (1 + KeypadInfo.keys info + 3 * (knobId - 1) + action - 1
           - KeypadInfo.keys info) with (action + (knobId - 1) * 3) by lia.
  assert (Z.rem (action + (knobId - 1) * 3) 3 = action) as Hrem.
  { rewrite Z.rem_mod_nonneg by lia. rewrite Z.mod_add by lia.
    apply Z.mod_small. lia. }
  assert (Z.quot (action + (knobId - 1) * 3) 3 = knobId - 1) as Hquot.
  { pose proof (Z.quot_rem' (action + (knobId - 1) * 3) 3). lia. }
  rewrite Hrem, Hquot. do 3 f_equal. lia.
Qed.

(** C2, where every number of the computation is at most 2^53 (the
    integers that doubles hold without rounding): for a knob
    [knobId >= 1] and an action of Left=0, Click=1, Right=2, the key id
    is [1 + keys + 3*(knobId-1) + knobAction], and [getKnobByKeyId] gives
    back the knob and the action (under its name); in the other
    direction every key id above [keys] is the key id of the knob and
    action that [getKnobByKeyId] returns for it. *)
Theorem knob_key_id_inverse (info : KeypadInfo.t) :
  (forall knobId knobAction : Z,
      1 <= knobId -> 0 <= knobAction <= 2 ->
      Z.abs (KeypadInfo.keys info) + 3 * knobId <= 2 ^ 53 ->
      let keyId := 1 + KeypadInfo.keys info + 3 * (knobId - 1) + knobAction in
      Types.getKeyIdForKnob info knobId knobAction = Some keyId
      /\ Types.getKnobByKeyId info keyId
         = Some (KnobIdAndAction.mk (Some knobId) (Types.findKnobActionName knobAction))
      /\ exists name, Types.findKnobActionName knobAction = Some name
                      /\ Types.findKnobAction name = JsObject.Own knobAction)
  /\ (forall keyId : Z,
      KeypadInfo.keys info < keyId ->
      Z.abs (KeypadInfo.keys info) + Z.abs keyId <= 2 ^ 53 ->
      exists knobId knobAction name,
        Types.getKnobByKeyId info keyId
        = Some (KnobIdAndAction.mk (Some knobId) (Some name))
        /\ Types.findKnobAction name = JsObject.Own knobAction
        /\ 1 <= knobId /\ 0 <= knobAction <= 2
        /\ Types.getKeyIdForKnob info knobId knobAction = Some keyId).
Proof.
  split.
  - intros knobId knobAction Hk Ha Hsafe keyId.
    split; [apply getKeyIdForKnob_safe; lia|].
    split; [by apply getKnobByKeyId_getKeyIdForKnob|].
    by apply findKnobActionName_inverse.
  - intros keyId Hlt Hsafe.
    set (knob := keyId - 1 - KeypadInfo.keys info).
    assert (0 <= knob) as Hknob by (unfold knob; lia).
    assert (0 <= Z.rem knob 3 < 3) as Hrem.
    { rewrite Z.rem_mod_nonneg by lia. apply Z.mod_pos_bound. lia. }
    destruct (findKnobActionName_inverse (Z.rem knob 3)) as (name & Hname & Hfind);
      [lia|].
    assert (0 <= Z.quot knob 3) by (apply Z.quot_pos; lia).
    pose proof (Z.quot_rem' knob 3) as Hqr.
    exists (1 + Z.quot knob 3), (Z.rem knob 3), name.
    split; [|split; [done|split; [lia|split; [lia|]]]].
    + rewrite getKnobByKeyId_safe by lia. fold knob. by rewrite Hname.
    + unfold knob in *. rewrite getKeyIdForKnob_safe by lia. f_equal. lia.
Qed.

Lemma knob_key_id_inverse_witness :
  Types.getKeyIdForKnob (KeypadInfo.mk 3 2) 2 1 = Some 8
  /\ Types.getKnobByKeyId (KeypadInfo.mk 3 2) 8
     = Some (KnobIdAndAction.mk (Some 2) (Types.findKnobActionName 1))
  /\ exists name, Types.findKnobActionName 1 = Some name
                  /\ Types.findKnobAction name = JsObject.Own 1.
Proof.
  apply (proj1 (knob_key_id_inverse (KeypadInfo.mk 3 2)) 2 1); [lia|lia|].
  vm_compute. discriminate.
Defined.

(** C2, as stated for every KeypadInfo, fails: the code adds doubles.
    With [keys = 2^53], knob 1 and Left the first sum, [1 + keys], is
    rounded to [2^53], so the key id is [2^53] and not
    [1 + keys + 3*(knobId-1) + knobAction = 2^53 + 1]; and that key id
    is not above [keys], so [getKnobByKeyId] returns [undefined] for it
    and not the knob. *)
Theorem knob_key_id_rounded :
  let info := KeypadInfo.mk (2 ^ 53) 1 in
  1 + KeypadInfo.keys info + 3 * (1 - 1) + 0 = 2 ^ 53 + 1
  /\ Types.getKeyIdForKnob info 1 0 = Some (2 ^ 53)
  /\ Types.getKnobByKeyId info (2 ^ 53) = None.
Proof. repeat split; vm_compute; reflexivity. Qed.

(* ===================================================================== *)
(** ** Key actions on the wire (api.ts) *)
(* ===================================================================== *)

Lemma keyActionBytes_length keys :
  length (keyActionBytes keys) = (2 * length keys)%nat.
Proof. induction keys as [|k keys IH]; simpl; lia. Qed.

Lemma packKeyActrions_fold keys data :
  fold_left (fun data k => (data ++ [KeyAction.modKey k]) ++ [KeyAction.keyCode k])
    keys data
  = data ++ keyActionBytes keys.
Proof.
  revert data. induction keys as [|k keys IH]; intros data; simpl.
  - by rewrite app_nil_r.
  - rewrite IH. by rewrite <- !app_assoc.
Qed.

Lemma packKeyActrions_ok keys :
  (length keys <= 18)%nat ->
  packKeyActrions keys = Ok (Z.of_nat (length keys) :: keyActionBytes keys).
Proof.
  intros Hlen. unfold packKeyActrions.
  rewrite (proj2 (Nat.ltb_ge 18 (length keys))) by lia.
  simpl. by rewrite packKeyActrions_fold.
Qed.

Lemma packKeyActrions_too_long keys :
  (18 < length keys)%nat -> packKeyActrions keys = Err (InvalidSize (length keys)).
Proof.
  intros Hlen. unfold packKeyActrions.
  rewrite (proj2 (Nat.ltb_lt 18 (length keys))) by lia.
  by rewrite orb_true_r.
Qed.

(** C4: for a list of 0 to 18 key actions [packKeyActrions] returns
    the count followed by [modKey, keyCode] of each key action in order;
    for a longer list it throws and returns no bytes. *)
Theorem packKeyActrions_count_range (keys : list KeyAction.t) :
  ((0 <= length keys <= 18)%nat ->
   packKeyActrions keys
   = Ok (Z.of_nat (length keys)
         :: flat_map (fun k => [KeyAction.modKey k; KeyAction.keyCode k]) keys))
  /\ (~ (0 <= length keys <= 18)%nat ->
      packKeyActrions keys = Err (InvalidSize (length keys))).
Proof.
  split; intros Hlen.
  - apply packKeyActrions_ok. lia.
  - apply packKeyActrions_too_long. lia.
Qed.

Lemma packKeyActrions_count_range_witness :
  packKeyActrions [KeyAction.mk 0x01 0x12; KeyAction.mk 0x00 0x13]
  = Ok [2; 0x01; 0x12; 0x00; 0x13]
  /\ packKeyActrions (replicate 19 (KeyAction.mk 0 4)) = Err (InvalidSize 19).
Proof.
  split.
  - apply (packKeyActrions_count_range [KeyAction.mk 0x01 0x12; KeyAction.mk 0x00 0x13]).
    simpl. lia.
  - apply (packKeyActrions_count_range (replicate 19 (KeyAction.mk 0 4))).
    simpl. lia.
Defined.

(** The loop of [unpackKeyActions] reads the pairs in order, and throws
    exactly when one of its reads is past the end of the buffer. *)
Lemma unpackKeyActions_loop_spec buffer todo i keys :
  unpackKeyActions_loop buffer todo i keys
  = if bool_decide (todo = 0 \/ 0x0B + 2 * (i + todo) <= length buffer)%nat
    then Ok (keys ++ keyActionsAt buffer i todo)
    else Err ERR_OUT_OF_RANGE.
Proof.
  revert i keys. induction todo as [|todo IH]; intros i keys.
  - rewrite bool_decide_true by auto.
    unfold keyActionsAt. simpl. by rewrite app_nil_r.
  - cbn [unpackKeyActions_loop]. unfold Buffer.readUInt8.
    destruct (buffer !! (0x0B + 2 * i)%nat) as [modKey|] eqn:Hm; cbn [bind].
    2: { apply lookup_ge_None in Hm. rewrite bool_decide_false; [done|lia]. }
    destruct (buffer !! (0x0B + 2 * i + 1)%nat) as [keyCode|] eqn:Hk; cbn [bind].
    2: { apply lookup_ge_None in Hk. rewrite bool_decide_false; [done|lia]. }
    rewrite IH.
    apply lookup_lt_Some in Hk as Hlt.
    case_bool_decide as H1; case_bool_decide as H2; try lia.
    + f_equal. rewrite <- app_assoc. f_equal.
      unfold keyActionsAt. cbn [seq fmap list_fmap app]. f_equal.
      by rewrite (nth_lookup_Some _ _ 0 _ Hm), (nth_lookup_Some _ _ 0 _ Hk).
    + reflexivity.
Qed.

Lemma keyActionsAt_length buffer i n : length (keyActionsAt buffer i n) = n.
Proof. unfold keyActionsAt. by rewrite length_fmap, length_seq. Qed.

(** Reading back the bytes of key actions that start at pair [i]. *)
Lemma keyActionsAt_bytes keys pre post i :
  length pre = (0x0B + 2 * i)%nat ->
  keyActionsAt (pre ++ keyActionBytes keys ++ post) i (length keys) = keys.
Proof.
  revert pre i. induction keys as [|[modKey keyCode] keys IH]; intros pre i Hpre.
  - reflexivity.
  - unfold keyActionsAt. cbn [length seq fmap list_fmap]. f_equal.
    + rewrite !nth_lookup.
      rewrite !(lookup_app_r pre) by lia.
      replace (0x0B + 2 * i - length pre)%nat with 0%nat by lia.
      replace (0x0B + 2 * i + 1 - length pre)%nat with 1%nat by lia.
      reflexivity.
    + specialize (IH (pre ++ [modKey; keyCode]) (S i)).
      rewrite <- app_assoc in IH. apply IH.
      rewrite length_app. simpl. lia.
Qed.

(** A byte list of even length is the bytes of its key actions. *)
Lemma keyActionBytes_surj (n : nat) (pairs : list Z) :
  length pairs = (2 * n)%nat ->
  exists keys, length keys = n /\ keyActionBytes keys = pairs.
Proof.
  revert pairs. induction n as [|n IH]; intros pairs Hlen.
  - destruct pairs; [|done]. by exists [].
  - destruct pairs as [|modKey [|keyCode pairs]]; simpl in Hlen; try lia.
    destruct (IH pairs) as (keys & Hk & Hb); [lia|].
    exists (KeyAction.mk modKey keyCode :: keys). simpl. by rewrite Hk, Hb.
Qed.

Lemma readInt8_lookup buffer offset v :
  buffer !! offset = Some v ->
  Buffer.readInt8 buffer offset = Ok (if v <? 0x80 then v else v - 0x100).
Proof. intros H. unfold Buffer.readInt8, Buffer.readUInt8. by rewrite H. Qed.

(** C10, as the code has it: the count byte at offset 0x0A is read as a
    signed byte and never checked against 18. A count byte of
    0x80..0xFF gives the empty list. A count byte of 1..127 makes the
    loop read that many pairs from offset 0x0B on: it returns them all
    when the buffer holds them and throws a RangeError when a read is
    past the end. In a 65-byte report 27 pairs still fit (the last byte
    read is at offset 64); a count beyond 27 reads past the end. *)
Theorem unpackKeyActions_signed_count (buffer : Buffer.t) (count : Z) :
  buffer !! 0x0A%nat = Some count ->
  (0x80 <= count <= 0xFF -> unpackKeyActions buffer = Ok [])
  /\ (1 <= count <= 127 ->
      ((0x0B + 2 * Z.to_nat count <= length buffer)%nat ->
       unpackKeyActions buffer = Ok (keyActionsAt buffer 0 (Z.to_nat count))
       /\ length (keyActionsAt buffer 0 (Z.to_nat count)) = Z.to_nat count)
      /\ ((length buffer < 0x0B + 2 * Z.to_nat count)%nat ->
          unpackKeyActions buffer = Err ERR_OUT_OF_RANGE)
      /\ (length buffer = 65%nat ->
          (count <= 27 -> is_Ok (unpackKeyActions buffer) = true)
          /\ (27 < count -> unpackKeyActions buffer = Err ERR_OUT_OF_RANGE))).
Proof.
  intros Hcount.
  assert (forall n : nat, (0 < n)%nat -> (if count <? 0x80 then count else count - 0x100) = Z.of_nat n ->
          unpackKeyActions buffer
          = if bool_decide (0x0B + 2 * n <= length buffer)%nat
            then Ok (keyActionsAt buffer 0 n) else Err ERR_OUT_OF_RANGE) as Hloop.
  { intros n Hn Hlen. unfold unpackKeyActions.
    rewrite (readInt8_lookup _ _ _ Hcount). cbn [bind].
    rewrite Hlen, Nat2Z.id, unpackKeyActions_loop_spec.
    repeat case_bool_decide; try reflexivity; lia. }
  split.
  - intros Hneg. unfold unpackKeyActions.
    rewrite (readInt8_lookup _ _ _ Hcount). cbn [bind].
    replace (count <? 0x80) with false by lia.
    replace (Z.to_nat (count - 0x100)) with 0%nat by lia. reflexivity.
  - intros Hpos.
    specialize (Hloop (Z.to_nat count)).
    rewrite Z2Nat.id in Hloop by lia.
    replace (count <? 0x80) with true in Hloop by lia.
    specialize (Hloop ltac:(lia) eq_refl).
    split; [|split].
    + intros Hfit. rewrite Hloop, bool_decide_true by done.
      split; [done|apply keyActionsAt_length].
    + intros Hshort. rewrite Hloop, bool_decide_false; [done|lia].
    + intros H65. split; intros Hc; rewrite Hloop.
      * by rewrite bool_decide_true by lia.
      * rewrite bool_decide_false; [done|lia].
Qed.

Lemma unpackKeyActions_signed_count_witness :
  let buffer := replicate 10 0 ++ [2; 0x01; 0x12; 0x00; 0x13] in
  unpackKeyActions buffer = Ok [KeyAction.mk 0x01 0x12; KeyAction.mk 0x00 0x13].
Proof.
  apply (unpackKeyActions_signed_count
           (replicate 10 0 ++ [2; 0x01; 0x12; 0x00; 0x13]) 2 eq_refl).
  - lia.
  - simpl. lia.
Defined.

(** C10, as stated, fails: a count of 27 is beyond 26, and in a 65-byte
    report all of its reads are inside the report. *)
Lemma count_27_fits_report :
  ~ (forall (buffer : Buffer.t) (count : Z),
        length buffer = 65%nat -> buffer !! 0x0A%nat = Some count ->
        26 < count <= 127 ->
        unpackKeyActions buffer = Err ERR_OUT_OF_RANGE).
Proof.
  intros H.
  specialize (H (replicate 10 0 ++ [27] ++ replicate 54 0) 27 eq_refl eq_refl).
  specialize (H ltac:(lia)). vm_compute in H. discriminate H.
Qed.

(* ===================================================================== *)
(** ** KeyMaps on the wire (api.ts) *)
(* ===================================================================== *)

(** C7, as the code has it: the wheel-up action is
    [{modKey: 0, button: 0, x: 0, y: 0, wheel: 1}], and as a mouse KeyMap
    it packs to the six payload bytes [0x04, modKey, button, x, y, wheel]
    = [0x04, 0, 0, 0, 0, 0x01] after the prefix [0x03, 0, 0, 0, 0, 0]. *)
Theorem packKeyMap_WheelUp :
  Types.mouse_WheelUp = MouseAction.mk 0 0 0 0 1
  /\ packKeyMap (createKeyMapMouse Types.mouse_WheelUp)
     = Ok ([0x03; 0; 0; 0; 0; 0] ++ [0x04; 0x00; 0x00; 0x00; 0x00; 0x01]).
Proof. split; reflexivity. Qed.

(** C7, as stated, fails: the payload is not the four bytes
    [0x04, 0x00, 0x00, 0x01]. *)
Lemma packKeyMap_WheelUp_not_four_bytes :
  packKeyMap (createKeyMapMouse Types.mouse_WheelUp)
  <> Ok ([0x03; 0; 0; 0; 0; 0] ++ [0x04; 0x00; 0x00; 0x01]).
Proof. vm_compute. discriminate. Qed.

Lemma packKeyMap_raw_rejected (ty : Z) (raw : Buffer.t) :
  is_Ok (packKeyMap (KeyMapUnknown ty raw)) = false.
Proof.
  unfold packKeyMap, isKeyMapKeys, isKeyMapConsumer, isKeyMapMouse.
  cbn [type field_keys field_consumer field_mouse].
  repeat (case_match; [reflexivity|]). reflexivity.
Qed.

(** C5: a buffer whose type byte (offset 4) is none of 0x01, 0x02, 0x03
    unpacks, without an error, to the raw variant that carries the type,
    the whole buffer, the keyId of offset 2 and the layerId of offset 3;
    [packKeyMap] throws for every KeyMap whose type is none of the
    three, and it accepts no raw variant at all, so none that
    [unpackKeyMapWithId] produced. *)
Theorem unknown_type_unpacks_never_packs :
  (forall (buffer : Buffer.t) (ty : Z),
      buffer !! 4%nat = Some ty -> ty <> 0x01 -> ty <> 0x02 -> ty <> 0x03 ->
      exists keyId layerId,
        buffer !! 2%nat = Some keyId /\ buffer !! 3%nat = Some layerId
        /\ unpackKeyMapWithId buffer
           = Ok (KeyMapWithId.mk layerId keyId (KeyMapUnknown ty buffer)))
  /\ (forall keyMap : KeyMap,
      type keyMap <> 0x01 -> type keyMap <> 0x02 -> type keyMap <> 0x03 ->
      packKeyMap keyMap = Err (UnsupportedKeyMapType (type keyMap)))
  /\ (forall (ty : Z) (raw : Buffer.t),
      is_Ok (packKeyMap (KeyMapUnknown ty raw)) = false)
  /\ (forall (buffer : Buffer.t) (k : KeyMapWithId.t) (ty : Z) (raw : Buffer.t),
      unpackKeyMapWithId buffer = Ok k ->
      KeyMapWithId.keyMap k = KeyMapUnknown ty raw ->
      raw = buffer /\ buffer !! 4%nat = Some ty
      /\ packKeyMap (KeyMapWithId.keyMap k) = Err (UnsupportedKeyMapType ty)).
Proof.
  assert (forall keyMap : KeyMap,
      type keyMap <> 0x01 -> type keyMap <> 0x02 -> type keyMap <> 0x03 ->
      packKeyMap keyMap = Err (UnsupportedKeyMapType (type keyMap))) as Hpack.
  { intros keyMap H1 H2 H3.
    unfold packKeyMap, isKeyMapKeys, isKeyMapConsumer, isKeyMapMouse,
      KeyMapTypes_keys, KeyMapTypes_consumer, KeyMapTypes_mouse.
    replace (type keyMap =? 0x01) with false by lia.
    replace (type keyMap =? 0x02) with false by lia.
    replace (type keyMap =? 0x03) with false by lia.
    reflexivity. }
  split; [|split; [done|split]].
  - intros buffer ty Hty H1 H2 H3.
    destruct (buffer !! 2%nat) as [keyId|] eqn:Hk.
    2: { apply lookup_ge_None in Hk. apply lookup_lt_Some in Hty. lia. }
    destruct (buffer !! 3%nat) as [layerId|] eqn:Hl.
    2: { apply lookup_ge_None in Hl. apply lookup_lt_Some in Hty. lia. }
    exists keyId, layerId. split; [done|split; [done|]].
    unfold unpackKeyMapWithId, Buffer.readUInt8. rewrite Hk, Hl, Hty. cbn [bind].
    unfold KeyMapTypes_keys, KeyMapTypes_consumer, KeyMapTypes_mouse.
    replace (ty =? 0x01) with false by lia.
    replace (ty =? 0x02) with false by lia.
    replace (ty =? 0x03) with false by lia.
    reflexivity.
  - apply packKeyMap_raw_rejected.
  - intros buffer k ty raw Hunpack Hraw.
    unfold unpackKeyMapWithId, Buffer.readUInt8 in Hunpack.
    destruct (buffer !! 2%nat) as [keyId|]; [|done].
    destruct (buffer !! 3%nat) as [layerId|]; [|done].
    destruct (buffer !! 4%nat) as [ty'|] eqn:Hty; [|done].
    cbn [bind] in Hunpack.
    unfold KeyMapTypes_keys, KeyMapTypes_consumer, KeyMapTypes_mouse in Hunpack.
    destruct (ty' =? 0x01) eqn:E1.
    { destruct (unpackKeyActions buffer); cbn [bind] in Hunpack; [|done].
      injection Hunpack as <-. done. }
    destruct (ty' =? 0x02) eqn:E2.
    { destruct (unpackConsumerAction buffer); cbn [bind] in Hunpack; [|done].
      injection Hunpack as <-. done. }
    destruct (ty' =? 0x03) eqn:E3.
    { destruct (unpackMouseAction buffer); cbn [bind] in Hunpack; [|done].
      injection Hunpack as <-. done. }
    injection Hunpack as <-. cbn in Hraw. injection Hraw as -> ->.
    split; [done|split; [done|]].
    cbn [KeyMapWithId.keyMap]. rewrite Hpack; cbn [type]; [done|lia..].
Qed.

Lemma unknown_type_unpacks_never_packs_witness :
  let buffer := [0x03; 0xfa; 0x07; 0x02; 0x09; 0; 0; 0; 0; 0; 0xAA] in
  (exists keyId layerId,
      buffer !! 2%nat = Some keyId /\ buffer !! 3%nat = Some layerId
      /\ unpackKeyMapWithId buffer
         = Ok (KeyMapWithId.mk layerId keyId (KeyMapUnknown 0x09 buffer)))
  /\ packKeyMap (KeyMapUnknown 0x09 buffer) = Err (UnsupportedKeyMapType 0x09).
Proof.
  split.
  - apply (proj1 unknown_type_unpacks_never_packs
             [0x03; 0xfa; 0x07; 0x02; 0x09; 0; 0; 0; 0; 0; 0xAA] 0x09 eq_refl);
      lia.
  - apply (proj1 (proj2 unknown_type_unpacks_never_packs)
             (KeyMapUnknown 0x09 [0x03; 0xfa; 0x07; 0x02; 0x09; 0; 0; 0; 0; 0; 0xAA]));
      simpl; lia.
Defined.

(** *** The round trip *)

Lemma splitUInt16LE_bytes (v : Z) :
  Utils.splitUInt16LE v = [v mod 0x100; (v / 0x100) mod 0x100].
Proof.
  unfold Utils.splitUInt16LE. change 0xFF with (Z.ones 8).
  rewrite !Z.land_ones, Z.shiftr_div_pow2 by lia. reflexivity.
Qed.

Lemma splitUInt16LE_join (lo hi : Z) :
  0 <= lo <= 0xFF -> 0 <= hi <= 0xFF ->
  Utils.splitUInt16LE (lo + hi * 2 ^ 8) = [lo; hi].
Proof.
  intros Hlo Hhi. rewrite splitUInt16LE_bytes.
  change (2 ^ 8) with 0x100.
  rewrite Z.mod_add, Z.div_add by lia.
  rewrite (Z.mod_small lo), (Z.div_small lo) by lia.
  rewrite Z.add_0_l, Z.mod_small by lia. reflexivity.
Qed.

Lemma splitUInt16LE_split (id : Z) :
  0 <= id <= 0xFFFF ->
  id mod 0x100 + (id / 0x100) mod 0x100 * 2 ^ 8 = id.
Proof.
  intros Hid. change (2 ^ 8) with 0x100.
  rewrite (Z.mod_small (id / 0x100)).
  - pose proof (Z.div_mod id 0x100). lia.
  - split; [apply Z.div_pos; lia|apply Z.div_lt_upper_bound; lia].
Qed.

(** A keys report unpacks to its key actions, whatever follows them. *)
Lemma unpackKeyMapWithId_keys (h0 h1 keyId layerId : Z) keys post :
  (length keys <= 127)%nat ->
  unpackKeyMapWithId
    ([h0; h1; keyId; layerId; 0x01; 0; 0; 0; 0; 0; Z.of_nat (length keys)]
     ++ keyActionBytes keys ++ post)
  = Ok (KeyMapWithId.mk layerId keyId (KeyMapKeys keys)).
Proof.
  intros Hlen.
  set (pre := [h0; h1; keyId; layerId; 0x01; 0; 0; 0; 0; 0; Z.of_nat (length keys)]).
  unfold unpackKeyMapWithId.
  change (Buffer.readUInt8 (pre ++ keyActionBytes keys ++ post) 2) with (@Ok Z keyId).
  change (Buffer.readUInt8 (pre ++ keyActionBytes keys ++ post) 3) with (@Ok Z layerId).
  change (Buffer.readUInt8 (pre ++ keyActionBytes keys ++ post) 4) with (@Ok Z 0x01).
  cbn [bind]. change (0x01 =? KeyMapTypes_keys) with true. cbv iota.
  unfold unpackKeyActions.
  rewrite (readInt8_lookup _ _ (Z.of_nat (length keys))) by reflexivity.
  replace (Z.of_nat (length keys) <? 0x80) with true by lia.
  cbn [bind]. rewrite Nat2Z.id, unpackKeyActions_loop_spec.
  rewrite bool_decide_true.
  - rewrite keyActionsAt_bytes by reflexivity. reflexivity.
  - right. rewrite !length_app, keyActionBytes_length. simpl. lia.
Qed.

Lemma forallb_is_byte_cons v l :
  forallb Buffer.is_byte (v :: l) = true ->
  0 <= v <= 0xFF /\ forallb Buffer.is_byte l = true.
Proof.
  cbn [forallb]. unfold Buffer.is_byte at 1.
  intros H. apply andb_prop in H as [H1 H2]. split; [lia|done].
Qed.

(** A well-formed report unpacks to a KeyMap that packs to the report
    from offset 4 on, also when padding follows the report. *)
Lemma well_formed_report_round_trip (buffer padding : Buffer.t) :
  well_formed_report buffer = true ->
  exists k, unpackKeyMapWithId (buffer ++ padding) = Ok k
            /\ buffer !! 2%nat = Some (KeyMapWithId.keyId k)
            /\ buffer !! 3%nat = Some (KeyMapWithId.layerId k)
            /\ buffer !! 4%nat = Some (type (KeyMapWithId.keyMap k))
            /\ packKeyMap (KeyMapWithId.keyMap k) = Ok (drop 4 buffer).
Proof.
  unfold well_formed_report. intros Hwf.
  apply andb_prop in Hwf as [Hbytes Hshape].
  destruct buffer as [|h0 [|h1 [|keyId [|layerId [|ty [|z5 [|z6 [|z7 [|z8 [|z9 payload]]]]]]]]]];
    destruct_matches Hshape.
  do 10 (apply forallb_is_byte_cons in Hbytes as [_ Hbytes]).
  unfold well_formed_payload in Hshape.
  destruct (ty =? KeyMapTypes_keys) eqn:Ekeys.
  { (* keys *)
    apply Z.eqb_eq in Ekeys as ->.
    destruct payload as [|count pairs]; [discriminate Hshape|].
    destruct (keyActionBytes_surj (Z.to_nat count) pairs) as (keys & Hlen & <-); [lia|].
    assert (count = Z.of_nat (length keys)) as -> by lia.
    exists (KeyMapWithId.mk layerId keyId (KeyMapKeys keys)).
    split.
    { apply (unpackKeyMapWithId_keys h0 h1 keyId layerId keys padding). lia. }
    do 3 (split; [reflexivity|]).
    unfold packKeyMap. change (isKeyMapKeys (KeyMapKeys keys)) with true.
    cbn [KeyMapWithId.keyMap field_keys bind].
    rewrite packKeyActrions_ok by lia. reflexivity. }
  destruct (ty =? KeyMapTypes_consumer) eqn:Econsumer.
  { (* consumer *)
    apply Z.eqb_eq in Econsumer as ->.
    destruct payload as [|marker [|lo [|hi [|]]]]; destruct_matches Hshape.
    apply forallb_is_byte_cons in Hbytes as [_ Hbytes].
    apply forallb_is_byte_cons in Hbytes as [Hlo Hbytes].
    apply forallb_is_byte_cons in Hbytes as [Hhi _].
    exists (KeyMapWithId.mk layerId keyId (KeyMapConsumer (ConsumerAction.mk (lo + hi * 2 ^ 8)))).
    split; [reflexivity|]. do 3 (split; [reflexivity|]).
    unfold packKeyMap.
    change (isKeyMapKeys (KeyMapConsumer _)) with false.
    change (isKeyMapConsumer (KeyMapConsumer _)) with true.
    cbn [KeyMapWithId.keyMap field_consumer bind].
    unfold packConsumerAction. cbn [ConsumerAction.id].
    rewrite splitUInt16LE_join by done. reflexivity. }
  destruct (ty =? KeyMapTypes_mouse) eqn:Emouse; [|discriminate Hshape].
  (* mouse *)
  apply Z.eqb_eq in Emouse as ->.
  destruct payload as [|marker [|modKey [|button [|x [|y [|wheel [|]]]]]]];
    destruct_matches Hshape.
  exists (KeyMapWithId.mk layerId keyId
            (KeyMapMouse (MouseAction.mk modKey button x y wheel))).
  repeat split.
Qed.

Lemma valid_KeyMap_round_trip (header : list Z) (keyMap : KeyMap) :
  length header = 4%nat -> valid_KeyMap keyMap = true ->
  exists data k,
    packKeyMap keyMap = Ok data
    /\ unpackKeyMapWithId (header ++ data) = Ok k
    /\ KeyMapWithId.keyMap k = keyMap
    /\ header !! 2%nat = Some (KeyMapWithId.keyId k)
    /\ header !! 3%nat = Some (KeyMapWithId.layerId k).
Proof.
  intros Hheader Hvalid.
  destruct header as [|h0 [|h1 [|keyId [|layerId [|]]]]]; try discriminate Hheader.
  destruct keyMap as [keys|[id]|[modKey button x y wheel]|]; [| | |discriminate Hvalid];
    cbn [valid_KeyMap] in Hvalid.
  - apply andb_prop in Hvalid as [Hlen _]. apply Nat.leb_le in Hlen.
    eexists _, (KeyMapWithId.mk layerId keyId (KeyMapKeys keys)).
    split.
    { unfold packKeyMap. change (isKeyMapKeys (KeyMapKeys keys)) with true.
      cbn [field_keys bind]. rewrite packKeyActrions_ok by done. reflexivity. }
    split; [|done].
    rewrite <- (app_nil_r (keyActionBytes keys)).
    apply (unpackKeyMapWithId_keys h0 h1 keyId layerId keys []). lia.
  - cbn [ConsumerAction.id] in Hvalid.
    eexists _, (KeyMapWithId.mk layerId keyId (KeyMapConsumer (ConsumerAction.mk id))).
    split; [reflexivity|]. split; [|done].
    unfold packConsumerAction. cbn [ConsumerAction.id].
    rewrite splitUInt16LE_bytes.
    unfold unpackKeyMapWithId, unpackConsumerAction, Buffer.readUInt16LE.
    cbn. rewrite <- (splitUInt16LE_split id) at 3 by lia. reflexivity.
  - eexists _, (KeyMapWithId.mk layerId keyId
                  (KeyMapMouse (MouseAction.mk modKey button x y wheel))).
    repeat split.
Qed.

(** C1, for the encoding of a KeyMap and what follows it in a report: a
    sequence of bytes [buffer] that encodes a KeyMap of a supported type
    (0x01 keys, 0x02 consumer, 0x03 mouse) with a well-formed payload,
    and zero bytes at offsets 5 to 9, followed by any [padding] (as the
    zero bytes that fill a 65-byte report), unpacks to a KeyMap that
    packs to [buffer] from offset 4 on: to the report from offset 4 on
    without its padding; and a valid KeyMap of a known type comes back
    from unpacking any 4-byte header followed by its packed bytes, with
    the header's keyId and layerId. *)
Theorem pack_unpack_round_trip (buffer padding : Buffer.t) (header : list Z)
    (keyMap : KeyMap) :
  (well_formed_report buffer = true ->
   exists k data,
     unpackKeyMapWithId (buffer ++ padding) = Ok k
     /\ buffer !! 2%nat = Some (KeyMapWithId.keyId k)
     /\ buffer !! 3%nat = Some (KeyMapWithId.layerId k)
     /\ buffer !! 4%nat = Some (type (KeyMapWithId.keyMap k))
     /\ packKeyMap (KeyMapWithId.keyMap k) = Ok data
     /\ data = drop 4 buffer
     /\ data ++ padding = drop 4 (buffer ++ padding))
  /\ (length header = 4%nat -> valid_KeyMap keyMap = true ->
      exists data k,
        packKeyMap keyMap = Ok data
        /\ unpackKeyMapWithId (header ++ data) = Ok k
        /\ KeyMapWithId.keyMap k = keyMap
        /\ header !! 2%nat = Some (KeyMapWithId.keyId k)
        /\ header !! 3%nat = Some (KeyMapWithId.layerId k)).
Proof.
  split.
  - intros Hwf.
    destruct (well_formed_report_round_trip buffer padding Hwf)
      as (k & Hunpack & Hk & Hl & Hty & Hpack).
    exists k, (drop 4 buffer). repeat split; try done.
    rewrite drop_app_le; [done|].
    apply lookup_lt_Some in Hl. lia.
  - apply valid_KeyMap_round_trip.
Qed.

Lemma pack_unpack_round_trip_witness :
  let buffer := [0x03; 0xfa; 0x0f; 0x01; 0x01; 0; 0; 0; 0; 0; 0x02; 0x00; 0x12; 0x01; 0x23] in
  let padding := replicate 50 0 in
  let keyMap := KeyMapConsumer (Types.Consumer 0x0192) in
  (exists k data,
      unpackKeyMapWithId (buffer ++ padding) = Ok k
      /\ buffer !! 2%nat = Some (KeyMapWithId.keyId k)
      /\ buffer !! 3%nat = Some (KeyMapWithId.layerId k)
      /\ buffer !! 4%nat = Some (type (KeyMapWithId.keyMap k))
      /\ packKeyMap (KeyMapWithId.keyMap k) = Ok data
      /\ data = drop 4 buffer
      /\ data ++ padding = drop 4 (buffer ++ padding))
  /\ (exists data k,
        packKeyMap keyMap = Ok data
        /\ unpackKeyMapWithId ([0x03; 0xfa; 0x02; 0x02] ++ data) = Ok k
        /\ KeyMapWithId.keyMap k = keyMap
        /\ [0x03; 0xfa; 0x02; 0x02] !! 2%nat = Some (KeyMapWithId.keyId k)
        /\ [0x03; 0xfa; 0x02; 0x02] !! 3%nat = Some (KeyMapWithId.layerId k)).
Proof.
  pose proof (pack_unpack_round_trip
    [0x03; 0xfa; 0x0f; 0x01; 0x01; 0; 0; 0; 0; 0; 0x02; 0x00; 0x12; 0x01; 0x23]
    (replicate 50 0)
    [0x03; 0xfa; 0x02; 0x02]
    (KeyMapConsumer (Types.Consumer 0x0192))) as [Hunpack Hpack].
  split.
  - apply Hunpack. reflexivity.
  - apply Hpack; reflexivity.
Defined.

(** C1, as stated for a device report, fails: a report is 65 bytes, the
    encoding followed by zero bytes, and the packed bytes of its KeyMap
    end where the encoding ends. The report of the consumer action
    0x0192 unpacks to that action, which packs to 9 bytes, not to the 61
    bytes of the report from offset 4 on. *)
Theorem packed_report_is_not_stripped_report :
  let report :=
    [0x03; 0xfa; 0x02; 0x02; 0x02; 0; 0; 0; 0; 0; 0x01; 0x92; 0x01] ++ replicate 52 0 in
  let keyMap := KeyMapConsumer (Types.Consumer 0x0192) in
  length report = 65%nat
  /\ unpackKeyMapWithId report = Ok (KeyMapWithId.mk 0x02 0x02 keyMap)
  /\ packKeyMap keyMap = Ok [0x02; 0; 0; 0; 0; 0; 0x01; 0x92; 0x01]
  /\ length (drop 4 report) = 61%nat
  /\ packKeyMap keyMap <> Ok (drop 4 report).
Proof. repeat split; try reflexivity. intros H. discriminate H. Qed.

(* ===================================================================== *)
(** ** Requests (api.ts) *)
(* ===================================================================== *)

Lemma sendRequest_pad_replicate todo req :
  sendRequest_pad todo req = req ++ replicate todo 0.
Proof.
  revert req. induction todo as [|todo IH]; intros req; simpl.
  - by rewrite app_nil_r.
  - rewrite IH. by rewrite <- app_assoc.
Qed.

Lemma sendRequest_written request hid :
  sendRequest request hid
  = (Ok (Z.of_nat (length (request ++ replicate (REQUEST_SIZE - length request) 0))),
     HidIO.mk
       (HidIO.written hid ++ [request ++ replicate (REQUEST_SIZE - length request) 0])
       (HidIO.reads hid) (HidIO.incoming hid)).
Proof.
  unfold sendRequest, HidIO.write. by rewrite sendRequest_pad_replicate.
Qed.

(** C8, as the code has it: [sendRequest] writes one request, the
    payload followed by [65 - length] zero bytes, and reads nothing. For
    a payload of at most 65 bytes that request is exactly
    [REQUEST_SIZE = 65] bytes; a longer payload is written as it is,
    neither padded nor cut. *)
Theorem sendRequest_zero_pads (request : list Z) (hid : HidIO.t) :
  REQUEST_SIZE = 65%nat
  /\ exists req,
      snd (sendRequest request hid)
      = HidIO.mk (HidIO.written hid ++ [req]) (HidIO.reads hid) (HidIO.incoming hid)
      /\ fst (sendRequest request hid) = Ok (Z.of_nat (length req))
      /\ req = request ++ replicate (REQUEST_SIZE - length request) 0
      /\ ((length request <= REQUEST_SIZE)%nat -> length req = REQUEST_SIZE)
      /\ ((REQUEST_SIZE < length request)%nat -> req = request).
Proof.
  split; [reflexivity|].
  exists (request ++ replicate (REQUEST_SIZE - length request) 0).
  rewrite sendRequest_written. cbn [fst snd].
  split; [done|split; [done|split; [done|split]]].
  - intros Hle. rewrite length_app, length_replicate. lia.
  - intros Hlt. replace (REQUEST_SIZE - length request)%nat with 0%nat by lia.
    apply app_nil_r.
Qed.

Lemma sendRequest_zero_pads_witness :
  HidIO.written (snd (sendRequest [0x01; 0x02; 0x03] (HidIO.mk [] 0 [])))
  = [[0x01; 0x02; 0x03] ++ replicate 62 0].
Proof.
  destruct (sendRequest_zero_pads [0x01; 0x02; 0x03] (HidIO.mk [] 0 []))
    as [_ (req & -> & _ & -> & _)].
  reflexivity.
Defined.

(** C8, as stated, fails: a 66-byte payload is written as 66 bytes. *)
Lemma sendRequest_writes_66_bytes :
  ~ (forall (request : list Z) (hid : HidIO.t) (req : list Z),
        last (HidIO.written (snd (sendRequest request hid))) = Some req ->
        length req = REQUEST_SIZE).
Proof.
  intros H.
  specialize (H (replicate 66 1) (HidIO.mk [] 0 []) (replicate 66 1) eq_refl).
  vm_compute in H. discriminate H.
Qed.

(* ===================================================================== *)
(** ** Reading the key maps of a layer (api.ts) *)
(* ===================================================================== *)

(** One turn of the loop of [readKeypadKeyMaps]. *)
Lemma readKeypadKeyMaps_loop_step layerId todo result hid :
  readKeypadKeyMaps_loop layerId (S todo) result hid
  = match HidIO.incoming hid with
    | [] => (Err NoResponse, HidIO.mk (HidIO.written hid) (S (HidIO.reads hid)) [])
    | buffer :: rest =>
        let hid' := HidIO.mk (HidIO.written hid) (S (HidIO.reads hid)) rest in
        if accepted_response layerId buffer
        then readKeypadKeyMaps_loop layerId todo (store_response result buffer) hid'
        else (Err (response_error buffer), hid')
    end.
Proof.
  cbn [readKeypadKeyMaps_loop]. unfold io_bind at 1, recvResponse, io_bind at 1.
  unfold HidIO.read. destruct (HidIO.incoming hid) as [|buffer rest]; [reflexivity|].
  unfold accepted_response, response_error, store_response, io_lift, io_bind.
  destruct (length buffer =? 0)%nat; [reflexivity|]. cbn [io_ret negb andb].
  destruct (unpackKeyMapWithId buffer) as [k|e]; [|reflexivity].
  destruct (KeyMapWithId.layerId k =? layerId); reflexivity.
Qed.

(** Accepted responses are all consumed and stored. *)
Lemma readKeypadKeyMaps_loop_accepted layerId responses rest result written reads :
  forallb (accepted_response layerId) responses = true ->
  readKeypadKeyMaps_loop layerId (length responses) result
    (HidIO.mk written reads (responses ++ rest))
  = (Ok (fold_left store_response responses result),
     HidIO.mk written (reads + length responses) rest).
Proof.
  revert result reads.
  induction responses as [|buffer responses IH]; intros result reads Hok.
  - cbn. by rewrite Nat.add_0_r.
  - cbn [forallb] in Hok. apply andb_prop in Hok as [Hbuffer Hok].
    cbn [length]. rewrite readKeypadKeyMaps_loop_step.
    cbn [HidIO.incoming HidIO.written HidIO.reads app]. cbv zeta. rewrite Hbuffer.
    rewrite IH by done. cbn [fold_left]. f_equal. f_equal. lia.
Qed.

(** The first response that is not accepted ends the loop at once. *)
Lemma readKeypadKeyMaps_loop_rejected layerId responses bad rest todo result written reads :
  forallb (accepted_response layerId) responses = true ->
  accepted_response layerId bad = false ->
  (length responses < todo)%nat ->
  readKeypadKeyMaps_loop layerId todo result
    (HidIO.mk written reads (responses ++ bad :: rest))
  = (Err (response_error bad),
     HidIO.mk written (reads + length responses + 1) rest).
Proof.
  revert todo result reads.
  induction responses as [|buffer responses IH]; intros todo result reads Hok Hbad Hlt;
    (destruct todo as [|todo]; [cbn in Hlt; lia|]);
    rewrite readKeypadKeyMaps_loop_step;
    cbn [HidIO.incoming HidIO.written HidIO.reads app]; cbv zeta.
  - rewrite Hbad. f_equal. f_equal. cbn. lia.
  - cbn [forallb] in Hok. apply andb_prop in Hok as [Hbuffer Hok].
    rewrite Hbuffer, IH; [|done|done|cbn in Hlt; lia].
    f_equal. f_equal. cbn. lia.
Qed.

(** A loop that returns has consumed [todo] accepted responses. *)
Lemma readKeypadKeyMaps_loop_inv layerId todo result hid result' hid' :
  readKeypadKeyMaps_loop layerId todo result hid = (Ok result', hid') ->
  exists responses,
    HidIO.incoming hid = responses ++ HidIO.incoming hid'
    /\ length responses = todo
    /\ forallb (accepted_response layerId) responses = true
    /\ HidIO.reads hid' = (HidIO.reads hid + todo)%nat
    /\ HidIO.written hid' = HidIO.written hid
    /\ result' = fold_left store_response responses result.
Proof.
  revert result hid. induction todo as [|todo IH]; intros result hid Hrun.
  - cbn in Hrun. injection Hrun as <- <-. exists []. by rewrite Nat.add_0_r.
  - rewrite readKeypadKeyMaps_loop_step in Hrun.
    destruct (HidIO.incoming hid) as [|buffer rest] eqn:Hin; [discriminate Hrun|].
    cbv zeta in Hrun.
    destruct (accepted_response layerId buffer) eqn:Hbuffer; [|discriminate Hrun].
    apply IH in Hrun as (responses & Hrest & Hlen & Hok & Hreads & Hwritten & ->).
    cbn [HidIO.incoming HidIO.reads HidIO.written] in *.
    exists (buffer :: responses). cbn [forallb length fold_left app].
    rewrite Hbuffer, Hok, Hrest, Hlen, Hreads, Hwritten.
    repeat split; try done. lia.
Qed.

(** [readKeypadKeyMaps] is one request and then the loop. *)
Lemma readKeypadKeyMaps_unfold param hid :
  readKeypadKeyMaps param hid
  = readKeypadKeyMaps_loop (ReadKeypadKeyMapsRequest.layerId param)
      (Z.to_nat (Types.getKeyCount
                   (KeypadInfo.mk (ReadKeypadKeyMapsRequest.keys param)
                      (ReadKeypadKeyMapsRequest.knobs param))))
      JsArray.empty
      (HidIO.mk
         (HidIO.written hid
          ++ [packReadKeypadKeyMaps param ++ replicate 60 0])
         (HidIO.reads hid) (HidIO.incoming hid)).
Proof.
  unfold readKeypadKeyMaps, io_bind. rewrite sendRequest_written. reflexivity.
Qed.

Section KeyMapTable.

Variable info : KeypadInfo.t.

(** The number of responses per layer, and the request of a layer. *)
Local Abbreviation count := (Z.to_nat (Types.getKeyCount info)).
Local Abbreviation request layerId :=
  (ReadKeypadKeyMapsRequest.mk (KeypadInfo.keys info) (KeypadInfo.knobs info) layerId).

Lemma readKeypadKeyMaps_layer layerId hid :
  readKeypadKeyMaps (request layerId) hid
  = readKeypadKeyMaps_loop layerId count JsArray.empty
      (HidIO.mk (HidIO.written hid ++ [layer_request info layerId])
         (HidIO.reads hid) (HidIO.incoming hid)).
Proof. apply readKeypadKeyMaps_unfold. Qed.

Lemma readKeypadKeyMapTable_loop_step todo i result hid :
  readKeypadKeyMapTable_loop info (S todo) i result hid
  = match readKeypadKeyMaps (request (i + 1)) hid with
    | (Ok list, hid') =>
        readKeypadKeyMapTable_loop info todo (i + 1) (result ++ [list]) hid'
    | (Err e, hid') => (Err e, hid')
    end.
Proof. reflexivity. Qed.

Lemma accepted_layers_cons layerId responses layers :
  accepted_layers count layerId (responses :: layers) = true ->
  length responses = count
  /\ forallb (accepted_response layerId) responses = true
  /\ accepted_layers count (layerId + 1) layers = true.
Proof.
  cbn [accepted_layers]. intros H.
  apply andb_prop in H as [H H3]. apply andb_prop in H as [H1 H2].
  apply Nat.eqb_eq in H1. done.
Qed.

(** Accepted responses for every layer: the table is read. *)
Lemma readKeypadKeyMapTable_loop_accepted layers rest i result written reads :
  accepted_layers count (i + 1) layers = true ->
  readKeypadKeyMapTable_loop info (length layers) i result
    (HidIO.mk written reads (concat layers ++ rest))
  = (Ok (result ++ (stored_responses <$> layers)),
     HidIO.mk (written ++ layer_requests info (i + 1) (length layers))
       (reads + length layers * count) rest).
Proof.
  revert i result written reads.
  induction layers as [|responses layers IH]; intros i result written reads Hok.
  - cbn. by rewrite !app_nil_r, Nat.add_0_r.
  - apply accepted_layers_cons in Hok as (Hlen & Hresponses & Hok).
    cbn [length concat]. rewrite readKeypadKeyMapTable_loop_step.
    rewrite readKeypadKeyMaps_layer.
    cbn [HidIO.written HidIO.reads HidIO.incoming].
    rewrite <- Hlen at 1. rewrite <- app_assoc.
    rewrite readKeypadKeyMaps_loop_accepted by done.
    rewrite IH by done.
    cbn [layer_requests fmap list_fmap]. rewrite <- !app_assoc. cbn [app].
    f_equal. f_equal. lia.
Qed.

(** A table that is read has consumed accepted responses for every
    layer, and written one request per layer. *)
Lemma readKeypadKeyMapTable_loop_inv todo i result hid table hid' :
  readKeypadKeyMapTable_loop info todo i result hid = (Ok table, hid') ->
  exists layers,
    length layers = todo
    /\ accepted_layers count (i + 1) layers = true
    /\ HidIO.incoming hid = concat layers ++ HidIO.incoming hid'
    /\ HidIO.reads hid' = (HidIO.reads hid + todo * count)%nat
    /\ HidIO.written hid' = HidIO.written hid ++ layer_requests info (i + 1) todo
    /\ table = result ++ (stored_responses <$> layers).
Proof.
  revert i result hid. induction todo as [|todo IH]; intros i result hid Hrun.
  - cbn in Hrun. injection Hrun as <- <-. exists [].
    cbn. by rewrite !app_nil_r, Nat.add_0_r.
  - rewrite readKeypadKeyMapTable_loop_step in Hrun.
    destruct (readKeypadKeyMaps (request (i + 1)) hid) as [[list|e] hid1] eqn:Hlayer;
      [|discriminate Hrun].
    rewrite readKeypadKeyMaps_layer in Hlayer.
    apply readKeypadKeyMaps_loop_inv in Hlayer
      as (responses & Hin & Hlen & Hok & Hreads & Hwritten & ->).
    cbn [HidIO.written HidIO.reads HidIO.incoming] in *.
    apply IH in Hrun as (layers & Hlen' & Hok' & Hin' & Hreads' & Hwritten' & ->).
    exists (responses :: layers).
    cbn [length concat accepted_layers layer_requests fmap list_fmap].
    rewrite Hlen, Nat.eqb_refl, Hok, Hok', Hlen', Hin, Hin', Hreads', Hreads,
      Hwritten', Hwritten.
    rewrite <- !app_assoc. repeat split; try done. lia.
Qed.

(** The first response that is not accepted ends the table read at
    once, in the layer it arrives in. *)
Lemma readKeypadKeyMapTable_loop_rejected
    layers responses bad rest todo i result written reads :
  accepted_layers count (i + 1) layers = true ->
  (length layers < todo)%nat ->
  forallb (accepted_response (i + 1 + Z.of_nat (length layers))) responses = true ->
  (length responses < count)%nat ->
  accepted_response (i + 1 + Z.of_nat (length layers)) bad = false ->
  readKeypadKeyMapTable_loop info todo i result
    (HidIO.mk written reads (concat layers ++ responses ++ bad :: rest))
  = (Err (response_error bad),
     HidIO.mk (written ++ layer_requests info (i + 1) (S (length layers)))
       (reads + length layers * count + length responses + 1) rest).
Proof.
  revert todo i result written reads.
  induction layers as [|layer layers IH];
    intros todo i result written reads Hok Htodo Hresponses Hshort Hbad;
    (destruct todo as [|todo]; [cbn in Htodo; lia|]);
    rewrite readKeypadKeyMapTable_loop_step, readKeypadKeyMaps_layer;
    cbn [HidIO.written HidIO.reads HidIO.incoming length concat].
  - cbn [length] in Hresponses, Hbad. rewrite Z.add_0_r in Hresponses, Hbad.
    cbn [app]. rewrite readKeypadKeyMaps_loop_rejected by done.
    cbn. f_equal. f_equal. lia.
  - apply accepted_layers_cons in Hok as (Hlen & Hlayer & Hok).
    rewrite <- Hlen at 1. rewrite <- app_assoc.
    rewrite readKeypadKeyMaps_loop_accepted by done.
    cbn [length] in Hresponses, Hbad, Htodo.
    rewrite IH; [|done|lia| | |].
    + cbn [layer_requests]. rewrite <- !app_assoc. cbn [app].
      f_equal. f_equal. lia.
    + replace (i + 1 + 1 + Z.of_nat (length layers))
        with (i + 1 + Z.of_nat (S (length layers))) by lia. done.
    + done.
    + replace (i + 1 + 1 + Z.of_nat (length layers))
        with (i + 1 + Z.of_nat (S (length layers))) by lia. done.
Qed.

Lemma layer_requests_length layerId n :
  length (layer_requests info layerId n) = n.
Proof. revert layerId. induction n as [|n IH]; intros; cbn; [done|by rewrite IH]. Qed.

End KeyMapTable.

Lemma unpackKeyMapWithId_header buffer k :
  unpackKeyMapWithId buffer = Ok k ->
  buffer !! 2%nat = Some (KeyMapWithId.keyId k)
  /\ buffer !! 3%nat = Some (KeyMapWithId.layerId k).
Proof.
  unfold unpackKeyMapWithId, Buffer.readUInt8. intros Hunpack.
  destruct (buffer !! 2%nat) as [keyId|]; [|done].
  destruct (buffer !! 3%nat) as [layerId|]; [|done].
  destruct (buffer !! 4%nat) as [ty|]; [|done].
  cbn [bind] in Hunpack.
  repeat (match type of Hunpack with
          | context [if ?b then _ else _] => destruct b
          | context [bind ?r _] => destruct r; cbn [bind] in Hunpack
          end); try discriminate Hunpack; by injection Hunpack as <-.
Qed.

Lemma response_error_layer buffer k layerId :
  unpackKeyMapWithId buffer = Ok k -> KeyMapWithId.layerId k <> layerId ->
  accepted_response layerId buffer = false
  /\ response_error buffer = InvalidLayerResponse buffer.
Proof.
  intros Hunpack Hlayer. unfold accepted_response, response_error.
  destruct buffer as [|b buffer]; [discriminate Hunpack|].
  rewrite Hunpack. cbn [length Nat.eqb negb andb].
  split; [lia|done].
Qed.

(** C3: [readKeypadKeyMapTable] over [L] layers of [getKeyCount info]
    slots. When it returns a table it has written exactly [L] requests,
    the padded request of each layer 1..L in order, and read exactly
    [getKeyCount info] responses per layer, each one carrying the layer
    that was requested; it does return when the device delivers such
    responses. When the responses of some layers were accepted and then
    a response carries another layerId than the layer being read, the
    call throws at that response: no table is returned, nothing more is
    read and no further request is written. *)
Theorem readKeypadKeyMapTable_exchanges (info : KeypadInfo.t) (layers : Z) (hid : HidIO.t) :
  let count := Z.to_nat (Types.getKeyCount info) in
  let L := Z.to_nat layers in
  (forall table hid',
      readKeypadKeyMapTable info layers hid = (Ok table, hid') ->
      HidIO.written hid' = HidIO.written hid ++ layer_requests info 1 L
      /\ length (HidIO.written hid') = (length (HidIO.written hid) + L)%nat
      /\ HidIO.reads hid' = (HidIO.reads hid + L * count)%nat
      /\ length table = L
      /\ exists responses,
          length responses = L
          /\ accepted_layers count 1 responses = true
          /\ HidIO.incoming hid = concat responses ++ HidIO.incoming hid'
          /\ table = stored_responses <$> responses)
  /\ (forall responses rest,
      HidIO.incoming hid = concat responses ++ rest ->
      length responses = L ->
      accepted_layers count 1 responses = true ->
      readKeypadKeyMapTable info layers hid
      = (Ok (stored_responses <$> responses),
         HidIO.mk (HidIO.written hid ++ layer_requests info 1 L)
           (HidIO.reads hid + L * count) rest))
  /\ (forall responses pre bad rest k,
      HidIO.incoming hid = concat responses ++ pre ++ bad :: rest ->
      (length responses < L)%nat ->
      accepted_layers count 1 responses = true ->
      (length pre < count)%nat ->
      forallb (accepted_response (1 + Z.of_nat (length responses))) pre = true ->
      unpackKeyMapWithId bad = Ok k ->
      KeyMapWithId.layerId k <> 1 + Z.of_nat (length responses) ->
      readKeypadKeyMapTable info layers hid
      = (Err (InvalidLayerResponse bad),
         HidIO.mk
           (HidIO.written hid ++ layer_requests info 1 (S (length responses)))
           (HidIO.reads hid + length responses * count + length pre + 1) rest)).
Proof.
  intros count L. unfold readKeypadKeyMapTable. fold L.
  split; [|split].
  - intros table hid' Hrun.
    apply readKeypadKeyMapTable_loop_inv in Hrun
      as (responses & Hlen & Hok & Hin & Hreads & Hwritten & ->).
    rewrite Hwritten, length_app, layer_requests_length, length_app, length_fmap.
    repeat split; try done. by exists responses.
  - intros responses rest Hin <- Hok.
    destruct hid as [written reads incoming]. cbn in Hin. subst incoming.
    by rewrite readKeypadKeyMapTable_loop_accepted.
  - intros responses pre bad rest k Hin Hlen Hok Hpre Hpreok Hunpack Hlayer.
    destruct hid as [written reads incoming]. cbn in Hin. subst incoming.
    destruct (response_error_layer _ _ _ Hunpack Hlayer) as [Hbad <-].
    by apply readKeypadKeyMapTable_loop_rejected.
Qed.

(** Two layers of one key: both layers answered; and the second layer
    answered with layer 1. *)
Lemma readKeypadKeyMapTable_exchanges_witness :
  let key1 keyId layerId : Buffer.t :=
    [0x03; 0xfa; keyId; layerId; 0x01; 0; 0; 0; 0; 0; 0x01; 0x00; 0x12] in
  let info := KeypadInfo.mk 1 0 in
  readKeypadKeyMapTable info 2 (HidIO.mk [] 0 [key1 1 1; key1 1 2])
  = (Ok (stored_responses <$> [[key1 1 1]; [key1 1 2]]),
     HidIO.mk (layer_requests info 1 2) 2 [])
  /\ readKeypadKeyMapTable info 2 (HidIO.mk [] 0 [key1 1 1; key1 1 1; key1 1 2])
     = (Err (InvalidLayerResponse (key1 1 1)),
        HidIO.mk (layer_requests info 1 2) 2 [key1 1 2]).
Proof.
  intros key1 info. split.
  - apply (proj1 (proj2 (readKeypadKeyMapTable_exchanges info 2
                           (HidIO.mk [] 0 [key1 1 1; key1 1 2])))
             [[key1 1 1]; [key1 1 2]] []);
      reflexivity.
  - apply (proj2 (proj2 (readKeypadKeyMapTable_exchanges info 2
                           (HidIO.mk [] 0 [key1 1 1; key1 1 1; key1 1 2])))
             [[key1 1 1]] [] (key1 1 1) [key1 1 2]
             (KeyMapWithId.mk 1 1 (KeyMapKeys [KeyAction.mk 0 0x12]))).
    all: try reflexivity.
    all: vm_compute; lia.
Defined.

(* ===================================================================== *)
(** ** Responses are stored by their key id (api.ts) *)
(* ===================================================================== *)

Lemma JsArray_set_comm {A} (a : JsArray.t A) (i j : Z) (v w : A) :
  i <> j ->
  JsArray.set (JsArray.set a i v) j w = JsArray.set (JsArray.set a j w) i v.
Proof.
  intros Hij. unfold JsArray.set. cbn [JsArray.length JsArray.props]. f_equal.
  - destruct (0 <=? i), (0 <=? j); lia.
  - by apply insert_insert_ne.
Qed.

Lemma JsArray_elements_lookup {A} (a : JsArray.t A) (i : nat) :
  (i < JsArray.length a)%nat ->
  JsArray.elements a !! i = Some (JsArray.props a !! Z.of_nat i).
Proof.
  intros Hi. unfold JsArray.elements.
  rewrite list_lookup_fmap, lookup_seq_lt by done. reflexivity.
Qed.

Lemma response_keyId_unpack buffer k :
  unpackKeyMapWithId buffer = Ok k -> response_keyId buffer = KeyMapWithId.keyId k.
Proof.
  intros Hunpack. apply unpackKeyMapWithId_header in Hunpack as [Hk _].
  unfold response_keyId. by apply nth_lookup_Some.
Qed.

Lemma store_response_comm result x y :
  response_keyId x <> response_keyId y ->
  store_response (store_response result x) y
  = store_response (store_response result y) x.
Proof.
  intros Hxy. unfold store_response.
  destruct (unpackKeyMapWithId x) as [kx|] eqn:Hx; [|done].
  destruct (unpackKeyMapWithId y) as [ky|] eqn:Hy; [|done].
  apply response_keyId_unpack in Hx, Hy.
  apply JsArray_set_comm. lia.
Qed.

(** The order of responses with distinct key ids does not matter. *)
Lemma fold_store_response_Permutation responses responses' :
  responses ≡ₚ responses' ->
  NoDup (response_keyId <$> responses) ->
  forall result,
    fold_left store_response responses result
    = fold_left store_response responses' result.
Proof.
  induction 1 as [|x l l' Hperm IH|x y l|l l' l'' Hperm1 IH1 Hperm2 IH2];
    intros Hnodup result.
  - reflexivity.
  - cbn [fold_left]. apply IH.
    rewrite fmap_cons in Hnodup. by apply NoDup_cons in Hnodup as [_ ?].
  - cbn [fold_left]. f_equal. apply store_response_comm.
    rewrite !fmap_cons in Hnodup. apply NoDup_cons in Hnodup as [Hnotin _].
    intros Heq. apply Hnotin. rewrite Heq. apply elem_of_cons. by left.
  - rewrite IH1 by done. apply IH2. by rewrite <- Hperm1.
Qed.

Lemma store_response_length result buffer :
  (JsArray.length result <= JsArray.length (store_response result buffer))%nat.
Proof.
  unfold store_response, JsArray.set.
  destruct (unpackKeyMapWithId buffer) as [k|]; [|done].
  cbn [JsArray.length]. case_match; lia.
Qed.

Lemma fold_store_response_length_ge responses result :
  (JsArray.length result
   <= JsArray.length (fold_left store_response responses result))%nat.
Proof.
  revert result. induction responses as [|x responses IH]; intros result; [done|].
  cbn [fold_left]. etrans; [apply store_response_length|apply IH].
Qed.

Lemma fold_store_response_length_le (n : nat) responses result :
  (forall x, x ∈ responses -> response_keyId x <= Z.of_nat n) ->
  (JsArray.length result <= n)%nat ->
  (JsArray.length (fold_left store_response responses result) <= n)%nat.
Proof.
  revert result. induction responses as [|x responses IH]; intros result Hle Hlen; [done|].
  cbn [fold_left]. apply IH.
  - intros y Hy. apply Hle. apply elem_of_cons. by right.
  - specialize (Hle x ltac:(apply elem_of_cons; by left)).
    unfold store_response, JsArray.set.
    destruct (unpackKeyMapWithId x) as [k|] eqn:Hx; [|done].
    apply response_keyId_unpack in Hx.
    cbn [JsArray.length]. case_match; lia.
Qed.

(** With distinct key ids, every response is found at index [keyId - 1]. *)
Lemma fold_store_response_lookup responses result x k :
  NoDup (response_keyId <$> responses) ->
  x ∈ responses ->
  unpackKeyMapWithId x = Ok k ->
  JsArray.props (fold_left store_response responses result)
    !! (KeyMapWithId.keyId k - 1)
  = Some (KeyMapWithId.keyMap k)
  /\ (1 <= KeyMapWithId.keyId k ->
      (Z.to_nat (KeyMapWithId.keyId k)
       <= JsArray.length (fold_left store_response responses result))%nat).
Proof.
  intros Hnodup Hx Hunpack.
  apply list_elem_of_split in Hx as (l1 & l2 & ->).
  rewrite (fold_store_response_Permutation _ ((l1 ++ l2) ++ [x])); [|solve_Permutation|done].
  rewrite fold_left_app. cbn [fold_left].
  unfold store_response at 1 3. rewrite Hunpack. unfold JsArray.set.
  cbn [JsArray.props JsArray.length].
  split; [apply lookup_insert_eq|].
  intros Hk. replace (0 <=? KeyMapWithId.keyId k - 1) with true by lia. lia.
Qed.

Lemma forallb_Permutation {A} (f : A -> bool) (l l' : list A) :
  l ≡ₚ l' -> forallb f l = true -> forallb f l' = true.
Proof.
  intros Hperm Hl. apply forallb_forall. intros x Hx.
  apply (proj1 (forallb_forall f l) Hl).
  apply list_elem_of_In. rewrite Hperm. by apply list_elem_of_In.
Qed.

Lemma accepted_response_unpack layerId buffer :
  accepted_response layerId buffer = true ->
  exists k, unpackKeyMapWithId buffer = Ok k.
Proof.
  unfold accepted_response. intros H. apply andb_prop in H as [_ H].
  destruct (unpackKeyMapWithId buffer) as [k|]; [by exists k|done].
Qed.

(** C9: [readKeypadKeyMaps] stores the KeyMap of each response at index
    [keyId - 1], the key id being the one the response carries at
    offset 2: for responses of the requested layer whose key ids are
    1..count, the call returns a list of [count] elements that holds
    each response's KeyMap at its [keyId - 1], and it returns the same
    (list and handle state) for every order the responses arrive in. *)
Theorem readKeypadKeyMaps_stores_by_keyId
    (param : ReadKeypadKeyMapsRequest.t) (written : list (list Z)) (reads : nat)
    (responses responses' rest : list Buffer.t) :
  let layerId := ReadKeypadKeyMapsRequest.layerId param in
  let count := Types.getKeyCount
                 (KeypadInfo.mk (ReadKeypadKeyMapsRequest.keys param)
                    (ReadKeypadKeyMapsRequest.knobs param)) in
  let run rs := readKeypadKeyMaps param (HidIO.mk written reads (rs ++ rest)) in
  forallb (accepted_response layerId) responses = true ->
  response_keyId <$> responses ≡ₚ seqZ 1 count ->
  responses' ≡ₚ responses ->
  run responses' = run responses
  /\ exists result,
      run responses
      = (Ok result,
         HidIO.mk (written ++ [packReadKeypadKeyMaps param ++ replicate 60 0])
           (reads + Z.to_nat count) rest)
      /\ JsArray.length result = Z.to_nat count
      /\ forall buffer k,
          buffer ∈ responses -> unpackKeyMapWithId buffer = Ok k ->
          JsArray.elements result !! Z.to_nat (KeyMapWithId.keyId k - 1)
          = Some (Some (KeyMapWithId.keyMap k)).
Proof.
  intros layerId count run Hok Hids Hperm.
  assert (length responses = Z.to_nat count) as Hlen.
  { apply Permutation_length in Hids. by rewrite length_fmap, length_seqZ in Hids. }
  assert (NoDup (response_keyId <$> responses)) as Hnodup.
  { rewrite Hids. apply NoDup_seqZ. }
  assert (forall x, x ∈ responses -> 1 <= response_keyId x <= count) as Hrange.
  { intros x Hx. apply (list_elem_of_fmap_2 response_keyId) in Hx.
    rewrite Hids in Hx. apply elem_of_seqZ in Hx. lia. }
  assert (forall rs, rs ≡ₚ responses ->
            run rs = (Ok (stored_responses rs),
                      HidIO.mk (written ++ [packReadKeypadKeyMaps param ++ replicate 60 0])
                        (reads + Z.to_nat count) rest)) as Hrun.
  { intros rs Hrs. unfold run. rewrite readKeypadKeyMaps_unfold.
    cbn [HidIO.written HidIO.reads HidIO.incoming]. fold count layerId.
    rewrite <- Hlen, <- (Permutation_length Hrs).
    apply readKeypadKeyMaps_loop_accepted.
    by apply (forallb_Permutation _ responses). }
  split.
  - rewrite !Hrun by done. f_equal. f_equal.
    apply fold_store_response_Permutation; [done|by rewrite Hperm].
  - exists (stored_responses responses).
    assert (JsArray.length (stored_responses responses) = Z.to_nat count) as Hlength.
    { apply Nat.le_antisymm.
      - apply fold_store_response_length_le; [|cbn; lia].
        intros x Hx. specialize (Hrange x Hx). lia.
      - destruct (decide (count <= 0)) as [|Hpos]; [lia|].
        assert (count ∈ response_keyId <$> responses) as Hlast.
        { rewrite Hids. apply elem_of_seqZ. lia. }
        apply list_elem_of_fmap in Hlast as (x & Hcount & Hx).
        assert (exists k, unpackKeyMapWithId x = Ok k) as [k Hunpack].
        { apply (accepted_response_unpack layerId).
          apply (proj1 (forallb_forall _ _) Hok). by apply list_elem_of_In. }
        destruct (fold_store_response_lookup responses JsArray.empty x k)
          as [_ Hge]; [done..|].
        rewrite <- (response_keyId_unpack _ _ Hunpack), <- Hcount in Hge.
        apply Hge. lia. }
    split; [by apply Hrun|]. split; [done|].
    intros buffer k Hbuffer Hunpack.
    specialize (Hrange buffer Hbuffer).
    rewrite (response_keyId_unpack _ _ Hunpack) in Hrange.
    rewrite JsArray_elements_lookup by lia.
    rewrite Z2Nat.id by lia. f_equal.
    by apply (fold_store_response_lookup responses JsArray.empty buffer k).
Qed.

(** Three keys of layer 2, arriving as keys 3, 2, 1 and as keys 1, 2, 3. *)
Lemma readKeypadKeyMaps_stores_by_keyId_witness :
  let key1 keyId modKey keyCode : Buffer.t :=
    [0x03; 0xfa; keyId; 0x02; 0x01; 0; 0; 0; 0; 0; 0x01; modKey; keyCode] in
  let param := ReadKeypadKeyMapsRequest.mk 3 0 2 in
  let ordered := [key1 1 0x16 0x26; key1 2 0x15 0x25; key1 3 0x14 0x24] in
  let arrived := [key1 3 0x14 0x24; key1 2 0x15 0x25; key1 1 0x16 0x26] in
  readKeypadKeyMaps param (HidIO.mk [] 0 (arrived ++ []))
  = readKeypadKeyMaps param (HidIO.mk [] 0 (ordered ++ [])).
Proof.
  intros key1 param ordered arrived.
  apply (readKeypadKeyMaps_stores_by_keyId param [] 0 ordered arrived []).
  - reflexivity.
  - reflexivity.
  - unfold arrived, ordered.
    etrans; [apply Permutation_swap|]. etrans; [apply perm_skip, Permutation_swap|].
    apply Permutation_swap.
Defined.

(* ===================================================================== *)
(** ** Writing a key map (api.ts) *)
(* ===================================================================== *)

Lemma packKeyMap_length keyMap data :
  packKeyMap keyMap = Ok data -> (length data <= 43)%nat.
Proof.
  destruct keyMap as [keys|consumer|mouse|ty raw]; intros Hpack.
  - unfold packKeyMap in Hpack. change (isKeyMapKeys (KeyMapKeys keys)) with true in Hpack.
    cbn [field_keys bind] in Hpack.
    destruct (Nat.le_gt_cases (length keys) 18) as [Hle|Hgt].
    + rewrite packKeyActrions_ok in Hpack by done. cbn [bind] in Hpack.
      injection Hpack as <-. cbn [length app].
      rewrite keyActionBytes_length. lia.
    + rewrite packKeyActrions_too_long in Hpack by lia.
      discriminate Hpack.
  - injection Hpack as <-. cbn. lia.
  - injection Hpack as <-. cbn. lia.
  - pose proof (packKeyMap_raw_rejected ty raw) as Herr.
    by rewrite Hpack in Herr.
Qed.

(** X1: [writeKeypadKeyMap] is one pack and one write: a KeyMap that packs
    is written as a single report of exactly 65 bytes, the command
    [0x03, 0xfd, keyId, layerId], the packed bytes and zero padding, and
    nothing is read; a KeyMap that does not pack writes nothing. *)
Theorem writeKeypadKeyMap_one_report (k : KeyMapWithId.t) (hid : HidIO.t) :
  match packKeyMap (KeyMapWithId.keyMap k) with
  | Ok data =>
      let req := [0x03; 0xfd; KeyMapWithId.keyId k; KeyMapWithId.layerId k] ++ data
                 ++ replicate (61 - length data) 0 in
      writeKeypadKeyMap k hid
      = (Ok 65, HidIO.mk (HidIO.written hid ++ [req]) (HidIO.reads hid)
                  (HidIO.incoming hid))
      /\ length req = REQUEST_SIZE
  | Err e => writeKeypadKeyMap k hid = (Err e, hid)
  end.
Proof.
  unfold writeKeypadKeyMap, io_bind, io_lift.
  destruct (packKeyMap (KeyMapWithId.keyMap k)) as [data|e] eqn:Hpack; [|reflexivity].
  apply packKeyMap_length in Hpack.
  unfold writeKeypadKeyMapRaw, packWriteKeypadKeyMapParam.
  cbn [WriteKeypadKeyMapParam.keyId WriteKeypadKeyMapParam.layerId
       WriteKeypadKeyMapParam.data].
  rewrite sendRequest_written.
  cbn [length app].
  replace (REQUEST_SIZE - S (S (S (S (length data)))))%nat
    with (61 - length data)%nat by (unfold REQUEST_SIZE; lia).
  assert (length (data ++ replicate (61 - length data) 0) = 61%nat) as Hlen.
  { rewrite length_app, length_replicate. lia. }
  rewrite Hlen. split; reflexivity.
Qed.

(* ===================================================================== *)
(** ** Reading the keypad's shape (api.ts) *)
(* ===================================================================== *)

Lemma recvResponse_run hid :
  recvResponse hid
  = (match HidIO.incoming hid with
     | buffer :: _ => if (length buffer =? 0)%nat then Err NoResponse else Ok buffer
     | [] => Err NoResponse
     end,
     HidIO.mk (HidIO.written hid) (S (HidIO.reads hid)) (tail (HidIO.incoming hid))).
Proof.
  unfold recvResponse, io_bind, HidIO.read.
  destruct (HidIO.incoming hid) as [|buffer rest]; [reflexivity|].
  cbn [tail]. destruct (length buffer =? 0)%nat; reflexivity.
Qed.

(** X2: [readKeypadInfo] always writes exactly one request, the padded
    [0x03, 0xfb, 0xfb, 0xfb], and makes exactly one read. A response of
    at least 4 bytes gives the keys of offset 2 and the knobs of offset
    3; no response (or an empty one) throws 'No response received.'; a
    response of 1 to 3 bytes throws a RangeError. *)
Theorem readKeypadInfo_exchange (hid : HidIO.t) :
  snd (readKeypadInfo hid)
  = HidIO.mk (HidIO.written hid ++ [[0x03; 0xfb; 0xfb; 0xfb] ++ replicate 61 0])
      (S (HidIO.reads hid)) (tail (HidIO.incoming hid))
  /\ fst (readKeypadInfo hid)
     = match HidIO.incoming hid with
       | [] | [] :: _ => Err NoResponse
       | res :: _ =>
           match res !! 2%nat, res !! 3%nat with
           | Some keys, Some knobs => Ok (KeypadInfo.mk keys knobs)
           | _, _ => Err ERR_OUT_OF_RANGE
           end
       end.
Proof.
  assert (readKeypadInfo hid
          = (res <~ recvResponse ;;
             keys <~ io_lift (Buffer.readUInt8 res 2) ;;
             knobs <~ io_lift (Buffer.readUInt8 res 3) ;;
             io_ret (KeypadInfo.mk keys knobs))%io
              (HidIO.mk (HidIO.written hid ++ [[0x03; 0xfb; 0xfb; 0xfb] ++ replicate 61 0])
                 (HidIO.reads hid) (HidIO.incoming hid))) as ->.
  { unfold readKeypadInfo, io_bind at 1. by rewrite sendRequest_written. }
  unfold io_bind at 1. rewrite recvResponse_run.
  cbn [HidIO.written HidIO.reads HidIO.incoming].
  destruct (HidIO.incoming hid) as [|res rest]; [split; reflexivity|].
  destruct res as [|b0 [|b1 [|b2 [|b3 res]]]]; split; reflexivity.
Qed.

(* ===================================================================== *)
(** ** LED and delay time (api.ts) *)
(* ===================================================================== *)

Lemma sendRequest_short request hid :
  (length request <= REQUEST_SIZE)%nat ->
  sendRequest request hid
  = (Ok 65,
     HidIO.mk
       (HidIO.written hid ++ [request ++ replicate (REQUEST_SIZE - length request) 0])
       (HidIO.reads hid) (HidIO.incoming hid)).
Proof.
  intros Hlen. rewrite sendRequest_written. f_equal. f_equal.
  rewrite length_app, length_replicate. unfold REQUEST_SIZE in *. lia.
Qed.

(** X3: [writeKeypadLed] writes exactly two reports of 65 bytes and
    reads nothing, whatever the parameter: the LED packet, which holds
    the layer at offset 0x0A and [ledColorId * 16 + ledModeId] at offset
    0x0C, and then the terminator [0x03, 0xfd, 0xfe, 0xff]. *)
Theorem writeKeypadLed_two_reports (param : WriteKeypadLedParam.t) (hid : HidIO.t) :
  let led := [0x03; 0xfe; 0xb0; 0x01; 0x08; 0; 0; 0; 0; 0;
              WriteKeypadLedParam.layerId param; 0;
              WriteKeypadLedParam.ledColorId param * 16
              + WriteKeypadLedParam.ledModeId param] ++ replicate 52 0 in
  let terminator := [0x03; 0xfd; 0xfe; 0xff] ++ replicate 61 0 in
  writeKeypadLed param hid
  = (Ok tt, HidIO.mk (HidIO.written hid ++ [led; terminator])
              (HidIO.reads hid) (HidIO.incoming hid))
  /\ length led = REQUEST_SIZE /\ length terminator = REQUEST_SIZE.
Proof.
  intros led terminator. split; [|split; reflexivity].
  unfold writeKeypadLed, io_bind.
  rewrite sendRequest_short by (cbn; unfold REQUEST_SIZE; lia).
  rewrite sendRequest_short by (cbn; unfold REQUEST_SIZE; lia).
  cbn [HidIO.written HidIO.reads HidIO.incoming]. unfold io_ret.
  rewrite <- app_assoc. reflexivity.
Qed.

(** X4: [splitUInt16LE] gives, for every integer, two bytes whose
    little-endian value is the integer modulo 65536: the integer itself
    from 0 to 0xFFFF. *)
Theorem splitUInt16LE_little_endian (v : Z) :
  exists l b,
    Utils.splitUInt16LE v = [l; b]
    /\ 0 <= l <= 0xFF /\ 0 <= b <= 0xFF
    /\ l + b * 0x100 = v mod 0x10000
    /\ (0 <= v <= 0xFFFF -> l + b * 0x100 = v).
Proof.
  exists (v mod 0x100), ((v / 0x100) mod 0x100).
  split; [apply splitUInt16LE_bytes|].
  pose proof (Z.mod_pos_bound v 0x100 ltac:(lia)).
  pose proof (Z.mod_pos_bound (v / 0x100) 0x100 ltac:(lia)).
  assert (v mod 0x100 + (v / 0x100) mod 0x100 * 0x100 = v mod 0x10000) as Hle.
  { change 0x10000 with (0x100 * 0x100).
    rewrite Z.rem_mul_r by lia. lia. }
  repeat split; try lia.
  intros Hv. rewrite Hle. apply Z.mod_small. lia.
Qed.

(** X5: [writeKeypadDelayTime] writes exactly two reports of 65 bytes
    and reads nothing: the delay packet and then the terminator. The
    packet holds the delay in two bytes, low byte at offset 5 and high
    byte at offset 6, so the delay is taken modulo 65536: it is carried
    exactly from 0 to 65535 ms, and [d] and [d + 65536] give the same
    packet. *)
Theorem writeKeypadDelayTime_two_reports (delayTimeMs : Z) (hid : HidIO.t) :
  let param := WriteKeypadDelayTimeParam.mk delayTimeMs in
  let lo := delayTimeMs mod 0x100 in
  let hi := (delayTimeMs / 0x100) mod 0x100 in
  let packet := [0x03; 0xfe; 0xb0; 0x01; 0x05; lo; hi; 0; 0; 0; 0x01; 0; 0x24] in
  let terminator := [0x03; 0xfd; 0xfe; 0xff] ++ replicate 61 0 in
  packWriteKeypadDelayTimeParam param = packet
  /\ writeKeypadDelayTime param hid
     = (Ok tt, HidIO.mk (HidIO.written hid ++ [packet ++ replicate 52 0; terminator])
                 (HidIO.reads hid) (HidIO.incoming hid))
  /\ length (packet ++ replicate 52 0) = REQUEST_SIZE
  /\ lo + hi * 0x100 = delayTimeMs mod 0x10000
  /\ packWriteKeypadDelayTimeParam (WriteKeypadDelayTimeParam.mk (delayTimeMs + 0x10000))
     = packet.
Proof.
  intros param lo hi packet terminator.
  assert (forall d, packWriteKeypadDelayTimeParam (WriteKeypadDelayTimeParam.mk d)
                    = [0x03; 0xfe; 0xb0; 0x01; 0x05; d mod 0x100; (d / 0x100) mod 0x100;
                       0; 0; 0; 0x01; 0; 0x24]) as Hpack.
  { intros d. unfold packWriteKeypadDelayTimeParam.
    cbn [WriteKeypadDelayTimeParam.delayTimeMs].
    by rewrite splitUInt16LE_bytes. }
  split; [apply Hpack|]. split; [|split; [reflexivity|split]].
  - unfold writeKeypadDelayTime, io_bind, param. rewrite Hpack.
    rewrite sendRequest_short by (cbn; unfold REQUEST_SIZE; lia).
    rewrite sendRequest_short by (cbn; unfold REQUEST_SIZE; lia).
    cbn [HidIO.written HidIO.reads HidIO.incoming]. unfold io_ret.
    rewrite <- app_assoc. reflexivity.
  - unfold lo, hi. change 0x10000 with (0x100 * 0x100).
    rewrite Z.rem_mul_r by lia. lia.
  - rewrite Hpack. unfold packet, lo, hi.
    assert ((delayTimeMs + 0x10000) mod 0x100 = delayTimeMs mod 0x100) as ->
      by (Z.to_euclidean_division_equations; lia).
    assert ((delayTimeMs + 0x10000) / 0x100 = delayTimeMs / 0x100 + 0x100) as ->
      by (Z.to_euclidean_division_equations; lia).
    assert ((delayTimeMs / 0x100 + 0x100) mod 0x100 = (delayTimeMs / 0x100) mod 0x100) as ->
      by (Z.to_euclidean_division_equations; lia).
    reflexivity.
Qed.

(* ===================================================================== *)
(** ** Reports of the device (api.ts) *)
(* ===================================================================== *)

Lemma unpackKeyMapWithId_keys_report buffer keyId layerId count :
  buffer !! 2%nat = Some keyId -> buffer !! 3%nat = Some layerId ->
  buffer !! 4%nat = Some 0x01 -> buffer !! 0x0A%nat = Some count ->
  0 <= count <= 127 ->
  unpackKeyMapWithId buffer
  = if bool_decide (Z.to_nat count = 0 \/ 0x0B + 2 * Z.to_nat count <= length buffer)%nat
    then Ok (KeyMapWithId.mk layerId keyId
               (KeyMapKeys (keyActionsAt buffer 0 (Z.to_nat count))))
    else Err ERR_OUT_OF_RANGE.
Proof.
  intros Hk Hl Hty Hcount Hrange.
  unfold unpackKeyMapWithId, Buffer.readUInt8. rewrite Hk, Hl, Hty. cbn [bind].
  change (0x01 =? KeyMapTypes_keys) with true. cbv iota.
  unfold unpackKeyActions. rewrite (readInt8_lookup _ _ _ Hcount). cbn [bind].
  replace (count <? 0x80) with true by lia.
  rewrite unpackKeyActions_loop_spec. cbn [app].
  repeat case_bool_decide; try reflexivity; lia.
Qed.

(** X6: on a 65-byte report, [unpackKeyMapWithId] throws in one case
    only: the keys type (0x01) with a count byte of 28 to 127, whose
    pairs do not fit the report; the error is then a RangeError. Every
    other 65-byte report unpacks, with the key id of offset 2 and the
    layer id of offset 3. *)
Theorem unpackKeyMapWithId_report (buffer : Buffer.t) :
  length buffer = 65%nat ->
  forallb Buffer.is_byte buffer = true ->
  exists keyId layerId ty count,
    buffer !! 2%nat = Some keyId /\ buffer !! 3%nat = Some layerId
    /\ buffer !! 4%nat = Some ty /\ buffer !! 0x0A%nat = Some count
    /\ if (ty =? 0x01) && (28 <=? count) && (count <=? 127)
       then unpackKeyMapWithId buffer = Err ERR_OUT_OF_RANGE
       else exists keyMap,
           unpackKeyMapWithId buffer = Ok (KeyMapWithId.mk layerId keyId keyMap).
Proof.
  intros Hlen Hbytes.
  destruct buffer as [|b0 [|b1 [|keyId [|layerId [|ty [|b5 [|b6 [|b7 [|b8 [|b9
    [|count [|b11 [|b12 [|b13 [|b14 [|b15 rest]]]]]]]]]]]]]]]];
    try discriminate Hlen.
  exists keyId, layerId, ty, count. do 4 (split; [reflexivity|]).
  do 10 (apply forallb_is_byte_cons in Hbytes as [_ Hbytes]).
  apply forallb_is_byte_cons in Hbytes as [Hcount _].
  destruct (ty =? 0x01) eqn:Ekeys; cbn [andb].
  - apply Z.eqb_eq in Ekeys as ->.
    destruct (decide (count <= 127)) as [Hsmall|Hbig].
    + rewrite (unpackKeyMapWithId_keys_report _ keyId layerId count)
        by (reflexivity || lia).
      rewrite Hlen.
      destruct (28 <=? count) eqn:E28; destruct (count <=? 127) eqn:E127;
        cbn [andb]; case_bool_decide; try lia; try reflexivity; eauto.
    + replace (count <=? 127) with false by lia. rewrite andb_false_r.
      exists (KeyMapKeys []).
      unfold unpackKeyMapWithId, Buffer.readUInt8. cbn [lookup list_lookup bind].
      change (0x01 =? KeyMapTypes_keys) with true. cbv iota.
      unfold unpackKeyActions.
      rewrite (readInt8_lookup _ _ count) by reflexivity. cbn [bind].
      replace (count <? 0x80) with false by lia.
      replace (Z.to_nat (count - 0x100)) with 0%nat by lia. reflexivity.
  - unfold unpackKeyMapWithId, Buffer.readUInt8. cbn [lookup list_lookup bind].
    unfold KeyMapTypes_keys. rewrite Ekeys.
    destruct (ty =? KeyMapTypes_consumer); [eexists; reflexivity|].
    destruct (ty =? KeyMapTypes_mouse); eexists; reflexivity.
Qed.

Lemma unpackKeyMapWithId_report_witness :
  unpackKeyMapWithId ([0x03; 0xfa; 0x01; 0x01; 0x01; 0; 0; 0; 0; 0; 28] ++ replicate 54 0)
  = Err ERR_OUT_OF_RANGE.
Proof.
  destruct (unpackKeyMapWithId_report
              ([0x03; 0xfa; 0x01; 0x01; 0x01; 0; 0; 0; 0; 0; 28] ++ replicate 54 0)
              eq_refl eq_refl)
    as (keyId & layerId & ty & count & _ & _ & [= <-] & [= <-] & Hunpack).
  exact Hunpack.
Defined.

(** X7: a keys report may hold more key actions than [packKeyMap]
    accepts: a 65-byte report of the keys type with a count of 19 to 27
    unpacks to a KeyMap of that many key actions, and packing that
    KeyMap throws 'Invalid size'. *)
Theorem unpacked_keys_may_not_pack (buffer : Buffer.t) (count : Z) :
  length buffer = 65%nat ->
  buffer !! 4%nat = Some 0x01 -> buffer !! 0x0A%nat = Some count ->
  19 <= count <= 27 ->
  exists k keys,
    unpackKeyMapWithId buffer = Ok k
    /\ KeyMapWithId.keyMap k = KeyMapKeys keys
    /\ length keys = Z.to_nat count
    /\ packKeyMap (KeyMapWithId.keyMap k) = Err (InvalidSize (Z.to_nat count)).
Proof.
  intros Hlen Hty Hcount Hrange.
  destruct (lookup_lt_is_Some_2 buffer 2) as [keyId Hk]; [lia|].
  destruct (lookup_lt_is_Some_2 buffer 3) as [layerId Hl]; [lia|].
  exists (KeyMapWithId.mk layerId keyId
            (KeyMapKeys (keyActionsAt buffer 0 (Z.to_nat count)))),
    (keyActionsAt buffer 0 (Z.to_nat count)).
  split.
  { rewrite (unpackKeyMapWithId_keys_report _ keyId layerId count) by (done || lia).
    rewrite bool_decide_true by lia. reflexivity. }
  split; [reflexivity|]. split; [apply keyActionsAt_length|].
  cbn [KeyMapWithId.keyMap]. unfold packKeyMap.
  change (isKeyMapKeys (KeyMapKeys _)) with true. cbn [field_keys bind].
  rewrite packKeyActrions_too_long by (rewrite keyActionsAt_length; lia).
  by rewrite keyActionsAt_length.
Qed.

Lemma unpacked_keys_may_not_pack_witness :
  exists k keys,
    unpackKeyMapWithId ([0x03; 0xfa; 0x01; 0x01; 0x01; 0; 0; 0; 0; 0; 19] ++ replicate 54 4)
    = Ok k
    /\ KeyMapWithId.keyMap k = KeyMapKeys keys
    /\ length keys = 19%nat
    /\ packKeyMap (KeyMapWithId.keyMap k) = Err (InvalidSize 19).
Proof.
  apply (unpacked_keys_may_not_pack
           ([0x03; 0xfa; 0x01; 0x01; 0x01; 0; 0; 0; 0; 0; 19] ++ replicate 54 4) 19);
    (reflexivity || lia).
Defined.

(** X8: the report of a KeyMap may be followed by padding, as a 65-byte
    report of the device is: a well-formed report followed by any bytes
    unpacks to a KeyMap that packs to the report from offset 4 on, so to
    the padded report from offset 4 on without its padding. *)
Theorem padded_report_round_trip (buffer padding : Buffer.t) :
  well_formed_report buffer = true ->
  exists k data,
    unpackKeyMapWithId (buffer ++ padding) = Ok k
    /\ buffer !! 2%nat = Some (KeyMapWithId.keyId k)
    /\ buffer !! 3%nat = Some (KeyMapWithId.layerId k)
    /\ packKeyMap (KeyMapWithId.keyMap k) = Ok data
    /\ data ++ padding = drop 4 (buffer ++ padding).
Proof.
  intros Hwf.
  destruct (well_formed_report_round_trip buffer padding Hwf)
    as (k & Hunpack & Hk & Hl & _ & Hpack).
  exists k, (drop 4 buffer). repeat split; try done.
  rewrite drop_app_le; [done|].
  apply lookup_lt_Some in Hl. lia.
Qed.

Lemma padded_report_round_trip_witness :
  exists k data,
    unpackKeyMapWithId
      ([0x03; 0xfa; 0x02; 0x02; 0x02; 0; 0; 0; 0; 0; 0x01; 0x92; 0x01] ++ replicate 52 0)
    = Ok k
    /\ [0x03; 0xfa; 0x02; 0x02; 0x02; 0; 0; 0; 0; 0; 0x01; 0x92; 0x01] !! 2%nat
       = Some (KeyMapWithId.keyId k)
    /\ [0x03; 0xfa; 0x02; 0x02; 0x02; 0; 0; 0; 0; 0; 0x01; 0x92; 0x01] !! 3%nat
       = Some (KeyMapWithId.layerId k)
    /\ packKeyMap (KeyMapWithId.keyMap k) = Ok data
    /\ data ++ replicate 52 0
       = drop 4 ([0x03; 0xfa; 0x02; 0x02; 0x02; 0; 0; 0; 0; 0; 0x01; 0x92; 0x01]
                 ++ replicate 52 0).
Proof.
  apply (padded_report_round_trip
           [0x03; 0xfa; 0x02; 0x02; 0x02; 0; 0; 0; 0; 0; 0x01; 0x92; 0x01]
           (replicate 52 0)).
  reflexivity.
Defined.

Lemma unpack_packed_padded (h0 h1 keyId layerId : Z) (keyMap : KeyMap) (padding : list Z) :
  valid_KeyMap keyMap = true ->
  exists data,
    packKeyMap keyMap = Ok data
    /\ unpackKeyMapWithId ([h0; h1; keyId; layerId] ++ data ++ padding)
       = Ok (KeyMapWithId.mk layerId keyId keyMap).
Proof.
  intros Hvalid.
  destruct keyMap as [keys|[id]|[modKey button x y wheel]|]; [| | |discriminate Hvalid];
    cbn [valid_KeyMap] in Hvalid.
  - apply andb_prop in Hvalid as [Hlen _]. apply Nat.leb_le in Hlen.
    eexists. split.
    { unfold packKeyMap. change (isKeyMapKeys (KeyMapKeys keys)) with true.
      cbn [field_keys bind]. rewrite packKeyActrions_ok by done. reflexivity. }
    apply (unpackKeyMapWithId_keys h0 h1 keyId layerId keys padding). lia.
  - cbn [ConsumerAction.id] in Hvalid.
    eexists. split; [reflexivity|].
    unfold packConsumerAction. cbn [ConsumerAction.id].
    rewrite splitUInt16LE_bytes.
    unfold unpackKeyMapWithId, unpackConsumerAction, Buffer.readUInt16LE.
    cbn. rewrite <- (splitUInt16LE_split id) at 3 by lia. reflexivity.
  - eexists. split; reflexivity.
Qed.

Lemma is_byte_spec v : Buffer.is_byte v = true <-> 0 <= v <= 0xFF.
Proof. unfold Buffer.is_byte. rewrite andb_true_iff. lia. Qed.

Lemma packKeyMap_valid_bytes (keyMap : KeyMap) (data : list Z) :
  valid_KeyMap keyMap = true -> packKeyMap keyMap = Ok data ->
  forallb Buffer.is_byte data = true.
Proof.
  intros Hvalid Hpack.
  destruct keyMap as [keys|[id]|[modKey button x y wheel]|]; [| | |discriminate Hvalid];
    cbn [valid_KeyMap] in Hvalid.
  - apply andb_prop in Hvalid as [Hlen Hkeys]. apply Nat.leb_le in Hlen.
    unfold packKeyMap in Hpack. change (isKeyMapKeys (KeyMapKeys keys)) with true in Hpack.
    cbn [field_keys bind] in Hpack. rewrite packKeyActrions_ok in Hpack by done.
    cbn [bind] in Hpack. injection Hpack as <-.
    cbn [app forallb]. change (Buffer.is_byte 0) with true.
    change (Buffer.is_byte KeyMapTypes_keys) with true. cbn [andb].
    apply andb_true_intro. split; [apply is_byte_spec; lia|].
    clear Hlen. induction keys as [|k keys IH]; [done|].
    cbn [forallb] in Hkeys. apply andb_prop in Hkeys as [Hk Hkeys].
    apply andb_prop in Hk as [Hm Hc].
    cbn [keyActionBytes flat_map app forallb]. rewrite Hm, Hc. cbn [andb].
    by apply IH.
  - cbn [ConsumerAction.id] in Hvalid. injection Hpack as <-.
    unfold packConsumerAction. cbn [ConsumerAction.id].
    rewrite splitUInt16LE_bytes. cbn [app forallb].
    rewrite (proj2 (is_byte_spec (id mod 256))), (proj2 (is_byte_spec ((id / 256) mod 256)))
      by (match goal with |- _ <= ?a mod _ <= _ =>
            pose proof (Z.mod_pos_bound a 256 eq_refl); lia end).
    reflexivity.
  - injection Hpack as <-. cbn in Hvalid |- *. exact Hvalid.
Qed.

(** X9: what [writeKeypadKeyMap] writes reads back: for a valid KeyMap
    with a key id and a layer id that are bytes it writes one report of
    65 bytes, and [unpackKeyMapWithId] of that report is the
    KeyMapWithId that was written, with its layerId, keyId and KeyMap. *)
Theorem writeKeypadKeyMap_reads_back (k : KeyMapWithId.t) (hid : HidIO.t) :
  valid_KeyMap (KeyMapWithId.keyMap k) = true ->
  0 <= KeyMapWithId.keyId k <= 0xFF ->
  0 <= KeyMapWithId.layerId k <= 0xFF ->
  exists req,
    writeKeypadKeyMap k hid
    = (Ok 65, HidIO.mk (HidIO.written hid ++ [req]) (HidIO.reads hid)
                (HidIO.incoming hid))
    /\ length req = REQUEST_SIZE
    /\ forallb Buffer.is_byte req = true
    /\ unpackKeyMapWithId req = Ok k.
Proof.
  intros Hvalid HkeyId HlayerId. destruct k as [layerId keyId keyMap].
  cbn in Hvalid, HkeyId, HlayerId.
  destruct (unpack_packed_padded 0x03 0xfd keyId layerId keyMap [] Hvalid)
    as (data & Hpack & _).
  destruct (unpack_packed_padded 0x03 0xfd keyId layerId keyMap
              (replicate (61 - length data) 0) Hvalid)
    as (data' & Hpack' & Hunpack).
  rewrite Hpack in Hpack'. injection Hpack' as <-.
  pose proof (packKeyMap_length _ _ Hpack) as Hlen.
  pose proof (packKeyMap_valid_bytes _ _ Hvalid Hpack) as Hbytes.
  exists ([0x03; 0xfd; keyId; layerId] ++ data ++ replicate (61 - length data) 0).
  split; [|split; [|split; [|done]]].
  - unfold writeKeypadKeyMap, io_bind, io_lift. cbn [KeyMapWithId.keyMap].
    rewrite Hpack.
    unfold writeKeypadKeyMapRaw, packWriteKeypadKeyMapParam.
    cbn [WriteKeypadKeyMapParam.keyId WriteKeypadKeyMapParam.layerId
         WriteKeypadKeyMapParam.data KeyMapWithId.keyId KeyMapWithId.layerId].
    rewrite sendRequest_short by (cbn; unfold REQUEST_SIZE; lia).
    cbn [length app].
    replace (REQUEST_SIZE - S (S (S (S (length data)))))%nat
      with (61 - length data)%nat by (unfold REQUEST_SIZE; lia).
    reflexivity.
  - cbn [length app]. rewrite length_app, length_replicate.
    unfold REQUEST_SIZE. lia.
  - rewrite !forallb_app, Hbytes. cbn [forallb].
    rewrite !(proj2 (is_byte_spec _)) by lia. cbn [andb].
    generalize (61 - length data)%nat. intros n.
    induction n as [|n IH]; [done|]. cbn [replicate forallb]. by rewrite IH.
Qed.

Lemma writeKeypadKeyMap_reads_back_witness :
  exists req,
    writeKeypadKeyMap
      (KeyMapWithId.mk 2 5 (KeyMapKeys [KeyAction.mk 0x01 0x12; KeyAction.mk 0 0x13]))
      (HidIO.mk [] 0 [])
    = (Ok 65, HidIO.mk [req] 0 [])
    /\ length req = REQUEST_SIZE
    /\ forallb Buffer.is_byte req = true
    /\ unpackKeyMapWithId req
       = Ok (KeyMapWithId.mk 2 5 (KeyMapKeys [KeyAction.mk 0x01 0x12; KeyAction.mk 0 0x13])).
Proof.
  apply (writeKeypadKeyMap_reads_back
           (KeyMapWithId.mk 2 5 (KeyMapKeys [KeyAction.mk 0x01 0x12; KeyAction.mk 0 0x13]))
           (HidIO.mk [] 0 [])).
  - reflexivity.
  - cbn. lia.
  - cbn. lia.
Defined.

(* ===================================================================== *)
(** ** Modifier keys (types.ts) *)
(* ===================================================================== *)

Example getModKeyNames_vectors :
  (Types.getModKeyNames <$> [0x00; 0x01; 0x03; 0x18])
  = [[]; ["Ctrl"]; ["Ctrl"; "Shift"]; ["Gui"; "RCtrl"]]%string
  /\ (Types.createModKey <$> [[]; ["Ctrl"]; ["Ctrl"; "Shift"]; ["Gui"; "RCtrl"]]%string)
     = [Some 0x00; Some 0x01; Some 0x03; Some 0x18]
  /\ (Types.createModKey <$> [["Error"]; ["Ctrl"; "Error"]; ["Error"; "Ctrl"]]%string)
     = [None; None; None].
Proof. repeat split; reflexivity. Qed.

Example applyModKey_vectors :
  (fun a => Types.applyModKey a 0x20)
    <$> [KeyAction.mk 0 0x00; KeyAction.mk 0x01 0x00; KeyAction.mk 0x20 0x00]
  = [KeyAction.mk 0x20 0x00; KeyAction.mk 0x21 0x00; KeyAction.mk 0x20 0x00].
Proof. reflexivity. Qed.

Example formatMouseAction_vectors :
  (Types.formatMouseAction
     <$> [Types.mouse_MoveLeft; Types.Move (-2) 2; Types.Wheel (-2) 0; Types.Move 0 0;
          Types.Ctrl (Types.Wheel (-2) 0)])
  = [Ok "MoveLeft"; Ok "Move(-2,2)"; Ok "Wheel(-2)"; Ok "Move(0,0)";
     Ok "Ctrl+Wheel(-2)"]%string
  /\ result_map String.length (Types.formatMouseAction (MouseAction.mk 0 2 10 0 0))
     = Ok 46%nat
  /\ Types.formatConsumerAction (Types.Consumer 0x0194) = "MyComputer"%string
  /\ String.length (Types.formatConsumerAction (Types.Consumer 1)) = 8%nat.
Proof. repeat split; vm_compute; reflexivity. Qed.

Lemma byte_land_0xFF v : 0 <= v <= 0xFF <-> Z.land v 0xFF = v.
Proof.
  change 0xFF with (Z.ones 8) at 2. rewrite Z.land_ones by lia. split.
  - intros Hv. apply Z.mod_small. lia.
  - intros <-. pose proof (Z.mod_pos_bound v (2 ^ 8) ltac:(lia)). lia.
Qed.

Lemma toInt32_small n : - 2 ^ 31 <= n < 2 ^ 31 -> JsNumber.toInt32 n = n.
Proof. intros Hn. unfold JsNumber.toInt32. rewrite Z.mod_small; lia. Qed.

Lemma lor_byte a b : 0 <= a <= 0xFF -> 0 <= b <= 0xFF -> 0 <= Z.lor a b <= 0xFF.
Proof.
  intros Ha Hb. apply byte_land_0xFF in Ha, Hb. apply byte_land_0xFF.
  by rewrite Z.land_lor_distr_l, Ha, Hb.
Qed.

Lemma land_byte a b : 0 <= a <= 0xFF -> 0 <= Z.land a b <= 0xFF.
Proof.
  intros Ha. apply byte_land_0xFF in Ha. apply byte_land_0xFF.
  by rewrite <- Z.land_assoc, (Z.land_comm b), Z.land_assoc, Ha.
Qed.

Lemma land_lor_absorb a b : Z.land (Z.lor a b) b = b.
Proof.
  apply Z.bits_inj'. intros n Hn. rewrite Z.land_spec, Z.lor_spec.
  destruct (Z.testbit a n), (Z.testbit b n); reflexivity.
Qed.

Lemma JsNumber_or_byte a b :
  0 <= a <= 0xFF -> 0 <= b <= 0xFF -> JsNumber.or a b = Z.lor a b.
Proof.
  intros Ha Hb. unfold JsNumber.or. apply toInt32_small.
  pose proof (lor_byte a b Ha Hb). lia.
Qed.

Lemma JsNumber_and_byte a b : 0 <= a <= 0xFF -> JsNumber.and a b = Z.land a b.
Proof.
  intros Ha. unfold JsNumber.and. apply toInt32_small.
  pose proof (land_byte a b Ha). lia.
Qed.

Section ApplyModKey.

Context {T : Type} `{Types.WithModKey T}.

(** What [{ ...action, modKey: m }] means for the fields. *)
Hypothesis modKey_withModKey :
  forall (m : Z) (action : T), Types.modKey (Types.withModKey m action) = m.
Hypothesis withModKey_withModKey :
  forall (m m' : Z) (action : T),
    Types.withModKey m (Types.withModKey m' action) = Types.withModKey m action.

(** X10: [applyModKey] only adds modifier bits. For an action and
    bits that are bytes: applying the same bits twice is applying them
    once, the order of two applications does not matter, the result's
    [modKey] is the bytewise OR (again a byte, holding every bit of the
    action and every bit applied), and applying no bit changes nothing
    of the [modKey]. *)
Theorem applyModKey_adds_bits (action : T) (bits bits' : Z) :
  0 <= Types.modKey action <= 0xFF -> 0 <= bits <= 0xFF -> 0 <= bits' <= 0xFF ->
  Types.applyModKey (Types.applyModKey action bits) bits
  = Types.applyModKey action bits
  /\ Types.applyModKey (Types.applyModKey action bits) bits'
     = Types.applyModKey (Types.applyModKey action bits') bits
  /\ Types.modKey (Types.applyModKey action bits)
     = Z.lor (Types.modKey action) bits
  /\ 0 <= Types.modKey (Types.applyModKey action bits) <= 0xFF
  /\ Z.land (Types.modKey (Types.applyModKey action bits)) bits = bits
  /\ Z.land (Types.modKey (Types.applyModKey action bits)) (Types.modKey action)
     = Types.modKey action
  /\ Types.modKey (Types.applyModKey action 0) = Types.modKey action.
Proof.
  intros Ha Hb Hb'.
  pose proof (lor_byte _ _ Ha Hb) as Hab. pose proof (lor_byte _ _ Ha Hb') as Hab'.
  unfold Types.applyModKey.
  rewrite !modKey_withModKey, !withModKey_withModKey.
  rewrite !(JsNumber_or_byte (Types.modKey action)) by done.
  rewrite !JsNumber_or_byte by done.
  split; [by rewrite <- Z.lor_assoc, Z.lor_diag|].
  split; [by rewrite <- !Z.lor_assoc, (Z.lor_comm bits)|].
  split; [done|]. split; [done|].
  split; [apply land_lor_absorb|].
  split; [by rewrite Z.lor_comm, land_lor_absorb|].
  apply Z.lor_0_r.
Qed.

End ApplyModKey.

Lemma applyModKey_adds_bits_witness :
  Types.Ctrl (Types.Ctrl (KeyAction.mk 0x02 0x12)) = Types.Ctrl (KeyAction.mk 0x02 0x12)
  /\ Types.modKey (Types.Alt Types.mouse_LButton) = 0x04.
Proof.
  split.
  - apply (@applyModKey_adds_bits KeyAction.t Types.KeyAction_WithModKey
             (fun _ _ => eq_refl) (fun _ _ _ => eq_refl)
             (KeyAction.mk 0x02 0x12) Types.ModKey_Ctrl 0);
      vm_compute; done.
  - apply (@applyModKey_adds_bits MouseAction.t Types.MouseAction_WithModKey
             (fun _ _ => eq_refl) (fun _ _ _ => eq_refl)
             Types.mouse_LButton Types.ModKey_Alt 0);
      vm_compute; done.
Defined.

Lemma JsNumber_and_mod code modKey :
  0 <= code <= 0xFF ->
  JsNumber.and code modKey = JsNumber.and code (modKey mod 0x100).
Proof.
  intros Hcode. rewrite !JsNumber_and_byte by done.
  apply byte_land_0xFF in Hcode.
  rewrite <- Hcode at 1. rewrite <- Z.land_assoc, (Z.land_comm 0xFF).
  change 0xFF with (Z.ones 8). by rewrite Z.land_ones by lia.
Qed.

Lemma getModKeyNames_mod modKey :
  Types.getModKeyNames modKey = Types.getModKeyNames (modKey mod 0x100).
Proof.
  unfold Types.getModKeyNames, Types.ModKey. cbn [List.filter snd].
  rewrite (JsNumber_and_mod 0x01 modKey), (JsNumber_and_mod 0x02 modKey),
    (JsNumber_and_mod 0x04 modKey), (JsNumber_and_mod 0x08 modKey),
    (JsNumber_and_mod 0x10 modKey), (JsNumber_and_mod 0x20 modKey),
    (JsNumber_and_mod 0x40 modKey), (JsNumber_and_mod 0x80 modKey) by lia.
  reflexivity.
Qed.

Lemma createModKey_getModKeyNames_byte :
  Forall (fun modKey => Types.createModKey (Types.getModKeyNames modKey) = Some modKey)
    (seqZ 0 0x100).
Proof.
  apply (bool_decide_unpack
           (Forall (fun modKey =>
                      Types.createModKey (Types.getModKeyNames modKey) = Some modKey)
              (seqZ 0 0x100))).
  vm_compute. exact I.
Qed.

(** X11: the names of a modifier byte give the byte back: for every
    integer [modKey], [createModKey (getModKeyNames modKey)] is
    [modKey] modulo 256 (only the eight modifier bits have names), so
    [modKey] itself for a byte. *)
Theorem createModKey_getModKeyNames (modKey : Z) :
  Types.createModKey (Types.getModKeyNames modKey) = Some (modKey mod 0x100)
  /\ (0 <= modKey <= 0xFF ->
      Types.createModKey (Types.getModKeyNames modKey) = Some modKey).
Proof.
  assert (Types.createModKey (Types.getModKeyNames modKey) = Some (modKey mod 0x100))
    as Hmod.
  { rewrite getModKeyNames_mod.
    apply (proj1 (Forall_forall _ _) createModKey_getModKeyNames_byte).
    apply elem_of_seqZ. pose proof (Z.mod_pos_bound modKey 0x100 ltac:(lia)). lia. }
  split; [done|]. intros Hbyte. by rewrite Hmod, Z.mod_small by lia.
Qed.

Lemma ModKey_code_byte name code :
  JsObject.get Types.ModKey name = JsObject.Own code -> 0 <= code <= 0xFF.
Proof.
  unfold JsObject.get, Types.ModKey. cbn [List.find fst snd].
  repeat (destruct (String.eqb _ name); [intros [= <-]; lia|]).
  case_bool_decide; discriminate.
Qed.

Lemma createModKey_loop_spec names modKey :
  0 <= modKey <= 0xFF ->
  (Types.createModKey_loop names modKey = None
   <-> Exists (fun name => JsObject.get Types.ModKey name = JsObject.Undefined) names)
  /\ forall result,
      Types.createModKey_loop names modKey = Some result ->
      0 <= result <= 0xFF
      /\ Z.land result modKey = modKey
      /\ forall name code,
          name ∈ names -> JsObject.get Types.ModKey name = JsObject.Own code ->
          Z.land result code = code.
Proof.
  revert modKey. induction names as [|name names IH]; intros modKey Hbyte.
  - split.
    + split; [discriminate|]. by intros ?%Exists_nil.
    + intros result [= <-]. split; [done|]. split; [apply Z.land_diag|].
      intros name code Hin. by apply elem_of_nil in Hin.
  - cbn [Types.createModKey_loop].
    destruct (JsObject.get Types.ModKey name) as [code| |] eqn:Hget.
    + pose proof (ModKey_code_byte _ _ Hget) as Hcode.
      rewrite JsNumber_or_byte by done.
      destruct (IH (Z.lor modKey code) (lor_byte _ _ Hbyte Hcode)) as [Hnone Hsome].
      split.
      * rewrite Hnone, Exists_cons. split; [by right|].
        intros [Hundef|?]; [congruence|done].
      * intros result Hresult.
        destruct (Hsome result Hresult) as (Hres & Hland & Hnames).
        assert (Z.land result modKey = modKey /\ Z.land result code = code) as [? ?].
        { split; apply Z.bits_inj'; intros n Hn;
            apply (f_equal (fun z => Z.testbit z n)) in Hland;
            rewrite !Z.land_spec, ?Z.lor_spec in *;
            destruct (Z.testbit result n), (Z.testbit modKey n), (Z.testbit code n);
            done. }
        split; [done|]. split; [done|].
        intros name' code' [->|Hin]%elem_of_cons Hget'; [congruence|eauto].
    + rewrite JsNumber_or_byte by lia. rewrite Z.lor_0_r.
      destruct (IH modKey Hbyte) as [Hnone Hsome].
      split.
      * rewrite Hnone, Exists_cons. split; [by right|].
        intros [Hundef|?]; [congruence|done].
      * intros result Hresult.
        destruct (Hsome result Hresult) as (Hres & Hland & Hnames).
        split; [done|]. split; [done|].
        intros name' code' [->|Hin]%elem_of_cons Hget'; [congruence|eauto].
    + split.
      * split; [|done]. intros _. apply Exists_cons. by left.
      * discriminate.
Qed.

(** X12: [createModKey] is [undefined] exactly when some name is no
    property of [ModKey] at all; a name [ModKey] only inherits from
    [Object.prototype] ('constructor', 'toString', ...) is not refused
    and adds no bit. When it returns, the result is a byte that holds
    the bit of every modifier name given. *)
Theorem createModKey_undefined_iff (names : list string) :
  (Types.createModKey names = None
   <-> exists name, name ∈ names
                    /\ JsObject.get Types.ModKey name = JsObject.Undefined)
  /\ (forall name, name ∈ JsObject.prototype_names ->
        Types.createModKey (name :: names) = Types.createModKey names)
  /\ forall result,
      Types.createModKey names = Some result ->
      0 <= result <= 0xFF
      /\ forall name code,
          name ∈ names -> JsObject.get Types.ModKey name = JsObject.Own code ->
          Z.land result code = code.
Proof.
  destruct (createModKey_loop_spec names 0 ltac:(lia)) as [Hnone Hsome].
  split; [|split].
  - unfold Types.createModKey. rewrite Hnone. apply Exists_exists.
  - intros name Hname. unfold Types.createModKey. cbn [Types.createModKey_loop].
    assert (JsObject.get Types.ModKey name = JsObject.Inherited) as ->; [|reflexivity].
    revert Hname. unfold JsObject.prototype_names.
    rewrite !elem_of_cons, elem_of_nil.
    intros Hname; repeat (destruct Hname as [->|Hname]; [reflexivity|]); done.
  - intros result Hresult. destruct (Hsome result Hresult) as (? & _ & ?). done.
Qed.

(* ===================================================================== *)
(** ** Named mouse and consumer actions (types.ts) *)
(* ===================================================================== *)

Lemma find_Some_elem {A} (f : A -> bool) (l : list A) (x : A) :
  List.find f l = Some x -> x ∈ l /\ f x = true.
Proof.
  intros Hfind. apply find_some in Hfind as [Hin Hf].
  split; [by apply list_elem_of_In|done].
Qed.

Lemma mouse_entries :
  Forall (fun e => Types.findMouseAction (fst e) = JsObject.Own (snd e)
                   /\ Types.findMouseActionName (snd e) = Some (fst e)
                   /\ MouseAction.modKey (snd e) = 0)
    Types.mouse.
Proof. repeat constructor. Qed.

(** X13: the [mouse] table names each action once. Every name of the
    table is found by [findMouseAction], and [findMouseActionName] of
    its action gives the name back; whenever [findMouseActionName]
    finds a name, [findMouseAction] of that name is the action; and an
    action of the table with modifier bits applied is formatted as the
    modifier names and the action's name joined by '+'. *)
Theorem mouse_names_round_trip :
  (forall name action,
      (name, action) ∈ Types.mouse ->
      Types.findMouseAction name = JsObject.Own action
      /\ Types.findMouseActionName action = Some name)
  /\ (forall action name,
      Types.findMouseActionName action = Some name ->
      Types.findMouseAction name = JsObject.Own action)
  /\ (forall name action bits,
      (name, action) ∈ Types.mouse -> 0 <= bits <= 0xFF ->
      Types.formatMouseAction (Types.applyModKey action bits)
      = Ok (Types.combineModKeyAndActionName bits name)).
Proof.
  pose proof (proj1 (Forall_forall _ _) mouse_entries) as Hentries.
  split; [|split].
  - intros name action Hin. destruct (Hentries _ Hin) as (? & ? & _). done.
  - intros action name Hfind. unfold Types.findMouseActionName in Hfind.
    destruct (List.find _ Types.mouse) as [[name' action']|] eqn:Hentry; [|done].
    injection Hfind as <-.
    apply find_Some_elem in Hentry as [Hin Heq].
    apply bool_decide_eq_true in Heq. cbn in Heq. subst action'.
    by destruct (Hentries _ Hin) as (? & _).
  - intros name action bits Hin Hbits.
    destruct (Hentries _ Hin) as (_ & Hname & Hmod). cbn [fst snd] in Hname, Hmod.
    unfold Types.formatMouseAction, Types.applyModKey.
    cbn [Types.modKey Types.withModKey Types.MouseAction_WithModKey
         MouseAction.modKey MouseAction.button MouseAction.x MouseAction.y
         MouseAction.wheel].
    rewrite Hmod, JsNumber_or_byte by lia. rewrite Z.lor_0_l.
    assert (MouseAction.mk 0 (MouseAction.button action) (MouseAction.x action)
              (MouseAction.y action) (MouseAction.wheel action) = action) as ->.
    { destruct action. cbn in Hmod. by subst. }
    rewrite Hname.
    assert (name <> EmptyString) as Hne.
    { intros ->. revert Hin. unfold Types.mouse.
      rewrite !elem_of_cons, elem_of_nil. intros H.
      repeat (destruct H as [[=]|H]). done. }
    destruct name; [done|]. reflexivity.
Qed.

Lemma mouse_names_round_trip_witness :
  Types.formatMouseAction (Types.applyModKey Types.mouse_LButton 0x03)
  = Ok "Ctrl+Shift+LButton"%string.
Proof.
  apply (proj2 (proj2 mouse_names_round_trip) "LButton"%string Types.mouse_LButton 0x03).
  - apply elem_of_cons. by left.
  - lia.
Defined.

Lemma media_entries :
  Forall (fun e => Types.findConsumerAction (fst e) = JsObject.Own (snd e)
                   /\ Types.findConsumerActionName (snd e) = Some (fst e)
                   /\ Types.formatConsumerAction (snd e) = fst e)
    Types.media.
Proof. repeat constructor. Qed.

(** X14: the [media] table names each consumer action once. Every
    name of the table is found by [findConsumerAction], its action is
    formatted as that name, and whenever [findConsumerActionName] finds
    a name, [findConsumerAction] of it is the action; an action that is
    not in the table has no name. *)
Theorem media_names_round_trip :
  (forall name action,
      (name, action) ∈ Types.media ->
      Types.findConsumerAction name = JsObject.Own action
      /\ Types.findConsumerActionName action = Some name
      /\ Types.formatConsumerAction action = name)
  /\ (forall action name,
      Types.findConsumerActionName action = Some name ->
      Types.findConsumerAction name = JsObject.Own action
      /\ Types.formatConsumerAction action = name)
  /\ (forall action,
      action ∉ (snd <$> Types.media) ->
      Types.findConsumerActionName action = None).
Proof.
  pose proof (proj1 (Forall_forall _ _) media_entries) as Hentries.
  split; [|split].
  - intros name action Hin. by destruct (Hentries _ Hin) as (? & ? & ?).
  - intros action name Hfind. unfold Types.findConsumerActionName in Hfind.
    destruct (List.find _ Types.media) as [[name' action']|] eqn:Hentry; [|done].
    injection Hfind as <-.
    apply find_Some_elem in Hentry as [Hin Heq].
    apply bool_decide_eq_true in Heq. cbn in Heq. subst action'.
    by destruct (Hentries _ Hin) as (? & _ & ?).
  - intros action Hnotin. unfold Types.findConsumerActionName.
    destruct (List.find _ Types.media) as [[name' action']|] eqn:Hentry; [|done].
    apply find_Some_elem in Hentry as [Hin Heq].
    apply bool_decide_eq_true in Heq. cbn in Heq. subst action'.
    exfalso. apply Hnotin. by apply (list_elem_of_fmap_2 snd) in Hin.
Qed.

Lemma media_names_round_trip_witness :
  Types.findConsumerAction "Calculator"
  = JsObject.Own (Types.Consumer 0x0192)
  /\ Types.findConsumerActionName (Types.Consumer 0x0192) = Some "Calculator"%string
  /\ Types.formatConsumerAction (Types.Consumer 0x0192) = "Calculator"%string.
Proof.
  apply (proj1 media_names_round_trip "Calculator"%string (Types.Consumer 0x0192)).
  apply list_elem_of_In. vm_compute. tauto.
Defined.

(* ===================================================================== *)
(** ** Mouse moves and wheel ticks (types.ts, api.ts) *)
(* ===================================================================== *)

Lemma fromInt8_toInt8_clamp (n : Z) :
  Utils.fromInt8 (Utils.toInt8 n) = Ok (clampInt8 n).
Proof.
  rewrite fromInt8_byte by apply toInt8_byte. f_equal.
  unfold Utils.toInt8, clampInt8. repeat case_match; lia.
Qed.

Lemma toInt8_clamp (n : Z) :
  Utils.toInt8 n = if 0 <=? clampInt8 n then clampInt8 n else 0x100 + clampInt8 n.
Proof. unfold Utils.toInt8, clampInt8. repeat case_match; lia. Qed.

(** X15: [Move] and [Wheel] build mouse actions the wire can carry,
    for all integers: the KeyMap of [Move x y] and of [Wheel wheel
    modKey] (for modifier bits that are a byte) is valid, packs to 12
    bytes, and comes back from unpacking any 4-byte header followed by
    these bytes; the deltas it stores read back, as signed bytes, as
    [x], [y] and [wheel] clamped to [-128, 127]. *)
Theorem Move_Wheel_round_trip (x y wheel modKey : Z) (header : list Z) (action : MouseAction.t) :
  length header = 4%nat ->
  0 <= modKey <= 0xFF ->
  action = Types.Move x y \/ action = Types.Wheel wheel modKey ->
  valid_KeyMap (createKeyMapMouse action) = true
  /\ (exists data k,
        packKeyMap (createKeyMapMouse action) = Ok data
        /\ length data = 12%nat
        /\ unpackKeyMapWithId (header ++ data) = Ok k
        /\ KeyMapWithId.keyMap k = createKeyMapMouse action)
  /\ Utils.fromInt8 (MouseAction.x (Types.Move x y)) = Ok (clampInt8 x)
  /\ Utils.fromInt8 (MouseAction.y (Types.Move x y)) = Ok (clampInt8 y)
  /\ Utils.fromInt8 (MouseAction.wheel (Types.Wheel wheel modKey)) = Ok (clampInt8 wheel)
  /\ MouseAction.modKey (Types.Wheel wheel modKey) = modKey.
Proof.
  intros Hheader HmodKey Haction.
  assert (valid_KeyMap (createKeyMapMouse action) = true) as Hvalid.
  { pose proof (toInt8_byte x). pose proof (toInt8_byte y).
    pose proof (toInt8_byte wheel).
    destruct Haction as [-> | ->]; cbn; unfold Buffer.is_byte;
      rewrite !andb_true_iff; lia. }
  split; [done|]. split.
  - destruct (valid_KeyMap_round_trip header _ Hheader Hvalid)
      as (data & k & Hpack & Hunpack & Hk & _).
    exists data, k. repeat split; try done.
    cbn in Hpack. by injection Hpack as <-.
  - change (MouseAction.x (Types.Move x y)) with (Utils.toInt8 x).
    change (MouseAction.y (Types.Move x y)) with (Utils.toInt8 y).
    change (MouseAction.wheel (Types.Wheel wheel modKey)) with (Utils.toInt8 wheel).
    by rewrite !fromInt8_toInt8_clamp.
Qed.

Lemma Move_Wheel_round_trip_witness :
  valid_KeyMap (createKeyMapMouse (Types.Move 300 (-1))) = true
  /\ Utils.fromInt8 (MouseAction.x (Types.Move 300 (-1))) = Ok 127.
Proof.
  destruct (Move_Wheel_round_trip 300 (-1) 0 0 [0x03; 0xfa; 1; 1] (Types.Move 300 (-1)))
    as (Hvalid & _ & Hx & _); [reflexivity|lia|by left|].
  split; [exact Hvalid|exact Hx].
Defined.

Lemma MouseAction_eqb (a b : MouseAction.t) :
  bool_decide (a = b)
  = (MouseAction.modKey a =? MouseAction.modKey b)
    && (MouseAction.button a =? MouseAction.button b)
    && (MouseAction.x a =? MouseAction.x b)
    && (MouseAction.y a =? MouseAction.y b)
    && (MouseAction.wheel a =? MouseAction.wheel b).
Proof.
  destruct a, b. cbn. case_bool_decide as Heq.
  - injection Heq as -> -> -> -> ->. by rewrite !Z.eqb_refl.
  - symmetry. apply not_true_is_false. intros Hall.
    rewrite !andb_true_iff, !Z.eqb_eq in Hall. apply Heq.
    destruct Hall as ((((-> & ->) & ->) & ->) & ->). done.
Qed.

(** The name of a mouse action with no modifier, by its fields. *)
Lemma findMouseActionName_fields button x y wheel :
  Types.findMouseActionName (MouseAction.mk 0 button x y wheel)
  = if (button =? 1) && (x =? 0) && (y =? 0) && (wheel =? 0) then Some "LButton"
    else if (button =? 2) && (x =? 0) && (y =? 0) && (wheel =? 0) then Some "RButton"
    else if (button =? 4) && (x =? 0) && (y =? 0) && (wheel =? 0) then Some "MButton"
    else if (button =? 0) && (x =? 0) && (y =? 1) && (wheel =? 0) then Some "MoveDown"
    else if (button =? 0) && (x =? 0) && (y =? 0xFF) && (wheel =? 0) then Some "MoveUp"
    else if (button =? 0) && (x =? 1) && (y =? 0) && (wheel =? 0) then Some "MoveRight"
    else if (button =? 0) && (x =? 0xFF) && (y =? 0) && (wheel =? 0) then Some "MoveLeft"
    else if (button =? 0) && (x =? 0) && (y =? 0) && (wheel =? 1) then Some "WheelUp"
    else if (button =? 0) && (x =? 0) && (y =? 0) && (wheel =? 0xFF) then Some "WheelDown"
    else None.
Proof.
  unfold Types.findMouseActionName, Types.mouse. cbn [List.find snd].
  rewrite !MouseAction_eqb.
  cbn [MouseAction.modKey MouseAction.button MouseAction.x MouseAction.y
       MouseAction.wheel Types.mouse_LButton Types.mouse_RButton Types.mouse_MButton
       Types.mouse_MoveDown Types.mouse_MoveUp Types.mouse_MoveRight
       Types.mouse_MoveLeft Types.mouse_WheelUp Types.mouse_WheelDown
       Types.Move Types.Wheel Types.Mouse MouseAction.p_modKey MouseAction.p_button
       MouseAction.p_x MouseAction.p_y MouseAction.p_wheel default
       Types.emptyMouseAction Types.MouseButtonLeft Types.MouseButtonRight
       Types.MouseButtonMiddle].
  change (Utils.toInt8 0) with 0. change (Utils.toInt8 1) with 1.
  change (Utils.toInt8 (-1)) with 0xFF.
  unfold id, Types.MouseButtonLeft, Types.MouseButtonRight, Types.MouseButtonMiddle.
  change (0 =? 0) with true. cbn [andb].
  repeat (match goal with
          | |- context [?a =? ?b] => destruct (a =? b) eqn:?
          end; cbn [andb fmap option_fmap option_map fst]; try reflexivity; try lia).
Qed.

Lemma toInt8_eqb (n : Z) :
  (Utils.toInt8 n =? 0) = (clampInt8 n =? 0)
  /\ (Utils.toInt8 n =? 1) = (clampInt8 n =? 1)
  /\ (Utils.toInt8 n =? 0xFF) = (clampInt8 n =? -1).
Proof.
  pose proof (toInt8_clamp n) as Hn.
  assert (-128 <= clampInt8 n <= 127) by (unfold clampInt8; lia).
  destruct (0 <=? clampInt8 n) eqn:?; repeat split; lia.
Qed.

Lemma combineModKeyAndActionName_no_modKey name :
  Types.combineModKeyAndActionName 0 name = name.
Proof. reflexivity. Qed.

(** X16: a move or a wheel tick is shown with its signed, clamped
    deltas. [formatMouseAction (Move x y)] is the name of the move when
    the clamped deltas are those of MoveDown, MoveUp, MoveRight or
    MoveLeft, and 'Move(cx,cy)' with the deltas clamped to [-128, 127]
    otherwise; [formatMouseAction (Wheel wheel modKey)] is, after the
    modifier names, WheelUp, WheelDown or 'Wheel(cw)', and 'Move(0,0)'
    for a wheel of 0. The JSON fallback is never used for them. *)
Theorem formatMouseAction_deltas (x y wheel modKey : Z) :
  0 <= modKey <= 0xFF ->
  let cx := clampInt8 x in
  let cy := clampInt8 y in
  let cw := clampInt8 wheel in
  Types.formatMouseAction (Types.Move x y)
  = Ok (if (cx =? 0) && (cy =? 1) then "MoveDown"%string
        else if (cx =? 0) && (cy =? -1) then "MoveUp"%string
        else if (cx =? 1) && (cy =? 0) then "MoveRight"%string
        else if (cx =? -1) && (cy =? 0) then "MoveLeft"%string
        else "Move(" +:+ Types.number_text cx +:+ "," +:+ Types.number_text cy +:+ ")")
  /\ Types.formatMouseAction (Types.Wheel wheel modKey)
     = Ok (Types.combineModKeyAndActionName modKey
             (if cw =? 1 then "WheelUp"%string
              else if cw =? -1 then "WheelDown"%string
              else if cw =? 0 then "Move(0,0)"%string
              else "Wheel(" +:+ Types.number_text cw +:+ ")")).
Proof.
  intros HmodKey cx cy cw.
  destruct (toInt8_eqb x) as (Hx0 & Hx1 & Hxm).
  destruct (toInt8_eqb y) as (Hy0 & Hy1 & Hym).
  destruct (toInt8_eqb wheel) as (Hw0 & Hw1 & Hwm).
  fold cx in Hx0, Hx1, Hxm. fold cy in Hy0, Hy1, Hym. fold cw in Hw0, Hw1, Hwm.
  pose proof (fromInt8_toInt8_clamp x) as Hfx. fold cx in Hfx.
  pose proof (fromInt8_toInt8_clamp y) as Hfy. fold cy in Hfy.
  pose proof (fromInt8_toInt8_clamp wheel) as Hfw. fold cw in Hfw.
  split.
  - unfold Types.formatMouseAction.
    change (Types.Move x y) with (MouseAction.mk 0 0 (Utils.toInt8 x) (Utils.toInt8 y) 0).
    cbn [MouseAction.modKey MouseAction.button MouseAction.x MouseAction.y
         MouseAction.wheel].
    rewrite findMouseActionName_fields.
    unfold Types.formatMouseActionAsWheel, Types.formatMouseActionAsMove,
      Types.some_nonzero.
    cbn [MouseAction.modKey MouseAction.button MouseAction.x MouseAction.y
         MouseAction.wheel List.find].
    rewrite Hfx, Hfy, Hx0, Hx1, Hxm, Hy0, Hy1, Hym.
    change (0 =? 0) with true. change (0 =? 1) with false.
    change (0 =? 2) with false. change (0 =? 4) with false.
    change (0 =? 0xFF) with false.
    destruct (cx =? 0) eqn:?, (cy =? 1) eqn:?, (cy =? -1) eqn:?, (cx =? 1) eqn:?,
      (cy =? 0) eqn:?, (cx =? -1) eqn:?; try lia; reflexivity.
  - unfold Types.formatMouseAction.
    change (Types.Wheel wheel modKey)
      with (MouseAction.mk modKey 0 0 0 (Utils.toInt8 wheel)).
    cbn [MouseAction.modKey MouseAction.button MouseAction.x MouseAction.y
         MouseAction.wheel].
    rewrite findMouseActionName_fields.
    unfold Types.formatMouseActionAsWheel, Types.formatMouseActionAsMove,
      Types.some_nonzero.
    cbn [MouseAction.modKey MouseAction.button MouseAction.x MouseAction.y
         MouseAction.wheel List.find].
    rewrite Hfw, Hw0, Hw1, Hwm.
    change (0 =? 0) with true. change (0 =? 1) with false.
    change (0 =? 2) with false. change (0 =? 4) with false.
    change (0 =? 0xFF) with false.
    clear Hx0 Hx1 Hxm Hy0 Hy1 Hym Hw0 Hw1 Hwm Hfx Hfy Hfw.
    change (Utils.fromInt8 0) with (@Ok Z 0).
    destruct (cw =? 1) eqn:?, (cw =? -1) eqn:?, (cw =? 0) eqn:?; try lia;
      cbn [andb negb bind Types.or_else default String.append];
      try change (Types.number_text 0) with "0"%string;
      cbn [andb negb bind Types.or_else default String.append]; unfold id;
      exact eq_refl.
Qed.

Lemma formatMouseAction_deltas_witness :
  Types.formatMouseAction (Types.Move (-200) 2) = Ok "Move(-128,2)"%string
  /\ Types.formatMouseAction (Types.Wheel (-2) 0x01) = Ok "Ctrl+Wheel(-2)"%string.
Proof.
  apply (formatMouseAction_deltas (-200) 2 (-2) 0x01). lia.
Defined.

(* ===================================================================== *)
(** ** The key tables and the texts of key actions
       (tools/generate-key-actions.ts, key-action.ts, cli-impl.ts) *)
(* ===================================================================== *)

Example createKeyRecord_vector :
  GenerateKeyActions.createKeyRecord
    [KeyCodeDef.mk 0x01 None None (Some "a") (Some "A");
     KeyCodeDef.mk 0x02 (Some ["X"]) None None None;
     KeyCodeDef.mk 0x03 None (Some ["Y"]) None None]%string
  = KeyRecords.mk
      [("X", KeyAction.mk 0 0x02); ("Y", KeyAction.mk Types.ModKey_Shift 0x03)]%string
      [("a", KeyAction.mk 0 0x01); ("A", KeyAction.mk Types.ModKey_Shift 0x01)]%string.
Proof. reflexivity. Qed.

Example formatKeyAction_vectors :
  (KeyActions.formatKeyAction
     <$> [KeyAction.mk 0 0x04; KeyAction.mk 0 0x44; Types.Ctrl (KeyAction.mk 0 0x44);
          Types.Shift (Types.Ctrl (KeyAction.mk 0 0x44)); KeyAction.mk 0x02 0x35;
          Types.createKeyAction 0xFF 0])
  = [Text "A"; Text "F11"; Text "Ctrl+F11"; Text "Ctrl+Shift+F11"; Text "Tilde";
     JSON (KeyAction.mk 0 0xFF)]%string
  /\ (KeyActions.toCharacter
        <$> [KeyAction.mk 0 0x04; KeyAction.mk 0 0x44; KeyAction.mk 0x02 0x35])
     = [Some "a"; None; Some "~"]%string.
Proof. split; vm_compute; reflexivity. Qed.

Example createKeyMapFromText_vectors :
  Cli.createKeyMapFromActionDef (DefText "Hello!")
  = Done (KeyMapKeys [KeyAction.mk 2 0x0B; KeyAction.mk 0 0x08; KeyAction.mk 0 0x0F;
                      KeyAction.mk 0 0x0F; KeyAction.mk 0 0x12; KeyAction.mk 2 0x1E])
  /\ (Cli.parseKeyMapFromKeyText <$> ["A B"; "Ctrl+LButton"; "MyComputer"]%string)
     = [Done (KeyMapKeys [KeyAction.mk 0 0x04; KeyAction.mk 0 0x05]);
        Done (KeyMapMouse (Types.Ctrl Types.mouse_LButton));
        Done (KeyMapConsumer (Types.Consumer 0x0194))]
  /\ (Cli.createKeyMapFromText <$> ["A"; "@A"]%string)
     = [Done (KeyMapKeys [KeyAction.mk 0 0x04]); Done (KeyMapKeys [KeyAction.mk 2 0x04])].
Proof. repeat split; vm_compute; reflexivity. Qed.

Example resolveKeyId_vectors :
  ((fun o => Cli.resolveKeyId (KeypadInfo.mk 3 1)
               (SetKeyMapOptions.mk (CommonOptions.mk None None None None) 1
                  (fst (fst o)) (snd (fst o)) (OptionText <$> snd o)))
     <$> [(Some 2, None, None); (Some 6, None, None); (Some 2, Some 3, Some "Left");
          (None, Some 1, Some "Left")]%string)
  = [Done 2; Done 6; Done 2; Done 4].
Proof. vm_compute. reflexivity. Qed.

(** *** Strings *)

Lemma split_no_separator (separator : Ascii.ascii) (s : string) :
  has_unit separator s = false -> JsString.split separator s = [s].
Proof.
  induction s as [|c s IH]; [done|]. cbn [has_unit JsString.split].
  intros Hs. apply orb_false_elim in Hs as [Hc Hs].
  rewrite Hc, IH by done. done.
Qed.

Lemma split_append (separator : Ascii.ascii) (s t : string) :
  has_unit separator s = false ->
  JsString.split separator (s +:+ String separator t) = s :: JsString.split separator t.
Proof.
  induction s as [|c s IH]; simpl.
  - intros _. by rewrite Ascii.eqb_refl.
  - intros Hs. apply orb_false_elim in Hs as [Hc Hs].
    rewrite Hc, IH by done. done.
Qed.

Lemma split_concat (separator : Ascii.ascii) (l : list string) :
  l <> [] ->
  Forall (fun s => has_unit separator s = false) l ->
  JsString.split separator (String.concat (String separator EmptyString) l) = l.
Proof.
  induction l as [|s l IH]; [done|]. intros _ Hl.
  apply Forall_cons in Hl as [Hs Hl].
  destruct l as [|s' l]; [by apply split_no_separator|].
  change (String.concat (String separator EmptyString) (s :: s' :: l))
    with (s +:+ String separator
            (String.concat (String separator EmptyString) (s' :: l))).
  rewrite split_append by done. by rewrite IH.
Qed.

Lemma join_split_units (text : string) :
  JsString.join (JsString.split_units text) = text.
Proof.
  unfold JsString.join.
  induction text as [|c text IH]; [done|].
  cbn [JsString.split_units]. destruct text as [|c' text]; [done|].
  cbn [JsString.split_units] in *.
  change (String.concat EmptyString (String c EmptyString :: ?l))
    with (String c (String.concat EmptyString l)).
  cbn [String.concat]. cbn [String.concat] in IH.
  cbn [String.append]. by rewrite IH.
Qed.

(** *** The records of key actions *)

Lemma get_Own_elem {A} (record : JsObject.t A) (name : string) (a : A) :
  JsObject.get record name = JsObject.Own a -> (name, a) ∈ record.
Proof.
  unfold JsObject.get. intros Hget.
  destruct (List.find _ record) as [[name' a']|] eqn:Hfind.
  - injection Hget as <-. apply find_Some_elem in Hfind as [Hin Hname].
    cbn in Hname. apply String.eqb_eq in Hname. by subst.
  - by destruct (bool_decide _).
Qed.

Lemma find_value_elem {A} (f : string * A -> bool) (record : JsObject.t A) (name : string) :
  fst <$> List.find f record = Some name ->
  exists a, (name, a) ∈ record /\ f (name, a) = true.
Proof.
  destruct (List.find f record) as [[name' a]|] eqn:Hfind; [|done].
  intros [= <-]. apply find_Some_elem in Hfind as [Hin Hf]. by exists a.
Qed.

Lemma all_units_complete (u : Ascii.ascii) : u ∈ all_units.
Proof.
  unfold all_units. apply list_elem_of_fmap.
  exists (Ascii.nat_of_ascii u). split; [by rewrite Ascii.ascii_nat_embedding|].
  apply elem_of_seq. pose proof (Ascii.nat_ascii_bounded u). lia.
Qed.

Lemma dict_entries :
  Forall (fun e => KeyActions.fromCharacter (fst e) = JsObject.Own (snd e)
                   /\ KeyActions.toCharacter (snd e) = Some (fst e)
                   /\ String.length (fst e) = 1%nat
                   /\ valid_KeyAction (snd e) = true
                   /\ (KeyAction.modKey (snd e) = 0
                       \/ KeyAction.modKey (snd e) = Types.ModKey_Shift))
    KeyActionRecord.dict.
Proof.
  apply Forall_forall. intros e He.
  assert (forallb
            (fun e => bool_decide (KeyActions.fromCharacter (fst e) = JsObject.Own (snd e))
                      && bool_decide (KeyActions.toCharacter (snd e) = Some (fst e))
                      && (String.length (fst e) =? 1)%nat
                      && valid_KeyAction (snd e)
                      && ((KeyAction.modKey (snd e) =? 0)
                          || (KeyAction.modKey (snd e) =? Types.ModKey_Shift)))
            KeyActionRecord.dict = true) as Hall by (vm_compute; reflexivity).
  rewrite forallb_forall in Hall. apply list_elem_of_In in He.
  specialize (Hall e He).
  repeat (apply andb_prop in Hall as [Hall ?]).
  repeat match goal with
         | H : bool_decide _ = true |- _ => apply bool_decide_eq_true in H
         end.
  match goal with H : (_ =? _)%nat = true |- _ => apply Nat.eqb_eq in H end.
  match goal with
  | H : (_ || _) = true |- _ => apply orb_prop in H as [H|H]; apply Z.eqb_eq in H
  end; repeat split; auto.
Qed.

Lemma dict_units :
  Forall (fun u => match KeyActions.fromCharacter (String u EmptyString) with
                   | JsObject.Own _ => typeable u = true
                   | JsObject.Inherited => False
                   | JsObject.Undefined => typeable u = false
                   end)
    all_units.
Proof.
  apply Forall_forall. intros u Hu.
  assert (forallb (fun u => match KeyActions.fromCharacter (String u EmptyString) with
                            | JsObject.Own _ => typeable u
                            | JsObject.Inherited => false
                            | JsObject.Undefined => negb (typeable u)
                            end) all_units = true) as Hall by (vm_compute; reflexivity).
  rewrite forallb_forall in Hall. apply list_elem_of_In in Hu.
  specialize (Hall u Hu).
  destruct (KeyActions.fromCharacter _); [done|done|].
  by apply negb_true_iff.
Qed.

Lemma fromCharacter_toCharacter (c : string) (keyAction : KeyAction.t) :
  KeyActions.fromCharacter c = JsObject.Own keyAction ->
  KeyActions.toCharacter keyAction = Some c
  /\ String.length c = 1%nat
  /\ valid_KeyAction keyAction = true
  /\ (KeyAction.modKey keyAction = 0 \/ KeyAction.modKey keyAction = Types.ModKey_Shift).
Proof.
  intros Hget. apply get_Own_elem in Hget.
  pose proof (proj1 (Forall_forall _ _) dict_entries _ Hget) as (_ & ? & ? & ? & ?).
  done.
Qed.

Lemma toCharacter_fromCharacter (keyAction : KeyAction.t) (c : string) :
  KeyActions.toCharacter keyAction = Some c ->
  KeyActions.fromCharacter c = JsObject.Own keyAction.
Proof.
  intros Hfind. apply find_value_elem in Hfind as (a & Hin & Heq).
  apply bool_decide_eq_true in Heq. cbn in Heq. subst a.
  by pose proof (proj1 (Forall_forall _ _) dict_entries _ Hin) as (? & _).
Qed.

Lemma fromCharacter_unit (u : Ascii.ascii) :
  match KeyActions.fromCharacter (String u EmptyString) with
  | JsObject.Own _ => typeable u = true
  | JsObject.Inherited => False
  | JsObject.Undefined => typeable u = false
  end.
Proof. exact (proj1 (Forall_forall _ _) dict_units u (all_units_complete u)). Qed.

(** X17: the [dict] record the generator builds is a bijection between
    characters and key actions. A character that [fromCharacter] finds
    is given back by [toCharacter], and the other way round; the key
    action of a character has byte fields and no modifier but Shift;
    and the characters of [dict] are exactly the strings of one
    typeable character: the printable ASCII characters, the tab and the
    line feed. *)
Theorem dict_round_trip :
  (forall c keyAction,
      KeyActions.fromCharacter c = JsObject.Own keyAction ->
      KeyActions.toCharacter keyAction = Some c
      /\ valid_KeyAction keyAction = true
      /\ (KeyAction.modKey keyAction = 0
          \/ KeyAction.modKey keyAction = Types.ModKey_Shift))
  /\ (forall keyAction c,
      KeyActions.toCharacter keyAction = Some c ->
      KeyActions.fromCharacter c = JsObject.Own keyAction)
  /\ (forall c,
      (exists keyAction, KeyActions.fromCharacter c = JsObject.Own keyAction)
      <-> exists u, c = String u EmptyString /\ typeable u = true).
Proof.
  split; [|split].
  - intros c keyAction Hget.
    by destruct (fromCharacter_toCharacter _ _ Hget) as (? & _ & ? & ?).
  - apply toCharacter_fromCharacter.
  - intros c. split.
    + intros [keyAction Hget].
      destruct (fromCharacter_toCharacter _ _ Hget) as (_ & Hlen & _).
      destruct c as [|u [|]]; try discriminate Hlen.
      exists u. split; [done|].
      pose proof (fromCharacter_unit u) as Hu. by rewrite Hget in Hu.
    + intros (u & -> & Hu).
      pose proof (fromCharacter_unit u) as Hunit.
      destruct (KeyActions.fromCharacter (String u EmptyString)) as [keyAction| |];
        [by exists keyAction|done|congruence].
Qed.

(** *** Texts of key actions *)

Lemma split_units_single (text : string) :
  Forall (fun c => exists u, c = String u EmptyString) (JsString.split_units text).
Proof.
  induction text as [|u text IH]; cbn [JsString.split_units]; [done|].
  constructor; [by exists u|done].
Qed.

Lemma split_units_length (text : string) :
  length (JsString.split_units text) = String.length text.
Proof. induction text as [|u text IH]; cbn; [done|]. by rewrite IH. Qed.

Lemma split_units_join (cs : list string) :
  Forall (fun c => String.length c = 1%nat) cs ->
  JsString.split_units (JsString.join cs) = cs.
Proof.
  unfold JsString.join.
  induction cs as [|c cs IH]; [done|]. intros Hcs.
  apply Forall_cons in Hcs as [Hc Hcs].
  destruct c as [|u [|]]; try discriminate Hc.
  destruct cs as [|c' cs]; [done|].
  change (String.concat EmptyString (String u EmptyString :: c' :: cs))
    with (String u (String.concat EmptyString (c' :: cs))).
  cbn [JsString.split_units]. by rewrite IH.
Qed.

Lemma createKeyActionsFromText_loop_Done (text : string) (units : list string) (i : Z)
    (keys : list KeyAction.t) :
  Cli.createKeyActionsFromText_loop text units i = Done keys
  <-> Forall2 (fun c k => KeyActions.fromCharacter c = JsObject.Own k) units keys.
Proof.
  revert i keys. induction units as [|c units IH]; intros i keys; cbn [Cli.createKeyActionsFromText_loop].
  - split; [intros [= <-]; constructor|intros H; by inversion H].
  - destruct (KeyActions.fromCharacter c) as [k| |] eqn:Hc.
    + destruct (Cli.createKeyActionsFromText_loop text units (i + 1)) as [keys'| |] eqn:Hloop;
        cbn [outcome_bind].
      * split.
        -- intros [= <-]. constructor; [done|]. by apply (IH (i + 1)).
        -- intros H. inversion H as [|? k' ? keys'' Hk Hrest]; subst.
           apply (IH (i + 1)) in Hrest. congruence.
      * split; [done|]. intros H. inversion H as [|? k' ? keys'' Hk Hrest]; subst.
        apply (IH (i + 1)) in Hrest. congruence.
      * split; [done|]. intros H. inversion H as [|? k' ? keys'' Hk Hrest]; subst.
        apply (IH (i + 1)) in Hrest. congruence.
    + split; [done|]. intros H. inversion H; congruence.
    + split; [done|]. intros H. inversion H; congruence.
Qed.

Lemma createKeyActionsFromText_loop_Thrown (text : string) (units : list string) (i : Z)
    (e : thrown) :
  Cli.createKeyActionsFromText_loop text units i = Thrown e ->
  exists pre c post,
    units = pre ++ c :: post
    /\ Forall (fun c' => exists k, KeyActions.fromCharacter c' = JsObject.Own k) pre
    /\ KeyActions.fromCharacter c = JsObject.Undefined
    /\ e = ConfigurationError
             ("cannot convert character '" +:+ c +:+ "' at index "
              +:+ Types.number_text (i + Z.of_nat (length pre))
              +:+ " into a valid KeyAction. Full text: " +:+ text) [].
Proof.
  revert i e. induction units as [|c units IH]; intros i e;
    cbn [Cli.createKeyActionsFromText_loop]; [done|].
  destruct (KeyActions.fromCharacter c) as [k| |] eqn:Hc.
  - destruct (Cli.createKeyActionsFromText_loop text units (i + 1)) as [keys'|e'|] eqn:Hloop;
      cbn [outcome_bind]; [done| |done].
    intros [= <-]. destruct (IH (i + 1) _ Hloop) as (pre & c' & post & -> & Hpre & Hc' & ->).
    exists (c :: pre), c', post. split; [done|]. split; [constructor; eauto|].
    split; [done|]. cbn [length]. rewrite Nat2Z.inj_succ.
    replace (i + Z.succ (Z.of_nat (length pre))) with (i + 1 + Z.of_nat (length pre))
      by lia.
    reflexivity.
  - done.
  - intros [= <-]. exists [], c, units. split; [done|]. split; [constructor|].
    split; [done|]. cbn [length]. change (Z.of_nat 0) with 0. by rewrite Z.add_0_r.
Qed.

Lemma createKeyActionsFromText_loop_in_model (text : string) (units : list string) (i : Z) :
  Forall (fun c => exists u, c = String u EmptyString) units ->
  Cli.createKeyActionsFromText_loop text units i <> OutOfModel.
Proof.
  revert i. induction units as [|c units IH]; intros i Hunits;
    cbn [Cli.createKeyActionsFromText_loop]; [done|].
  apply Forall_cons in Hunits as [[u ->] Hunits].
  pose proof (fromCharacter_unit u) as Hu.
  destruct (KeyActions.fromCharacter (String u EmptyString)) as [k| |]; [|done|done].
  specialize (IH (i + 1) Hunits).
  by destruct (Cli.createKeyActionsFromText_loop text units (i + 1)).
Qed.

Lemma toString_loop_Some (keyActions : list KeyAction.t) (array : list string) (text : string) :
  KeyActions.toString_loop keyActions array = Some text
  <-> exists cs,
      Forall2 (fun k c => KeyActions.toCharacter k = Some c) keyActions cs
      /\ text = JsString.join (array ++ cs).
Proof.
  revert array. induction keyActions as [|k keyActions IH]; intros array;
    cbn [KeyActions.toString_loop].
  - split.
    + intros [= <-]. exists []. split; [constructor|]. by rewrite app_nil_r.
    + intros (cs & Hcs & ->). inversion Hcs. by rewrite app_nil_r.
  - destruct (KeyActions.toCharacter k) as [c|] eqn:Hk.
    + rewrite IH. split.
      * intros (cs & Hcs & ->). exists (c :: cs). split; [by constructor|].
        by rewrite <- app_assoc.
      * intros (cs & Hcs & ->). inversion Hcs as [|? c' ? cs' Hc' Hrest]; subst.
        exists cs'. split; [done|]. rewrite <- app_assoc. cbn. congruence.
    + split; [done|]. intros (cs & Hcs & _). inversion Hcs; congruence.
Qed.

Lemma toCharacter_units (keyActions : list KeyAction.t) (cs : list string) :
  Forall2 (fun k c => KeyActions.toCharacter k = Some c) keyActions cs ->
  Forall (fun c => String.length c = 1%nat) cs.
Proof.
  induction 1 as [|k c keyActions cs Hk _ IH]; constructor; [|done].
  apply toCharacter_fromCharacter in Hk.
  by apply fromCharacter_toCharacter in Hk as (_ & ? & _).
Qed.

Lemma createKeyActionsFromText_Done (text : string) (keys : list KeyAction.t) :
  Cli.createKeyActionsFromText text = Done keys
  <-> KeyActions.toString keys = Some text.
Proof.
  unfold Cli.createKeyActionsFromText, KeyActions.toString.
  rewrite createKeyActionsFromText_loop_Done, toString_loop_Some. split.
  - intros Hunits. exists (JsString.split_units text). split.
    + apply Forall2_flip. eapply Forall2_impl; [exact Hunits|].
      intros c k Hc. by apply fromCharacter_toCharacter in Hc as [? _].
    + cbn [app]. by rewrite join_split_units.
  - intros (cs & Hcs & ->). cbn [app].
    rewrite split_units_join.
    + apply Forall2_flip. eapply Forall2_impl; [exact Hcs|].
      intros k c Hk. by apply toCharacter_fromCharacter.
    + by apply toCharacter_units in Hcs.
Qed.

Lemma createKeyActionsFromText_valid (text : string) (keys : list KeyAction.t) :
  Cli.createKeyActionsFromText text = Done keys ->
  length keys = String.length text /\ forallb valid_KeyAction keys = true.
Proof.
  unfold Cli.createKeyActionsFromText. rewrite createKeyActionsFromText_loop_Done.
  intros Hunits. split.
  - rewrite <- split_units_length. symmetry. by eapply Forall2_length.
  - clear -Hunits. induction Hunits as [|c k units keys Hc _ IH]; [done|].
    cbn [forallb]. apply fromCharacter_toCharacter in Hc as (_ & _ & -> & _). done.
Qed.

(** X18: a text and its key actions determine each other.
    [createKeyActionsFromText] returns key actions exactly when
    [toString] of them is the text; then there is one key action for
    each character, of byte fields. It throws only a
    ConfigurationError, for the first character that [dict] does not
    hold, and names that character and its index. *)
Theorem createKeyActionsFromText_toString (text : string) :
  (forall keys,
      Cli.createKeyActionsFromText text = Done keys
      <-> KeyActions.toString keys = Some text)
  /\ (forall keys,
      Cli.createKeyActionsFromText text = Done keys ->
      length keys = String.length text /\ forallb valid_KeyAction keys = true)
  /\ Cli.createKeyActionsFromText text <> OutOfModel
  /\ (forall e,
      Cli.createKeyActionsFromText text = Thrown e ->
      exists pre c post,
        JsString.split_units text = pre ++ c :: post
        /\ Forall (fun c' => exists k, KeyActions.fromCharacter c' = JsObject.Own k) pre
        /\ KeyActions.fromCharacter c = JsObject.Undefined
        /\ e = ConfigurationError
                 ("cannot convert character '" +:+ c +:+ "' at index "
                  +:+ Types.number_text (Z.of_nat (length pre))
                  +:+ " into a valid KeyAction. Full text: " +:+ text) []).
Proof.
  split; [|split; [|split]].
  - apply createKeyActionsFromText_Done.
  - apply createKeyActionsFromText_valid.
  - apply createKeyActionsFromText_loop_in_model, split_units_single.
  - intros e He. by apply createKeyActionsFromText_loop_Thrown in He.
Qed.

Lemma packKeyMap_keys_ok (keys : list KeyAction.t) :
  (length keys <= 18)%nat ->
  packKeyMap (KeyMapKeys keys)
  = Ok ([KeyMapTypes_keys; 0; 0; 0; 0; 0] ++ Z.of_nat (length keys) :: keyActionBytes keys).
Proof.
  intros Hlen. unfold packKeyMap. change (isKeyMapKeys (KeyMapKeys keys)) with true.
  cbn [field_keys bind]. by rewrite packKeyActrions_ok.
Qed.

Lemma packKeyMap_keys_too_long (keys : list KeyAction.t) :
  (18 < length keys)%nat ->
  packKeyMap (KeyMapKeys keys) = Err (InvalidSize (length keys)).
Proof.
  intros Hlen. unfold packKeyMap. change (isKeyMapKeys (KeyMapKeys keys)) with true.
  cbn [field_keys bind]. by rewrite packKeyActrions_too_long.
Qed.

(** X19: a text given as ['@' + text] becomes one key action for each
    character, whatever its length, but only 18 key actions can be
    written: when [createKeyMapFromText] returns for ['@' + text], the
    KeyMap holds [text.length] key actions that spell the text; up to
    18 characters it is valid and packs to [7 + 2 * text.length] bytes,
    beyond 18 [packKeyMap] throws 'Invalid size'. *)
Theorem at_text_packs_up_to_18 (text : string) (keyMap : KeyMap) :
  Cli.createKeyMapFromText ("@" +:+ text) = Done keyMap ->
  exists keys,
    keyMap = KeyMapKeys keys
    /\ length keys = String.length text
    /\ KeyActions.toString keys = Some text
    /\ if (String.length text <=? 18)%nat
       then valid_KeyMap keyMap = true
            /\ exists data, packKeyMap keyMap = Ok data
                            /\ length data = (7 + 2 * String.length text)%nat
       else packKeyMap keyMap = Err (InvalidSize (String.length text)).
Proof.
  unfold Cli.createKeyMapFromText.
  change (JsString.startsWith _ ("@" +:+ text)) with true.
  change (JsString.substring1 ("@" +:+ text)) with text.
  destruct (Cli.createKeyActionsFromText text) as [keys| |] eqn:Hkeys;
    cbn [outcome_bind]; [|done|done].
  intros [= <-]. exists keys.
  destruct (createKeyActionsFromText_valid _ _ Hkeys) as [Hlen Hvalid].
  split; [done|]. split; [done|]. split; [by apply createKeyActionsFromText_Done|].
  rewrite <- Hlen.
  destruct (length keys <=? 18)%nat eqn:Hle.
  - apply Nat.leb_le in Hle. split.
    + cbn [createKeyMapKeys valid_KeyMap]. rewrite Hvalid.
      by rewrite (proj2 (Nat.leb_le _ _) Hle).
    + eexists. split; [by apply packKeyMap_keys_ok|].
      cbn [length app]. rewrite keyActionBytes_length. lia.
  - apply Nat.leb_gt in Hle. by apply packKeyMap_keys_too_long.
Qed.

Lemma at_text_packs_up_to_18_witness :
  exists keys,
    KeyMapKeys [KeyAction.mk 2 0x0B; KeyAction.mk 0 0x0C] = KeyMapKeys keys
    /\ length keys = 2%nat
    /\ KeyActions.toString keys = Some "Hi"%string
    /\ valid_KeyMap (KeyMapKeys [KeyAction.mk 2 0x0B; KeyAction.mk 0 0x0C]) = true
       /\ exists data,
           packKeyMap (KeyMapKeys [KeyAction.mk 2 0x0B; KeyAction.mk 0 0x0C]) = Ok data
           /\ length data = 11%nat.
Proof.
  apply (at_text_packs_up_to_18 "Hi" (KeyMapKeys [KeyAction.mk 2 0x0B; KeyAction.mk 0 0x0C])).
  vm_compute. reflexivity.
Defined.

(** *** Action texts *)

Lemma byte_cases (P : Z -> Prop) :
  Forall P (seqZ 0 0x100) -> forall m, 0 <= m <= 0xFF -> P m.
Proof.
  intros HP m Hm. apply (proj1 (Forall_forall _ _) HP). apply elem_of_seqZ. lia.
Qed.

Lemma getModKeyNames_action_names (modKey : Z) :
  Forall (fun name => has_unit plus_unit name = false) (Types.getModKeyNames modKey).
Proof.
  unfold Types.getModKeyNames. apply Forall_forall. intros name Hname.
  apply list_elem_of_fmap in Hname as ([name' code] & -> & Hin).
  apply list_elem_of_In, filter_In in Hin as [Hin _]. cbn [fst].
  assert (forallb (fun e => negb (has_unit plus_unit (fst e))) Types.ModKey = true) as Hall
    by reflexivity.
  rewrite forallb_forall in Hall. apply Hall in Hin. by apply negb_true_iff in Hin.
Qed.

Lemma action_name_spec (name : string) :
  action_name name = true <-> name <> EmptyString /\ has_unit plus_unit name = false.
Proof.
  unfold action_name. rewrite andb_true_iff, !negb_true_iff.
  split; intros [Hne Hplus]; (split; [|done]).
  - intros ->. discriminate Hne.
  - destruct name; [done|reflexivity].
Qed.

Lemma split_combineModKeyAndActionName (modKey : Z) (name : string) :
  has_unit plus_unit name = false ->
  JsString.split plus_unit (Types.combineModKeyAndActionName modKey name)
  = Types.getModKeyNames modKey ++ [name].
Proof.
  intros Hname. unfold Types.combineModKeyAndActionName.
  apply (split_concat plus_unit).
  - by destruct (Types.getModKeyNames modKey).
  - apply Forall_app. split; [apply getModKeyNames_action_names|by constructor].
Qed.

(** The text of modifiers and a name is parsed into these modifiers and
    that name, which is then looked up in the three tables in turn. *)
Lemma parseActionFromText_combine (modKey : Z) (name : string) :
  0 <= modKey <= 0xFF -> action_name name = true ->
  Cli.parseActionFromText (Types.combineModKeyAndActionName modKey name)
  = match KeyActions.findKeyAction name with
    | JsObject.Own keyCode => Done (ActionKey (Types.applyModKey keyCode modKey))
    | JsObject.Inherited => OutOfModel
    | JsObject.Undefined =>
        match Types.findMouseAction name with
        | JsObject.Own mouseKey => Done (ActionMouse (Types.applyModKey mouseKey modKey))
        | JsObject.Inherited => OutOfModel
        | JsObject.Undefined =>
            match Types.findConsumerAction name with
            | JsObject.Own consumerAction =>
                if modKey =? 0 then Done (ActionConsumer consumerAction)
                else Thrown (Cli.unknown_action name)
            | JsObject.Inherited =>
                if modKey =? 0 then OutOfModel else Thrown (Cli.unknown_action name)
            | JsObject.Undefined => Thrown (Cli.unknown_action name)
            end
        end
    end.
Proof.
  intros Hbyte Hname. apply action_name_spec in Hname as [Hne Hplus].
  pose proof (split_combineModKeyAndActionName modKey name Hplus) as Hsplit.
  unfold Cli.parseActionFromText.
  change (JsString.split _ (Types.combineModKeyAndActionName modKey name))
    with (JsString.split plus_unit (Types.combineModKeyAndActionName modKey name)).
  rewrite Hsplit.
  destruct (String.length _ =? 0)%nat eqn:Hlen.
  { apply Nat.eqb_eq in Hlen.
    destruct (Types.combineModKeyAndActionName modKey name) as [|] eqn:Htext;
      [|discriminate Hlen].
    change (JsString.split plus_unit EmptyString) with [EmptyString] in Hsplit.
    revert Hsplit. generalize (Types.getModKeyNames modKey).
    intros [|? [|? ?]] Hsplit; cbn [app] in Hsplit; congruence. }
  rewrite last_last, removelast_last.
  rewrite (byte_cases _ createModKey_getModKeyNames_byte modKey Hbyte).
  reflexivity.
Qed.

Lemma key_entries :
  Forall (fun e => KeyActions.findKeyAction (fst e) = JsObject.Own (snd e)
                   /\ KeyActions.findKeyActionName (snd e) = Some (fst e)
                   /\ action_name (fst e) = true
                   /\ valid_KeyAction (snd e) = true
                   /\ (exists name,
                        KeyActions.findKeyActionName
                          (Types.createKeyAction (KeyAction.keyCode (snd e)) 0)
                        = Some name))
    KeyActionRecord.key.
Proof.
  apply Forall_forall. intros e He.
  assert (forallb
            (fun e => bool_decide (KeyActions.findKeyAction (fst e) = JsObject.Own (snd e))
                      && bool_decide (KeyActions.findKeyActionName (snd e) = Some (fst e))
                      && action_name (fst e)
                      && valid_KeyAction (snd e)
                      && match KeyActions.findKeyActionName
                                 (Types.createKeyAction (KeyAction.keyCode (snd e)) 0) with
                         | Some _ => true
                         | None => false
                         end)
            KeyActionRecord.key = true) as Hall by (vm_compute; reflexivity).
  rewrite forallb_forall in Hall. apply list_elem_of_In in He.
  specialize (Hall e He).
  repeat (apply andb_prop in Hall as [Hall ?]).
  repeat match goal with
         | H : bool_decide _ = true |- _ => apply bool_decide_eq_true in H
         end.
  repeat split; try done.
  destruct (KeyActions.findKeyActionName (Types.createKeyAction _ _)) as [name|];
    [by exists name|done].
Qed.

Lemma findKeyActionName_entry (keyAction : KeyAction.t) (name : string) :
  KeyActions.findKeyActionName keyAction = Some name ->
  KeyActions.findKeyAction name = JsObject.Own keyAction /\ action_name name = true.
Proof.
  intros Hfind. apply find_value_elem in Hfind as (a & Hin & Heq).
  apply bool_decide_eq_true in Heq. cbn in Heq. subst a.
  by pose proof (proj1 (Forall_forall _ _) key_entries _ Hin) as (? & _ & ? & _).
Qed.

Lemma truthy_Some (v : option string) (name : string) :
  GenerateKeyActions.truthy v = Some name -> v = Some name.
Proof. destruct v as [[|]|]; cbn; congruence. Qed.

Lemma shift_bit_bytes :
  Forall (fun m => JsNumber.and m Types.ModKey_Shift <> 0 ->
                   0 <= m - Types.ModKey_Shift <= 0xFF
                   /\ JsNumber.or Types.ModKey_Shift (m - Types.ModKey_Shift) = m)
    (seqZ 0 0x100).
Proof.
  apply Forall_forall. intros m Hm.
  assert (forallb (fun m => (JsNumber.and m Types.ModKey_Shift =? 0)
                            || ((0 <=? m - Types.ModKey_Shift)
                                && (m - Types.ModKey_Shift <=? 0xFF)
                                && (JsNumber.or Types.ModKey_Shift (m - Types.ModKey_Shift)
                                    =? m)))
            (seqZ 0 0x100) = true) as Hall by (vm_compute; reflexivity).
  rewrite forallb_forall in Hall. apply list_elem_of_In in Hm.
  specialize (Hall m Hm). intros Hshift.
  apply orb_prop in Hall as [Hall|Hall]; [apply Z.eqb_eq in Hall; done|].
  repeat (apply andb_prop in Hall as [Hall ?]). lia.
Qed.

(** X20: the text of a key action reads back. When [formatKeyAction]
    gives a text (and not the JSON of the key action) for a key action
    whose modifier is a byte, [parseActionFromText] of that text is the
    key action; and it gives a text whenever the [key] record names the
    key code, with or without Shift. *)
Theorem formatKeyAction_parseActionFromText (keyAction : KeyAction.t) :
  0 <= KeyAction.modKey keyAction <= 0xFF ->
  (forall text,
      KeyActions.formatKeyAction keyAction = Text text ->
      Cli.parseActionFromText text = Done (ActionKey keyAction))
  /\ (forall name modKey,
      KeyActions.findKeyAction name
      = JsObject.Own (KeyAction.mk modKey (KeyAction.keyCode keyAction)) ->
      exists text, KeyActions.formatKeyAction keyAction = Text text).
Proof.
  intros Hbyte. destruct keyAction as [modKey keyCode]. cbn [KeyAction.modKey] in Hbyte.
  unfold KeyActions.formatKeyAction. cbn [KeyAction.modKey KeyAction.keyCode].
  split.
  - intros text.
    destruct (Types.isShift (KeyAction.mk modKey keyCode)) eqn:Hshift.
    + destruct (GenerateKeyActions.truthy
                  (KeyActions.findKeyActionName
                     (Types.Shift (Types.createKeyAction keyCode 0)))) as [name|] eqn:Hname.
      * intros [= <-]. apply truthy_Some, findKeyActionName_entry in Hname as [Hfind Hname].
        unfold Types.isShift in Hshift. cbn [KeyAction.modKey] in Hshift.
        apply negb_true_iff, Z.eqb_neq in Hshift.
        destruct (byte_cases _ shift_bit_bytes modKey Hbyte Hshift) as [Hbyte' Hor].
        rewrite parseActionFromText_combine, Hfind by done.
        do 2 f_equal. unfold Types.applyModKey, Types.Shift, Types.applyModKey.
        cbn. f_equal. exact Hor.
      * destruct (GenerateKeyActions.truthy
                    (KeyActions.findKeyActionName (Types.createKeyAction keyCode 0)))
          as [name|] eqn:Hname'; [|done].
        intros [= <-]. apply truthy_Some, findKeyActionName_entry in Hname' as [Hfind Hname'].
        rewrite parseActionFromText_combine, Hfind by done.
        do 2 f_equal. unfold Types.applyModKey. cbn.
        rewrite JsNumber_or_byte by lia. by rewrite Z.lor_0_l.
    + destruct (GenerateKeyActions.truthy
                  (KeyActions.findKeyActionName (Types.createKeyAction keyCode 0)))
        as [name|] eqn:Hname'; [|done].
      intros [= <-]. apply truthy_Some, findKeyActionName_entry in Hname' as [Hfind Hname'].
      rewrite parseActionFromText_combine, Hfind by done.
      do 2 f_equal. unfold Types.applyModKey. cbn.
      rewrite JsNumber_or_byte by lia. by rewrite Z.lor_0_l.
  - intros name modKey' Hget. apply get_Own_elem in Hget.
    pose proof (proj1 (Forall_forall _ _) key_entries _ Hget)
      as (_ & _ & _ & _ & name' & Hname').
    cbn [snd KeyAction.keyCode] in Hname'.
    pose proof Hname' as Hentry. apply findKeyActionName_entry in Hentry as [_ Haction].
    apply action_name_spec in Haction as [Hne _].
    rewrite Hname'.
    assert (GenerateKeyActions.truthy (Some name') = Some name') as ->
        by (destruct name'; done).
    destruct (if Types.isShift _ then _ else None); eauto.
Qed.

Lemma formatKeyAction_parseActionFromText_witness :
  Cli.parseActionFromText "Ctrl+Tilde" = Done (ActionKey (KeyAction.mk 0x03 0x35)).
Proof.
  refine (proj1 (formatKeyAction_parseActionFromText (KeyAction.mk 0x03 0x35) _) _ _).
  - cbn. lia.
  - vm_compute. reflexivity.
Defined.

Lemma mouse_media_names :
  Forall (fun e => action_name (fst e) = true
                   /\ KeyActions.findKeyAction (fst e) = JsObject.Undefined)
    Types.mouse
  /\ Forall (fun e => action_name (fst e) = true
                      /\ KeyActions.findKeyAction (fst e) = JsObject.Undefined
                      /\ Types.findMouseAction (fst e) = JsObject.Undefined)
       Types.media.
Proof.
  split; apply Forall_forall; intros e He; apply list_elem_of_In in He.
  - assert (forallb (fun e => action_name (fst e)
                              && bool_decide (KeyActions.findKeyAction (fst e)
                                              = JsObject.Undefined))
              Types.mouse = true) as Hall by (vm_compute; reflexivity).
    rewrite forallb_forall in Hall. specialize (Hall e He).
    apply andb_prop in Hall as [? Hall]. by apply bool_decide_eq_true in Hall.
  - assert (forallb (fun e => action_name (fst e)
                              && bool_decide (KeyActions.findKeyAction (fst e)
                                              = JsObject.Undefined)
                              && bool_decide (Types.findMouseAction (fst e)
                                              = JsObject.Undefined))
              Types.media = true) as Hall by (vm_compute; reflexivity).
    rewrite forallb_forall in Hall. specialize (Hall e He).
    apply andb_prop in Hall as [Hall Hmouse]. apply andb_prop in Hall as [? Hall].
    apply bool_decide_eq_true in Hall, Hmouse. done.
Qed.

(** X21: a mouse action takes modifiers in an action text, a media
    action does not. For a name of the [mouse] record and modifier bits
    that are a byte, the text of the modifier names and the name is
    parsed into the mouse action with these bits applied; a name of the
    [media] record alone is parsed into its consumer action, and with
    any modifier before it the text is refused as unknown. No name of
    the two records is a name of the [key] record. *)
Theorem parseActionFromText_mouse_media (bits : Z) :
  0 <= bits <= 0xFF ->
  (forall name action,
      (name, action) ∈ Types.mouse ->
      Cli.parseActionFromText (Types.combineModKeyAndActionName bits name)
      = Done (ActionMouse (Types.applyModKey action bits))
      /\ KeyActions.findKeyAction name = JsObject.Undefined)
  /\ (forall name action,
      (name, action) ∈ Types.media ->
      Cli.parseActionFromText name = Done (ActionConsumer action)
      /\ (bits <> 0 ->
          Cli.parseActionFromText (Types.combineModKeyAndActionName bits name)
          = Thrown (Cli.unknown_action name))
      /\ KeyActions.findKeyAction name = JsObject.Undefined).
Proof.
  intros Hbits. destruct mouse_media_names as [Hmouse Hmedia].
  split.
  - intros name action Hin.
    destruct (proj1 (Forall_forall _ _) Hmouse _ Hin) as [Hname Hkey].
    destruct (proj1 (Forall_forall _ _) mouse_entries _ Hin) as (Hfind & _).
    cbn [fst snd] in *.
    by rewrite parseActionFromText_combine, Hkey, Hfind.
  - intros name action Hin.
    destruct (proj1 (Forall_forall _ _) Hmedia _ Hin) as (Hname & Hkey & Hmouse').
    destruct (proj1 (Forall_forall _ _) media_entries _ Hin) as (Hfind & _).
    cbn [fst snd] in *.
    split; [|split; [|done]].
    + rewrite <- (combineModKeyAndActionName_no_modKey name) at 1.
      by rewrite parseActionFromText_combine, Hkey, Hmouse', Hfind.
    + intros Hnonzero.
      rewrite parseActionFromText_combine, Hkey, Hmouse', Hfind by done.
      by rewrite (proj2 (Z.eqb_neq bits 0)).
Qed.

Lemma parseActionFromText_mouse_media_witness :
  Cli.parseActionFromText "Ctrl+Shift+LButton"
  = Done (ActionMouse (Types.applyModKey Types.mouse_LButton 0x03))
  /\ KeyActions.findKeyAction "LButton" = JsObject.Undefined.
Proof.
  refine (proj1 (parseActionFromText_mouse_media 0x03 _) "LButton"%string
            Types.mouse_LButton _).
  - lia.
  - apply elem_of_cons. by left.
Defined.

(** *** Key texts *)

Lemma parseKeyMapFromKeyText_loop_Done (actionTexts : list string) (actions : list Action) :
  Cli.parseKeyMapFromKeyText_loop actionTexts = Done actions
  <-> Forall2 (fun actionText action => Cli.parseActionFromText actionText = Done action)
        actionTexts actions.
Proof.
  revert actions. induction actionTexts as [|actionText actionTexts IH]; intros actions;
    cbn [Cli.parseKeyMapFromKeyText_loop].
  - split; [intros [= <-]; constructor|intros H; by inversion H].
  - destruct (Cli.parseActionFromText actionText) as [action| |] eqn:Haction;
      cbn [outcome_bind].
    + destruct (Cli.parseKeyMapFromKeyText_loop actionTexts) as [actions'| |] eqn:Hloop;
        cbn [outcome_bind].
      * split.
        -- intros [= <-]. constructor; [done|]. by apply IH.
        -- intros H. inversion H as [|? a ? actions'' Ha Hrest]; subst.
           apply IH in Hrest. congruence.
      * split; [done|]. intros H. inversion H as [|? a ? actions'' Ha Hrest]; subst.
        apply IH in Hrest. congruence.
      * split; [done|]. intros H. inversion H as [|? a ? actions'' Ha Hrest]; subst.
        apply IH in Hrest. congruence.
    + split; [done|]. intros H. inversion H; congruence.
    + split; [done|]. intros H. inversion H; congruence.
Qed.

Lemma actions_of_keys (actions : list Action) :
  Cli.consumerActions_of actions = [] -> Cli.mouseActions_of actions = [] ->
  actions = ActionKey <$> Cli.keyActions_of actions.
Proof.
  unfold Cli.consumerActions_of, Cli.mouseActions_of, Cli.keyActions_of.
  induction actions as [|[k|m|c] actions IH]; cbn; intros Hc Hm; try done.
  f_equal. by apply IH.
Qed.

Lemma actions_of_consumer (actions : list Action) (c : ConsumerAction.t) :
  Cli.keyActions_of actions = [] -> Cli.mouseActions_of actions = [] ->
  Cli.consumerActions_of actions = [c] -> actions = [ActionConsumer c].
Proof.
  unfold Cli.consumerActions_of, Cli.mouseActions_of, Cli.keyActions_of.
  destruct actions as [|[k|m|c'] [|[k'|m'|c''] actions]]; cbn; intros Hk Hm Hc;
    try done; try congruence.
Qed.

Lemma actions_of_mouse (actions : list Action) (m : MouseAction.t) :
  Cli.keyActions_of actions = [] -> Cli.consumerActions_of actions = [] ->
  Cli.mouseActions_of actions = [m] -> actions = [ActionMouse m].
Proof.
  unfold Cli.consumerActions_of, Cli.mouseActions_of, Cli.keyActions_of.
  destruct actions as [|[k|m'|c] [|[k'|m''|c'] actions]]; cbn; intros Hk Hc Hm;
    try done; try congruence.
Qed.

Lemma split_spaces_leading (c : Ascii.ascii) (text : string) :
  JsString.is_space c = true ->
  exists l, JsString.split_spaces (String c text) = EmptyString :: l.
Proof.
  revert c. induction text as [|c' text IH]; intros c Hc; cbn [JsString.split_spaces];
    rewrite Hc; [by eexists|].
  destruct (JsString.is_space c') eqn:Hc'; [|by eexists].
  specialize (IH c' Hc'). cbn [JsString.split_spaces] in IH. by rewrite Hc' in IH.
Qed.

Lemma split_spaces_trailing (text : string) (c : Ascii.ascii) :
  JsString.is_space c = true ->
  exists s l, JsString.split_spaces (text +:+ String c EmptyString) = (s :: l) ++ [EmptyString].
Proof.
  intros Hc. induction text as [|a text IH].
  - exists EmptyString, []. simpl. by rewrite Hc.
  - destruct IH as (s & l & Hl).
    change (String a text +:+ String c EmptyString)
      with (String a (text +:+ String c EmptyString)).
    cbn [JsString.split_spaces]. rewrite Hl.
    destruct (JsString.is_space a).
    + destruct (text +:+ String c EmptyString) as [|c' rest] eqn:Hrest.
      { by destruct text. }
      destruct (JsString.is_space c'); [by exists s, l|].
      exists EmptyString, (s :: l). reflexivity.
    + exists (String a s), l. reflexivity.
Qed.

Lemma parseActionFromText_empty :
  Cli.parseActionFromText EmptyString
  = Thrown (ConfigurationError
              "cannot process the action string. The string cannot be empty" []).
Proof. reflexivity. Qed.

(** X22: a key text gives one kind of KeyMap.
    When [parseKeyMapFromKeyText] returns a KeyMap, every action text of
    the text (its pieces between runs of white space) was parsed, and
    the KeyMap is either a keys KeyMap of all the actions, one or more,
    which are all key actions, or the consumer KeyMap of the only
    action, or the mouse KeyMap of the only action: never a KeyMap of
    another type, never a mix. A text that begins or ends with white
    space never gives a KeyMap, as the empty action text is refused;
    one that begins with white space throws that error at once. *)
Theorem parseKeyMapFromKeyText_kinds (text : string) :
  (forall keyMap,
      Cli.parseKeyMapFromKeyText text = Done keyMap ->
      exists actions,
        Forall2 (fun actionText action => Cli.parseActionFromText actionText = Done action)
          (JsString.split_spaces text) actions
        /\ ((exists keys,
                keys <> [] /\ actions = ActionKey <$> keys /\ keyMap = KeyMapKeys keys)
            \/ (exists consumer,
                   actions = [ActionConsumer consumer] /\ keyMap = KeyMapConsumer consumer)
            \/ (exists mouse,
                   actions = [ActionMouse mouse] /\ keyMap = KeyMapMouse mouse)))
  /\ (forall c keyMap,
      JsString.is_space c = true ->
      Cli.parseKeyMapFromKeyText (text +:+ String c EmptyString) <> Done keyMap
      /\ Cli.parseKeyMapFromKeyText (String c text)
         = Thrown (ConfigurationError
                     "cannot process the action string. The string cannot be empty" [])).
Proof.
  split.
  - intros keyMap. unfold Cli.parseKeyMapFromKeyText.
    destruct (Cli.parseKeyMapFromKeyText_loop (JsString.split_spaces text))
      as [actions| |] eqn:Hloop; cbn [outcome_bind]; [|done|done].
    apply parseKeyMapFromKeyText_loop_Done in Hloop.
    intros Hmap. exists actions. split; [done|].
    pose proof (actions_of_keys actions) as Hkeys.
    pose proof (actions_of_consumer actions) as Hconsumer.
    pose proof (actions_of_mouse actions) as Hmouse.
    destruct (Cli.keyActions_of actions) as [|k keys];
      destruct (Cli.consumerActions_of actions) as [|c [|c' consumers]];
      destruct (Cli.mouseActions_of actions) as [|m [|m' mice]];
      cbn in Hmap; try discriminate Hmap; injection Hmap as <-.
    + right. right. exists m. split; [by apply Hmouse|done].
    + right. left. exists c. split; [by apply Hconsumer|done].
    + left. exists (k :: keys). split; [done|]. split; [by apply Hkeys|done].
  - intros c keyMap Hc. split.
    + destruct (split_spaces_trailing text c Hc) as (s & l' & Hl).
      remember (s :: l') as l eqn:Heql. clear Heql.
      unfold Cli.parseKeyMapFromKeyText. rewrite Hl.
      destruct (Cli.parseKeyMapFromKeyText_loop (l ++ [EmptyString]))
        as [actions| |] eqn:Hloop; cbn [outcome_bind]; [|done|done].
      apply parseKeyMapFromKeyText_loop_Done in Hloop.
      apply Forall2_app_inv_l in Hloop as (? & last & _ & Hlast & _).
      inversion Hlast as [|? a ? ? Ha _]; subst.
      by rewrite parseActionFromText_empty in Ha.
    + destruct (split_spaces_leading c text Hc) as [l Hl].
      unfold Cli.parseKeyMapFromKeyText. rewrite Hl.
      cbn [Cli.parseKeyMapFromKeyText_loop]. by rewrite parseActionFromText_empty.
Qed.

(* ===================================================================== *)
(** ** A session of the command line (keypad.ts, cli-impl.ts) *)
(* ===================================================================== *)

Example normalizeKeypadInfo_vectors :
  (Cli.normalizeKeypadInfo
     <$> [PartialKeypadInfo.mk None None; PartialKeypadInfo.mk (Some 1) None;
          PartialKeypadInfo.mk None (Some 2); PartialKeypadInfo.mk (Some 1) (Some 2)])
  = [None; Some (KeypadInfo.mk 1 0); Some (KeypadInfo.mk 0 2); Some (KeypadInfo.mk 1 2)].
Proof. reflexivity. Qed.

Example keypad_vectors :
  Keypad.layers Keypad.new = 3
  /\ Keypad.getKeyCount (Keypad.setInfo (KeypadInfo.mk 3 1) (Keypad.setLayers 10 Keypad.new))
     = 3 + 3
  /\ Keypad.readInfo Keypad.new (HidIO.mk [] 0 [[0x03; 0xfb; 0x12; 0x34]])
     = (Ok (KeypadInfo.mk 0x12 0x34, Keypad.mk 3 (KeypadInfo.mk 0x12 0x34)),
        HidIO.mk [[0x03; 0xfb; 0xfb; 0xfb] ++ replicate 61 0] 1 [])
  /\ HidIO.written
       (snd (Keypad.readKeyMapTable
               (Keypad.setInfo (KeypadInfo.mk 1 0) (Keypad.setLayers 1 Keypad.new))
               (HidIO.mk [] 0
                  [[0x03; 0xfa; 0x01; 0x01; 0x01; 0; 0; 0; 0; 0; 0x01; 0x01; 0x12]])))
     = [[0x03; 0xfa; 0x01; 0x00; 0x01] ++ replicate 60 0].
Proof. repeat split; vm_compute; reflexivity. Qed.

Lemma readKeypadInfo_run (hid : HidIO.t) :
  readKeypadInfo hid
  = (match HidIO.incoming hid with
     | [] | [] :: _ => Err NoResponse
     | res :: _ =>
         match res !! 2%nat, res !! 3%nat with
         | Some keys, Some knobs => Ok (KeypadInfo.mk keys knobs)
         | _, _ => Err ERR_OUT_OF_RANGE
         end
     end,
     HidIO.mk (HidIO.written hid ++ [info_request]) (S (HidIO.reads hid))
       (tail (HidIO.incoming hid))).
Proof.
  assert (readKeypadInfo hid
          = (res <~ recvResponse ;;
             keys <~ io_lift (Buffer.readUInt8 res 2) ;;
             knobs <~ io_lift (Buffer.readUInt8 res 3) ;;
             io_ret (KeypadInfo.mk keys knobs))%io
              (HidIO.mk (HidIO.written hid ++ [info_request])
                 (HidIO.reads hid) (HidIO.incoming hid))) as ->.
  { unfold readKeypadInfo, io_bind at 1. by rewrite sendRequest_written. }
  unfold io_bind at 1. rewrite recvResponse_run.
  cbn [HidIO.written HidIO.reads HidIO.incoming].
  destruct (HidIO.incoming hid) as [|res rest]; [reflexivity|].
  destruct res as [|b0 [|b1 [|b2 [|b3 res]]]]; reflexivity.
Qed.

Lemma detectKeypad_run (findHidDevices : HidDeviceQuery.t -> list HidDevice.t)
    (path : option string) :
  match findHidDevices (keypad_query path) with
  | [device] => Cli.detectKeypad findHidDevices path = Done device
  | devices =>
      exists message,
        Cli.detectKeypad findHidDevices path
        = Thrown (ConfigurationError message (omap HidDevice.path devices))
  end.
Proof.
  unfold Cli.detectKeypad, Cli.findKeypadDevices. fold (keypad_query path).
  destruct (findHidDevices (keypad_query path)) as [|device [|device' devices]];
    cbn; eauto.
Qed.

Lemma setInfo_mk (layers : Z) (info info' : KeypadInfo.t) :
  Keypad.setInfo info' (Keypad.mk layers info) = Keypad.mk layers info'.
Proof. by destruct info'. Qed.

(** What [executeKeypadTask] does before the task and with its result. *)
Lemma executeKeypadTask_run {A} (findHidDevices : HidDeviceQuery.t -> list HidDevice.t)
    (options : CommonOptions.t) (task : Keypad.t -> run A) (hid : HidIO.t) :
  Cli.executeKeypadTask findHidDevices options task hid
  = match Cli.detectKeypad findHidDevices (CommonOptions.path options) with
    | Done _ =>
        match Cli.normalizeKeypadInfo
                (PartialKeypadInfo.mk (CommonOptions.keys options)
                   (CommonOptions.knobs options)) with
        | Some info => task (Keypad.mk (task_layers options) info) hid
        | None =>
            match readKeypadInfo hid with
            | (Ok info, hid') => task (Keypad.mk (task_layers options) info) hid'
            | (Err e, hid') => (Thrown (ApiError e), hid')
            end
        end
    | Thrown e => (Thrown e, hid)
    | OutOfModel => (OutOfModel, hid)
    end.
Proof.
  unfold Cli.executeKeypadTask, run_bind at 1, run_lift.
  destruct (Cli.detectKeypad findHidDevices (CommonOptions.path options)); [|done|done].
  unfold Keypad.withKeypad, Keypad.new.
  assert ((match CommonOptions.layers options with
           | Some layers =>
               if layers =? 0 then Keypad.mk Keypad.defaultLayers (KeypadInfo.mk 0 0)
               else Keypad.setLayers layers (Keypad.mk Keypad.defaultLayers (KeypadInfo.mk 0 0))
           | None => Keypad.mk Keypad.defaultLayers (KeypadInfo.mk 0 0)
           end) = Keypad.mk (task_layers options) (KeypadInfo.mk 0 0)) as ->.
  { unfold task_layers. destruct (CommonOptions.layers options) as [layers|]; [|done].
    by destruct (layers =? 0). }
  destruct (Cli.normalizeKeypadInfo _) as [info|]; [by rewrite setInfo_mk|].
  unfold run_bind, run_io, Keypad.readInfo, io_bind.
  destruct (readKeypadInfo hid) as [[info|e] hid']; [|done].
  unfold io_ret. cbn [snd]. by rewrite setInfo_mk.
Qed.

(** X23: [executeKeypadTask] runs the task on a prepared keypad, or not
    at all. With no device or several devices for the query (the path
    when one is given and not empty, the default ids otherwise) it
    throws a ConfigurationError and the handle is not touched. With
    exactly one device the task gets a keypad of [options.layers]
    layers (3 when the option is missing or 0): when [keys] or [knobs]
    is given, with that info (a missing one is 0) and without any
    exchange; otherwise after one [readKeypadInfo] exchange, with the
    info the device reports, and when that exchange throws the task is
    not run. *)
Theorem executeKeypadTask_prepares {A} (findHidDevices : HidDeviceQuery.t -> list HidDevice.t)
    (options : CommonOptions.t) (task : Keypad.t -> run A) (hid : HidIO.t) :
  let devices := findHidDevices (keypad_query (CommonOptions.path options)) in
  let run := Cli.executeKeypadTask findHidDevices options task hid in
  (length devices <> 1%nat ->
   exists message, run = (Thrown (ConfigurationError message (omap HidDevice.path devices)), hid))
  /\ (length devices = 1%nat ->
      (forall keys,
          CommonOptions.keys options = Some keys ->
          run = task (Keypad.mk (task_layers options)
                        (KeypadInfo.mk keys (default 0 (CommonOptions.knobs options)))) hid)
      /\ (forall knobs,
          CommonOptions.knobs options = Some knobs ->
          run = task (Keypad.mk (task_layers options)
                        (KeypadInfo.mk (default 0 (CommonOptions.keys options)) knobs)) hid)
      /\ (CommonOptions.keys options = None -> CommonOptions.knobs options = None ->
          let hid' := HidIO.mk (HidIO.written hid ++ [info_request]) (S (HidIO.reads hid))
                        (tail (HidIO.incoming hid)) in
          match readKeypadInfo hid with
          | (Ok info, hid1) =>
              hid1 = hid' /\ run = task (Keypad.mk (task_layers options) info) hid'
          | (Err e, hid1) => hid1 = hid' /\ run = (Thrown (ApiError e), hid')
          end)).
Proof.
  intros devices run. unfold run. rewrite executeKeypadTask_run.
  pose proof (detectKeypad_run findHidDevices (CommonOptions.path options)) as Hdetect.
  fold devices in Hdetect.
  split.
  - intros Hlen. destruct devices as [|device [|device' devices']]; [|done|].
    + destruct Hdetect as [message ->]. by exists message.
    + destruct Hdetect as [message ->]. by exists message.
  - intros Hlen. destruct devices as [|device [|device' devices']]; [done| |done].
    rewrite Hdetect. split; [|split].
    + intros keys ->. by destruct (CommonOptions.knobs options).
    + intros knobs ->. by destruct (CommonOptions.keys options).
    + intros Hkeys Hknobs. rewrite Hkeys, Hknobs.
      cbn [Cli.normalizeKeypadInfo PartialKeypadInfo.keys PartialKeypadInfo.knobs].
      cbv zeta. rewrite readKeypadInfo_run.
      by destruct (match HidIO.incoming hid with [] => _ | _ => _ end).
Qed.

(** X24: [executeKeypadTask] with the task that reads the key map
    table, [keypad => keypad.readKeyMapTable()] (the first step of the
    task [init] starts; [init] itself neither awaits nor returns that
    task, so nothing is stated of what [init] returns). With exactly
    one device and neither [keys] nor [knobs] given, when the device
    answers the info request with [keys] at offset 2 and [knobs] at
    offset 3 and then, for each of the [L] layers ([options.layers], 3
    by default), with [keys + 3 * knobs] responses of that layer, the
    task gets the table of these responses, layer by layer; the info
    request and then the [L] layer requests were written, all for the
    info just read, and [1 + L * (keys + 3 * knobs)] responses read. *)
Theorem executeKeypadTask_reads_table
    (findHidDevices : HidDeviceQuery.t -> list HidDevice.t)
    (options : CommonOptions.t) (hid : HidIO.t) (res : Buffer.t) (keys knobs : Z)
    (responses : list (list Buffer.t)) (rest : list Buffer.t) :
  let info := KeypadInfo.mk keys knobs in
  let L := Z.to_nat (task_layers options) in
  let count := Z.to_nat (Types.getKeyCount info) in
  length (findHidDevices (keypad_query (CommonOptions.path options))) = 1%nat ->
  CommonOptions.keys options = None -> CommonOptions.knobs options = None ->
  HidIO.incoming hid = res :: concat responses ++ rest ->
  res !! 2%nat = Some keys -> res !! 3%nat = Some knobs ->
  length responses = L ->
  accepted_layers count 1 responses = true ->
  Cli.executeKeypadTask findHidDevices options
    (fun keypad => run_io (Keypad.readKeyMapTable keypad)) hid
  = (Done (stored_responses <$> responses),
     HidIO.mk (HidIO.written hid ++ info_request :: layer_requests info 1 L)
       (S (HidIO.reads hid) + L * count) rest).
Proof.
  intros info L count Hdevices Hkeys Hknobs Hincoming Hres2 Hres3 Hlen Haccepted.
  rewrite executeKeypadTask_run.
  pose proof (detectKeypad_run findHidDevices (CommonOptions.path options)) as Hdetect.
  destruct (findHidDevices _) as [|device [|device' devices']]; try discriminate Hdevices.
  rewrite Hdetect, Hkeys, Hknobs.
  cbn [Cli.normalizeKeypadInfo PartialKeypadInfo.keys PartialKeypadInfo.knobs].
  rewrite readKeypadInfo_run, Hincoming. cbn [tail].
  destruct res as [|b0 res']; [discriminate Hres2|].
  rewrite Hres2, Hres3. fold info.
  unfold run_io, Keypad.readKeyMapTable, readKeypadKeyMapTable.
  cbn [Keypad.info Keypad.layers]. fold L. rewrite <- Hlen.
  rewrite (readKeypadKeyMapTable_loop_accepted info responses rest 0 []) by done.
  cbn [app]. rewrite <- app_assoc. reflexivity.
Qed.

Lemma executeKeypadTask_reads_table_witness :
  let key1 keyId layerId : Buffer.t :=
    [0x03; 0xfa; keyId; layerId; 0x01; 0; 0; 0; 0; 0; 0x01; 0x00; 0x12] in
  let info := KeypadInfo.mk 1 0 in
  Cli.executeKeypadTask (fun _ => [HidDevice.mk None 0x1189 0x8840 0 0])
    (CommonOptions.mk None (Some 2) None None)
    (fun keypad => run_io (Keypad.readKeyMapTable keypad))
    (HidIO.mk [] 0 [[0x03; 0xfb; 1; 0]; key1 1 1; key1 1 2])
  = (Done (stored_responses <$> [[key1 1 1]; [key1 1 2]]),
     HidIO.mk (info_request :: layer_requests info 1 2) 3 []).
Proof.
  intros key1 info.
  apply (executeKeypadTask_reads_table (fun _ => [HidDevice.mk None 0x1189 0x8840 0 0])
           (CommonOptions.mk None (Some 2) None None)
           (HidIO.mk [] 0 [[0x03; 0xfb; 1; 0]; key1 1 1; key1 1 2])
           [0x03; 0xfb; 1; 0] 1 0 [[key1 1 1]; [key1 1 2]] []);
    reflexivity.
Defined.

(* ===================================================================== *)
(** ** The key id of a key mapping (cli-impl.ts) *)
(* ===================================================================== *)

Lemma KnobActions_entries (name : string) (action : Z) :
  Types.findKnobAction name = JsObject.Own action ->
  Types.findKnobActionName action = Some name
  /\ 0 <= action <= 2.
Proof.
  intros Hget. apply get_Own_elem in Hget. revert Hget.
  unfold Types.KnobActions. rewrite !elem_of_cons, elem_of_nil.
  intros [H|[H|[H|H]]]; [| | |done]; injection H as -> ->; repeat split; lia.
Qed.

Lemma KnobActions_number (action : Z) :
  0 <= action <= 2 ->
  Types.findKnobAction (Types.number_text action) = JsObject.Undefined.
Proof.
  intros Haction.
  assert (action = 0 \/ action = 1 \/ action = 2) as [-> | [-> | ->]] by lia; reflexivity.
Qed.

Lemma range_check (n high : Z) :
  (n <=? 0) || (high <? n) = negb (bool_decide (1 <= n <= high)).
Proof.
  destruct (bool_decide (1 <= n <= high)) eqn:Hrange.
  - apply bool_decide_eq_true in Hrange. apply orb_false_intro; lia.
  - apply bool_decide_eq_false in Hrange.
    destruct (n <=? 0) eqn:Hn; [done|]. apply Z.leb_gt in Hn.
    cbn. apply Z.ltb_lt. lia.
Qed.

(** X25: [resolveKeyId], case by case, for an info and options of safe
    numbers ([|keys| + 3 * |knobs| <= 2^53], the numbers of the options
    at most 2^53, where nothing is rounded). With [options.keyId] it
    returns that id when it is between 1 and [getKeyCount(info)] and
    throws 'invalid key ID' otherwise, whatever the knob options.
    Without it, it throws 'cannot resolve the key ID' when the knob id
    or the knob action is missing, 'cannot process the knob action'
    when [KnobActions[knobAction]] is [undefined], and 'invalid knob
    ID' when the knob id is not between 1 and [info.knobs]. For a name
    of [KnobActions] and a knob id in range it returns
    [1 + keys + 3 * (knobId - 1) + action], a key id above [keys] and
    at most [getKeyCount(info)], from which [getKnobByKeyId] gives the
    knob and the name back. For a name that every object inherits
    ('toString', 'constructor', ...) and a knob id in range nothing is
    thrown: the code returns the sum of a number and a function, a
    text, where the model stops. *)
Theorem resolveKeyId_cases (info : KeypadInfo.t) (options : SetKeyMapOptions.t) :
  let keys := KeypadInfo.keys info in
  let knobs := KeypadInfo.knobs info in
  let keyCount := Types.getKeyCount info in
  let resolved := Cli.resolveKeyId info options in
  safe_info info = true -> safe_options options = true ->
  (forall keyId,
      SetKeyMapOptions.keyId options = Some keyId ->
      (1 <= keyId <= keyCount -> resolved = Done keyId)
      /\ (~ 1 <= keyId <= keyCount ->
          resolved = Thrown (Cli.invalid_key_ID keyId keyCount)))
  /\ (SetKeyMapOptions.keyId options = None ->
      (SetKeyMapOptions.knobId options = None
       \/ SetKeyMapOptions.knobAction options = None ->
       resolved = Thrown Cli.unresolved_key_ID)
      /\ (forall knobId knobAction,
          SetKeyMapOptions.knobId options = Some knobId ->
          SetKeyMapOptions.knobAction options = Some knobAction ->
          let name := Cli.option_text knobAction in
          (Types.findKnobAction name = JsObject.Undefined ->
           resolved = Thrown (Cli.invalid_knob_action knobAction))
          /\ (Types.findKnobAction name <> JsObject.Undefined ->
              ~ 1 <= knobId <= knobs ->
              resolved = Thrown (Cli.invalid_knob_ID knobId knobs))
          /\ (Types.findKnobAction name = JsObject.Inherited ->
              1 <= knobId <= knobs ->
              resolved = OutOfModel)
          /\ (forall action,
              Types.findKnobAction name = JsObject.Own action ->
              1 <= knobId <= knobs ->
              let keyId := 1 + keys + 3 * (knobId - 1) + action in
              0 <= action <= 2
              /\ Types.findKnobActionName action = Some name
              /\ Types.getKeyIdForKnob info knobId action = Some keyId
              /\ resolved = Done keyId
              /\ keys < keyId <= keyCount
              /\ (0 <= keys -> 1 <= keyId)
              /\ Types.getKnobByKeyId info keyId
                 = Some (KnobIdAndAction.mk (Some knobId) (Some name))))).
Proof.
  intros keys knobs keyCount resolved Hinfo _. unfold resolved, Cli.resolveKeyId.
  apply Z.leb_le in Hinfo. fold keys knobs in Hinfo.
  fold keys knobs keyCount. split.
  - intros keyId ->. rewrite range_check. split; intros Hrange.
    + by rewrite bool_decide_eq_true_2.
    + by rewrite bool_decide_eq_false_2.
  - intros ->. split.
    + intros [-> | ->]; [done|]. by destruct (SetKeyMapOptions.knobId options).
    + intros knobId knobAction -> ->. set (name := Cli.option_text knobAction).
      rewrite range_check.
      split; [by intros ->|]. split; [|split].
      * intros Hfound Hrange. rewrite bool_decide_eq_false_2 by done.
        by destruct (Types.findKnobAction name).
      * intros -> Hrange. by rewrite bool_decide_eq_true_2.
      * intros action Hfound Hrange. rewrite Hfound, bool_decide_eq_true_2 by done.
        cbn [negb].
        apply KnobActions_entries in Hfound as [Hname Haction].
        split; [done|]. split; [done|].
        rewrite getKeyIdForKnob_safe by (fold keys; lia).
        split; [done|]. split; [done|].
        unfold keyCount, Types.getKeyCount. fold keys knobs.
        split; [lia|]. split; [lia|].
        unfold keys.
        rewrite getKnobByKeyId_getKeyIdForKnob by (fold keys; lia).
        by rewrite Hname.
Qed.

Lemma resolveKeyId_cases_witness :
  0 <= 2 <= 2
  /\ Types.findKnobActionName 2 = Some "Right"%string
  /\ Types.getKeyIdForKnob (KeypadInfo.mk 3 1) 1 2 = Some 6
  /\ Cli.resolveKeyId (KeypadInfo.mk 3 1)
       (SetKeyMapOptions.mk (CommonOptions.mk None None None None) 1 None (Some 1)
          (Some (OptionText "Right")))
     = Done 6
  /\ 3 < 6 <= Types.getKeyCount (KeypadInfo.mk 3 1)
  /\ (0 <= 3 -> 1 <= 6)
  /\ Types.getKnobByKeyId (KeypadInfo.mk 3 1) 6
     = Some (KnobIdAndAction.mk (Some 1) (Some "Right"%string)).
Proof.
  pose proof (resolveKeyId_cases (KeypadInfo.mk 3 1)
                (SetKeyMapOptions.mk (CommonOptions.mk None None None None) 1 None (Some 1)
                   (Some (OptionText "Right"))) eq_refl eq_refl) as [_ Hknob].
  destruct (Hknob eq_refl) as [_ Hcases].
  destruct (Hcases 1 (OptionText "Right") eq_refl eq_refl) as (_ & _ & _ & Hown).
  apply (Hown 2 eq_refl). cbn. lia.
Defined.

(** X26: the knob action of the command line is never accepted. The
    argument parser of [--knob-action] stores [KnobActions[value]], a
    number, where [resolveKeyId] looks the option up as a name: for
    every value the parser accepts and options without [keyId] that
    hold the parsed knob action, [resolveKeyId] throws a
    ConfigurationError for every keypad, and so [setKeyMap] throws it
    before it looks for a device: nothing is written or read. *)
Theorem parsed_knobAction_is_refused (parseArg : option (string -> outcome unit))
    (value : string) (action : Z) (options : SetKeyMapOptions.t) :
  Cli.newOptionRecord_argParser parseArg Types.KnobActions value
  = Done (JsObject.Own action) ->
  SetKeyMapOptions.keyId options = None ->
  SetKeyMapOptions.knobAction options = Some (OptionNumber action) ->
  Types.findKnobAction value = JsObject.Own action
  /\ (forall info,
         exists message,
           Cli.resolveKeyId info options = Thrown (ConfigurationError message [])
           /\ (SetKeyMapOptions.knobId options <> None ->
               message = ("cannot process the knob action: '"
                          +:+ Types.number_text action +:+ "' is invalid")%string))
  /\ (forall findHidDevices keys hid,
         exists message,
           Cli.setKeyMap findHidDevices keys options hid
           = (Thrown (ConfigurationError message []), hid)).
Proof.
  intros Hparse HkeyId HknobAction.
  assert (Types.findKnobAction value = JsObject.Own action) as Hget.
  { unfold Cli.newOptionRecord_argParser in Hparse. unfold Types.findKnobAction.
    destruct (match parseArg with Some _ => _ | None => _ end); cbn in Hparse; congruence. }
  pose proof (KnobActions_entries _ _ Hget) as [_ Haction].
  assert (forall info,
             exists message,
               Cli.resolveKeyId info options = Thrown (ConfigurationError message [])
               /\ (SetKeyMapOptions.knobId options <> None ->
                   message = ("cannot process the knob action: '"
                              +:+ Types.number_text action +:+ "' is invalid")%string))
    as Hresolve.
  { intros info. unfold Cli.resolveKeyId. rewrite HkeyId, HknobAction.
    destruct (SetKeyMapOptions.knobId options) as [knobId|].
    - cbn [Cli.option_text]. rewrite KnobActions_number by done.
      eexists. split; [reflexivity|done].
    - eexists. split; [reflexivity|done]. }
  split; [done|]. split; [done|].
  intros findHidDevices keys hid. unfold Cli.setKeyMap.
  destruct (Hresolve (KeypadInfo.mk 0x100 0x100)) as (message & -> & _).
  by exists message.
Qed.

Lemma parsed_knobAction_is_refused_witness :
  Types.findKnobAction "Left" = JsObject.Own 0
  /\ (forall info,
         exists message,
           Cli.resolveKeyId info
             (SetKeyMapOptions.mk (CommonOptions.mk None None None None) 1 None (Some 1)
                (Some (OptionNumber 0)))
           = Thrown (ConfigurationError message [])
           /\ (Some 1 <> None ->
               message = ("cannot process the knob action: '"
                          +:+ Types.number_text 0 +:+ "' is invalid")%string))
  /\ (forall findHidDevices keys hid,
         exists message,
           Cli.setKeyMap findHidDevices keys
             (SetKeyMapOptions.mk (CommonOptions.mk None None None None) 1 None (Some 1)
                (Some (OptionNumber 0))) hid
           = (Thrown (ConfigurationError message []), hid)).
Proof.
  apply (parsed_knobAction_is_refused None "Left" 0
           (SetKeyMapOptions.mk (CommonOptions.mk None None None None) 1 None (Some 1)
              (Some (OptionNumber 0))));
    reflexivity.
Defined.

Lemma writeKeypadKeyMap_run (k : KeyMapWithId.t) (hid : HidIO.t) :
  writeKeypadKeyMap k hid
  = match packKeyMap (KeyMapWithId.keyMap k) with
    | Ok data =>
        (Ok 65,
         HidIO.mk
           (HidIO.written hid
            ++ [[0x03; 0xfd; KeyMapWithId.keyId k; KeyMapWithId.layerId k] ++ data
                ++ replicate (61 - length data) 0])
           (HidIO.reads hid) (HidIO.incoming hid))
    | Err e => (Err e, hid)
    end.
Proof.
  unfold writeKeypadKeyMap, io_bind, io_lift.
  destruct (packKeyMap (KeyMapWithId.keyMap k)) as [data|e] eqn:Hpack; [|done].
  pose proof (packKeyMap_length _ _ Hpack) as Hlen.
  unfold writeKeypadKeyMapRaw, packWriteKeypadKeyMapParam.
  cbn [WriteKeypadKeyMapParam.keyId WriteKeypadKeyMapParam.layerId
       WriteKeypadKeyMapParam.data].
  rewrite sendRequest_short by (cbn; unfold REQUEST_SIZE; lia).
  cbn [length app].
  replace (REQUEST_SIZE - S (S (S (S (length data)))))%nat
    with (61 - length data)%nat by (unfold REQUEST_SIZE; lia).
  reflexivity.
Qed.

Lemma detectKeypad_cases (findHidDevices : HidDeviceQuery.t -> list HidDevice.t)
    (path : option string) :
  (exists device, Cli.detectKeypad findHidDevices path = Done device)
  \/ (exists message lines,
         Cli.detectKeypad findHidDevices path = Thrown (ConfigurationError message lines)).
Proof.
  pose proof (detectKeypad_run findHidDevices path) as Hdetect.
  destruct (findHidDevices (keypad_query path)) as [|device [|device' devices]].
  - destruct Hdetect as [message ->]. eauto.
  - rewrite Hdetect. eauto.
  - destruct Hdetect as [message ->]. eauto.
Qed.

(** The task of [setKeyMap], run on a prepared keypad. *)
Lemma setKeyMap_task_run (keys : string) (options : SetKeyMapOptions.t)
    (keypad : Keypad.t) (hid : HidIO.t) :
  (keyId <~~ run_lift (Cli.resolveKeyId (Keypad.info keypad) options) ;;
   let keyCount := Keypad.getKeyCount keypad in
   if keyCount <=? keyId
   then run_lift
          (Thrown (ConfigurationError
                     ("cannot validate the key ID: (" +:+ Types.number_text keyId
                      +:+ "). The resolved ID exceeds the total number of keys ("
                      +:+ Types.number_text keyCount +:+ ")") []))
   else
     (keyMap <~~ run_lift (Cli.createKeyMapFromText keys) ;;
      _ <~~ run_io (Keypad.writeKeyMap keypad
                      (KeyMapWithId.mk (SetKeyMapOptions.layerId options) keyId keyMap)) ;;
      run_ret tt))%run hid
  = match Cli.resolveKeyId (Keypad.info keypad) options with
    | Done keyId =>
        if Types.getKeyCount (Keypad.info keypad) <=? keyId
        then (Thrown (ConfigurationError
                        ("cannot validate the key ID: (" +:+ Types.number_text keyId
                         +:+ "). The resolved ID exceeds the total number of keys ("
                         +:+ Types.number_text (Types.getKeyCount (Keypad.info keypad))
                         +:+ ")") []), hid)
        else
          match Cli.createKeyMapFromText keys with
          | Done keyMap =>
              match packKeyMap keyMap with
              | Ok data =>
                  (Done tt,
                   HidIO.mk
                     (HidIO.written hid
                      ++ [[0x03; 0xfd; keyId; SetKeyMapOptions.layerId options] ++ data
                          ++ replicate (61 - length data) 0])
                     (HidIO.reads hid) (HidIO.incoming hid))
              | Err e => (Thrown (ApiError e), hid)
              end
          | Thrown e => (Thrown e, hid)
          | OutOfModel => (OutOfModel, hid)
          end
    | Thrown e => (Thrown e, hid)
    | OutOfModel => (OutOfModel, hid)
    end.
Proof.
  unfold run_bind at 1, run_lift at 1.
  destruct (Cli.resolveKeyId (Keypad.info keypad) options) as [keyId| |]; [|done|done].
  cbv zeta. unfold Keypad.getKeyCount.
  destruct (Types.getKeyCount (Keypad.info keypad) <=? keyId); [done|].
  unfold run_bind at 1, run_lift at 1.
  destruct (Cli.createKeyMapFromText keys) as [keyMap| |]; [|done|done].
  unfold run_bind, run_io, run_ret, Keypad.writeKeyMap.
  rewrite writeKeypadKeyMap_run. cbn [KeyMapWithId.keyMap KeyMapWithId.keyId KeyMapWithId.layerId].
  by destruct (packKeyMap keyMap).
Qed.

(** [setKeyMap] on one device, once the info of the keypad is there. *)
Lemma setKeyMap_run (findHidDevices : HidDeviceQuery.t -> list HidDevice.t)
    (keys : string) (options : SetKeyMapOptions.t) (hid hid1 : HidIO.t)
    (info : KeypadInfo.t) :
  let common := SetKeyMapOptions.common options in
  let given := Cli.normalizeKeypadInfo
                 (PartialKeypadInfo.mk (CommonOptions.keys common)
                    (CommonOptions.knobs common)) in
  (forall e, Cli.resolveKeyId (KeypadInfo.mk 0x100 0x100) options <> Thrown e) ->
  length (findHidDevices (keypad_query (CommonOptions.path common))) = 1%nat ->
  given = Some info /\ hid1 = hid
  \/ given = None /\ readKeypadInfo hid = (Ok info, hid1) ->
  Cli.setKeyMap findHidDevices keys options hid
  = match Cli.resolveKeyId info options with
    | Done keyId =>
        if Types.getKeyCount info <=? keyId
        then (Thrown (exceeds_key_count keyId (Types.getKeyCount info)), hid1)
        else
          match Cli.createKeyMapFromText keys with
          | Done keyMap =>
              match packKeyMap keyMap with
              | Ok data =>
                  (Done tt,
                   HidIO.mk
                     (HidIO.written hid1
                      ++ [key_map_request (SetKeyMapOptions.layerId options) keyId data])
                     (HidIO.reads hid1) (HidIO.incoming hid1))
              | Err e => (Thrown (ApiError e), hid1)
              end
          | Thrown e => (Thrown e, hid1)
          | OutOfModel => (OutOfModel, hid1)
          end
    | Thrown e => (Thrown e, hid1)
    | OutOfModel => (OutOfModel, hid1)
    end.
Proof.
  intros common given Hpre Hdevices Hinfo. unfold Cli.setKeyMap. fold common.
  assert (forall k : run unit,
             match Cli.resolveKeyId (KeypadInfo.mk 256 256) options with
             | Thrown e => run_lift (Thrown e)
             | _ => k
             end = k) as ->.
  { intros k. destruct (Cli.resolveKeyId (KeypadInfo.mk 256 256) options) as [|e|] eqn:H;
      [done| |done]. by destruct (Hpre e). }
  rewrite executeKeypadTask_run.
  pose proof (detectKeypad_run findHidDevices (CommonOptions.path common)) as Hdetect.
  destruct (findHidDevices _) as [|device [|device' devices']]; try discriminate Hdevices.
  rewrite Hdetect. fold given.
  destruct Hinfo as [[-> ->] | [-> Hread]].
  - by rewrite setKeyMap_task_run.
  - rewrite Hread. by rewrite setKeyMap_task_run.
Qed.

(** X27: [setKeyMap], case by case, for options and an info of safe
    numbers (at most 2^53, where nothing is rounded). It throws what
    [resolveKeyId] throws for a keypad of 0x100 keys and 0x100 knobs
    before it looks for a device, and without exactly one device it
    throws with nothing written. With one device the info of the keypad is the one given by
    [keys] or [knobs], without any exchange, or else the one read from
    the device: the info request is written and one response read, and
    a failed read is thrown. From there on: what [resolveKeyId] throws
    for that info is thrown; a key id that is not below
    [getKeyCount(info)] is refused, so the last key id of a keypad,
    which [resolveKeyId] accepts, is refused too; what
    [createKeyMapFromText] or [packKeyMap] throws is thrown; in these
    cases no KeyMap is written. Otherwise [setKeyMap] returns after it
    wrote one report: the command 0x03 0xfd, the key id, the layer id
    and the packed KeyMap of the text, padded to 65 bytes. Where
    [resolveKeyId] or [createKeyMapFromText] gives a value of no number
    or action (an inherited name such as 'toString' as knob action, X25)
    the code goes on with that value; the model stops there. *)
Theorem setKeyMap_writes (findHidDevices : HidDeviceQuery.t -> list HidDevice.t)
    (keys : string) (options : SetKeyMapOptions.t) (hid : HidIO.t) :
  let common := SetKeyMapOptions.common options in
  let given := Cli.normalizeKeypadInfo
                 (PartialKeypadInfo.mk (CommonOptions.keys common)
                    (CommonOptions.knobs common)) in
  let devices := findHidDevices (keypad_query (CommonOptions.path common)) in
  let checked := Cli.resolveKeyId (KeypadInfo.mk 0x100 0x100) options in
  let run := Cli.setKeyMap findHidDevices keys options hid in
  safe_options options = true ->
  (forall e, checked = Thrown e -> run = (Thrown e, hid))
  /\ ((forall e, checked <> Thrown e) ->
      (length devices <> 1%nat ->
       exists message lines, run = (Thrown (ConfigurationError message lines), hid))
      /\ (length devices = 1%nat ->
          (forall e hid1,
              given = None -> readKeypadInfo hid = (Err e, hid1) ->
              run = (Thrown (ApiError e), hid1))
          /\ (forall info hid1,
              given = Some info /\ hid1 = hid
              \/ given = None /\ readKeypadInfo hid = (Ok info, hid1) ->
              safe_info info = true ->
              (given = None ->
               hid1 = HidIO.mk (HidIO.written hid ++ [info_request])
                        (S (HidIO.reads hid)) (tail (HidIO.incoming hid)))
              /\ (forall e,
                  Cli.resolveKeyId info options = Thrown e -> run = (Thrown e, hid1))
              /\ (Cli.resolveKeyId info options = OutOfModel -> fst run = OutOfModel)
              /\ (forall keyId,
                  Cli.resolveKeyId info options = Done keyId ->
                  (Types.getKeyCount info <= keyId ->
                   run = (Thrown (exceeds_key_count keyId (Types.getKeyCount info)),
                          hid1))
                  /\ (keyId < Types.getKeyCount info ->
                      (forall e,
                          Cli.createKeyMapFromText keys = Thrown e ->
                          run = (Thrown e, hid1))
                      /\ (Cli.createKeyMapFromText keys = OutOfModel ->
                          fst run = OutOfModel)
                      /\ (forall keyMap,
                          Cli.createKeyMapFromText keys = Done keyMap ->
                          (forall e,
                              packKeyMap keyMap = Err e ->
                              run = (Thrown (ApiError e), hid1))
                          /\ (forall data,
                              packKeyMap keyMap = Ok data ->
                              run
                              = (Done tt,
                                 HidIO.mk
                                   (HidIO.written hid1
                                    ++ [key_map_request
                                          (SetKeyMapOptions.layerId options) keyId data])
                                   (HidIO.reads hid1) (HidIO.incoming hid1))))))))).
Proof.
  intros common given devices checked run _. split.
  - intros e Hchecked. unfold run, Cli.setKeyMap. fold checked. by rewrite Hchecked.
  - intros Hchecked.
    assert (run = Cli.executeKeypadTask findHidDevices common
                    (fun keypad =>
                       (keyId <~~ run_lift (Cli.resolveKeyId (Keypad.info keypad) options) ;;
                        let keyCount := Keypad.getKeyCount keypad in
                        if keyCount <=? keyId
                        then run_lift
                               (Thrown (ConfigurationError
                                          ("cannot validate the key ID: ("
                                           +:+ Types.number_text keyId
                                           +:+ "). The resolved ID exceeds the total number of keys ("
                                           +:+ Types.number_text keyCount +:+ ")") []))
                        else
                          (keyMap <~~ run_lift (Cli.createKeyMapFromText keys) ;;
                           _ <~~ run_io (Keypad.writeKeyMap keypad
                                           (KeyMapWithId.mk (SetKeyMapOptions.layerId options)
                                              keyId keyMap)) ;;
                           run_ret tt))%run) hid) as Hrun.
    { unfold run, Cli.setKeyMap. fold checked common.
      destruct checked as [|e|] eqn:H; [done| |done]. by destruct (Hchecked e). }
    pose proof (detectKeypad_run findHidDevices (CommonOptions.path common)) as Hdetect.
    fold devices in Hdetect.
    split.
    + intros Hdevices. rewrite Hrun, executeKeypadTask_run.
      destruct devices as [|device [|device' devices']]; [|done|];
        destruct Hdetect as [message ->]; eauto.
    + intros Hdevices. split.
      * intros e hid1 Hgiven Hread. rewrite Hrun, executeKeypadTask_run.
        destruct devices as [|device [|device' devices']]; try discriminate Hdevices.
        rewrite Hdetect. fold given. by rewrite Hgiven, Hread.
      * intros info hid1 Hinfo _.
        pose proof (setKeyMap_run findHidDevices keys options hid hid1 info
                      Hchecked Hdevices Hinfo) as Heq.
        fold run in Heq.
        split.
        { intros Hgiven. destruct Hinfo as [[Hsome _] | [_ Hread]]; [congruence|].
          rewrite readKeypadInfo_run in Hread. by injection Hread. }
        split; [by intros e Hresolve; rewrite Hresolve in Heq|].
        split; [by intros Hresolve; rewrite Hresolve in Heq; rewrite Heq|].
        intros keyId Hresolve. rewrite Hresolve in Heq. split.
        { intros Hcount. by rewrite (proj2 (Z.leb_le _ _)) in Heq. }
        intros Hcount. rewrite (proj2 (Z.leb_gt _ _)) in Heq by done.
        split; [by intros e Hmap; rewrite Hmap in Heq|].
        split; [by intros Hmap; rewrite Hmap in Heq; rewrite Heq|].
        intros keyMap Hmap. rewrite Hmap in Heq.
        split; [by intros e Hpack; rewrite Hpack in Heq|].
        by intros data Hpack; rewrite Hpack in Heq.
Qed.

Lemma setKeyMap_writes_witness :
  let findHidDevices := fun _ : HidDeviceQuery.t => [HidDevice.mk None 0x1189 0x8840 0 0] in
  let options keyId :=
    SetKeyMapOptions.mk (CommonOptions.mk None None None None) 2 (Some keyId) None None in
  let hid := HidIO.mk [] 0 [[0x03; 0xfb; 3; 1]] in
  Cli.setKeyMap findHidDevices "Ctrl+A" (options 5) hid
  = (Done tt,
     HidIO.mk [info_request;
               [0x03; 0xfd; 5; 2; 0x01; 0; 0; 0; 0; 0; 0x01; 0x01; 0x04] ++ replicate 52 0]
       1 []).
Proof.
  intros findHidDevices options hid.
  pose proof (setKeyMap_writes findHidDevices "Ctrl+A" (options 5) hid eq_refl)
    as [_ Hrun].
  destruct Hrun as [_ Hone]; [done|].
  destruct (Hone eq_refl) as [_ Hinfo].
  destruct (Hinfo (KeypadInfo.mk 3 1) (HidIO.mk [info_request] 1 []))
    as (_ & _ & _ & Hdone); [right; split; reflexivity|reflexivity|].
  destruct (Hdone 5 eq_refl) as [_ Hbelow].
  destruct Hbelow as (_ & _ & Hmap); [vm_compute; reflexivity|].
  destruct (Hmap (KeyMapKeys [KeyAction.mk 0x01 0x04]) eq_refl) as [_ Hpack].
  exact (Hpack [0x01; 0; 0; 0; 0; 0; 0x01; 0x01; 0x04] eq_refl).
Defined.

Example setKeyMap_vectors :
  let findHidDevices := fun _ : HidDeviceQuery.t => [HidDevice.mk None 0x1189 0x8840 0 0] in
  let options keyId :=
    SetKeyMapOptions.mk (CommonOptions.mk None None (Some 3) (Some 1)) 2 (Some keyId)
      None None in
  Cli.setKeyMap findHidDevices "Ctrl+A" (options 5) (HidIO.mk [] 0 [])
  = (Done tt,
     HidIO.mk [[0x03; 0xfd; 5; 2; 0x01; 0; 0; 0; 0; 0; 0x01; 0x01; 0x04] ++ replicate 52 0]
       0 [])
  /\ Cli.resolveKeyId (KeypadInfo.mk 3 1) (options 6) = Done 6
  /\ Cli.setKeyMap findHidDevices "Ctrl+A" (options 6) (HidIO.mk [] 0 [])
     = (Thrown (ConfigurationError
                  "cannot validate the key ID: (6). The resolved ID exceeds the total number of keys (6)"
                  []),
        HidIO.mk [] 0 []).
Proof. repeat split; vm_compute; reflexivity. Qed.

(* ===================================================================== *)
(** ** The LED of a layer (cli-impl.ts) *)
(* ===================================================================== *)

Lemma writeKeypadLed_run (param : WriteKeypadLedParam.t) (hid : HidIO.t) :
  writeKeypadLed param hid
  = (Ok tt,
     HidIO.mk
       (HidIO.written hid
        ++ [packWriteKeypadLedParam param ++ replicate 52 0; end_request])
       (HidIO.reads hid) (HidIO.incoming hid)).
Proof.
  unfold writeKeypadLed, io_bind.
  rewrite sendRequest_short by (cbn; unfold REQUEST_SIZE; lia).
  rewrite sendRequest_short by (cbn; unfold REQUEST_SIZE; lia).
  cbn [HidIO.written HidIO.reads HidIO.incoming]. unfold io_ret.
  rewrite <- app_assoc. reflexivity.
Qed.

Lemma Led_entries :
  (forall ledMode ledModeId,
      Types.findLedMode ledMode = JsObject.Own ledModeId -> 0 <= ledModeId <= 5)
  /\ (forall ledColor ledColorId,
      Types.findLedColor ledColor = JsObject.Own ledColorId -> 1 <= ledColorId <= 7).
Proof.
  split.
  - intros ledMode ledModeId Hget. apply get_Own_elem in Hget. revert Hget.
    unfold Types.LedMode. rewrite !elem_of_cons, elem_of_nil.
    intros H. repeat (destruct H as [H|H]; [injection H as -> ->; lia|]). done.
  - intros ledColor ledColorId Hget. apply get_Own_elem in Hget. revert Hget.
    unfold Types.LedColor. rewrite !elem_of_cons, elem_of_nil.
    intros H. repeat (destruct H as [H|H]; [injection H as -> ->; lia|]). done.
Qed.

(** X28: the LED parameters of the command line, case by case. For a
    mode that is a name of [LedMode] and a color that is a name of
    [LedColor], [resolveWriteLedParams] returns the layer id with their
    numbers; the byte the packet then holds at offset 0x0C has the
    color (1 to 7) in its high half and the mode (0 to 5) in its low
    half, so both can be read from it; and [setLed], with one device
    and a given [keys] or [knobs], writes the LED packet and the
    terminator, two reports, and reads nothing. A mode that is
    [undefined] in [LedMode] throws 'invalid LED mode', whatever the
    color; with another mode, a color that is [undefined] in
    [LedColor] throws 'invalid LED color'; and [setLed] throws either
    before it looks for a device. With a name that every object
    inherits ('toString', 'constructor', ...) as mode or color, and no
    [undefined] one, nothing is thrown: the code returns parameters
    that hold a function in the place of a number, where the model
    stops. *)
Theorem resolveWriteLedParams_packet (layerId : Z) (ledMode ledColor : string) :
  let resolved := Cli.resolveWriteLedParams layerId ledMode ledColor in
  (forall ledModeId ledColorId,
      Types.findLedMode ledMode = JsObject.Own ledModeId ->
      Types.findLedColor ledColor = JsObject.Own ledColorId ->
      let param := WriteKeypadLedParam.mk layerId ledModeId ledColorId in
      resolved = Done param
      /\ (ledMode, ledModeId) ∈ Types.LedMode
      /\ (ledColor, ledColorId) ∈ Types.LedColor
      /\ 0 <= ledModeId <= 5
      /\ 1 <= ledColorId <= 7
      /\ (exists ledId,
             packWriteKeypadLedParam param !! 12%nat = Some ledId
             /\ 0x10 <= ledId <= 0x75
             /\ ledId / 16 = ledColorId
             /\ ledId mod 16 = ledModeId)
      /\ (forall findHidDevices common hid info,
             length (findHidDevices (keypad_query (CommonOptions.path common))) = 1%nat ->
             Cli.normalizeKeypadInfo
               (PartialKeypadInfo.mk (CommonOptions.keys common)
                  (CommonOptions.knobs common))
             = Some info ->
             Cli.setLed findHidDevices ledMode ledColor (SetLedOptions.mk common layerId) hid
             = (Done tt,
                HidIO.mk
                  (HidIO.written hid
                   ++ [packWriteKeypadLedParam param ++ replicate 52 0; end_request])
                  (HidIO.reads hid) (HidIO.incoming hid))))
  /\ (Types.findLedMode ledMode = JsObject.Undefined ->
      resolved
      = Thrown (ConfigurationError ("invalid LED mode: '" +:+ ledMode +:+ "'") []))
  /\ (Types.findLedMode ledMode <> JsObject.Undefined ->
      Types.findLedColor ledColor = JsObject.Undefined ->
      resolved
      = Thrown (ConfigurationError ("invalid LED color: '" +:+ ledColor +:+ "'") []))
  /\ (Types.findLedMode ledMode <> JsObject.Undefined ->
      Types.findLedColor ledColor <> JsObject.Undefined ->
      Types.findLedMode ledMode = JsObject.Inherited
      \/ Types.findLedColor ledColor = JsObject.Inherited ->
      resolved = OutOfModel)
  /\ (forall findHidDevices common hid e,
      resolved = Thrown e ->
      Cli.setLed findHidDevices ledMode ledColor (SetLedOptions.mk common layerId) hid
      = (Thrown e, hid)).
Proof.
  intros resolved. unfold resolved.
  destruct Led_entries as [Hmodes Hcolors].
  split; [|split; [|split; [|split]]].
  - intros ledModeId ledColorId Hmode Hcolor.
    set (param := WriteKeypadLedParam.mk layerId ledModeId ledColorId).
    assert (Cli.resolveWriteLedParams layerId ledMode ledColor = Done param) as Hresolve.
    { unfold Cli.resolveWriteLedParams. by rewrite Hmode, Hcolor. }
    specialize (Hmodes _ _ Hmode). specialize (Hcolors _ _ Hcolor).
    split; [done|].
    split; [by apply get_Own_elem|]. split; [by apply get_Own_elem|].
    split; [done|]. split; [done|]. split.
    + eexists. split; [reflexivity|].
      cbn [WriteKeypadLedParam.ledModeId WriteKeypadLedParam.ledColorId param].
      split; [lia|]. split.
      * rewrite Z.div_add_l by lia. rewrite Z.div_small by lia. lia.
      * rewrite Z.add_comm, Z.mod_add by lia. apply Z.mod_small. lia.
    + intros findHidDevices common hid info Hdevices Hinfo.
      unfold Cli.setLed, run_bind at 1, run_lift at 1. cbn [SetLedOptions.layerId].
      rewrite Hresolve. cbn [SetLedOptions.common].
      rewrite executeKeypadTask_run.
      pose proof (detectKeypad_run findHidDevices (CommonOptions.path common)) as Hdetect.
      destruct (findHidDevices _) as [|device [|device' devices']];
        try discriminate Hdevices.
      rewrite Hdetect, Hinfo. unfold run_io, Keypad.writeLed.
      by rewrite writeKeypadLed_run.
  - intros Hmode. unfold Cli.resolveWriteLedParams. by rewrite Hmode.
  - intros Hmode Hcolor. unfold Cli.resolveWriteLedParams. rewrite Hcolor.
    by destruct (Types.findLedMode ledMode).
  - intros Hmode Hcolor Hinherited. unfold Cli.resolveWriteLedParams.
    destruct (Types.findLedMode ledMode), (Types.findLedColor ledColor);
      try done; by destruct Hinherited.
  - intros findHidDevices common hid e Hresolve.
    unfold Cli.setLed, run_bind, run_lift. cbn [SetLedOptions.layerId].
    by rewrite Hresolve.
Qed.

Lemma resolveWriteLedParams_packet_witness :
  let param := WriteKeypadLedParam.mk 2 1 1 in
  Cli.resolveWriteLedParams 2 "All" "Red" = Done param
  /\ ("All"%string, 1) ∈ Types.LedMode
  /\ ("Red"%string, 1) ∈ Types.LedColor
  /\ 0 <= 1 <= 5
  /\ 1 <= 1 <= 7
  /\ (exists ledId,
         packWriteKeypadLedParam param !! 12%nat = Some ledId
         /\ 0x10 <= ledId <= 0x75
         /\ ledId / 16 = 1
         /\ ledId mod 16 = 1)
  /\ (forall findHidDevices common hid info,
         length (findHidDevices (keypad_query (CommonOptions.path common))) = 1%nat ->
         Cli.normalizeKeypadInfo
           (PartialKeypadInfo.mk (CommonOptions.keys common) (CommonOptions.knobs common))
         = Some info ->
         Cli.setLed findHidDevices "All" "Red" (SetLedOptions.mk common 2) hid
         = (Done tt,
            HidIO.mk
              (HidIO.written hid
               ++ [packWriteKeypadLedParam param ++ replicate 52 0; end_request])
              (HidIO.reads hid) (HidIO.incoming hid))).
Proof.
  apply (proj1 (resolveWriteLedParams_packet 2 "All" "Red") 1 1); reflexivity.
Defined.

Example setLed_vector :
  Cli.setLed (fun _ => [HidDevice.mk None 0x1189 0x8840 0 0]) "All" "Red"
    (SetLedOptions.mk (CommonOptions.mk None None (Some 3) None) 2) (HidIO.mk [] 0 [])
  = (Done tt,
     HidIO.mk [[0x03; 0xfe; 0xb0; 0x01; 0x08; 0; 0; 0; 0; 0; 2; 0; 0x11] ++ replicate 52 0;
               [0x03; 0xfd; 0xfe; 0xff] ++ replicate 61 0] 0 [])
  /\ Cli.setLed (fun _ => []) "All" "Orange"
       (SetLedOptions.mk (CommonOptions.mk None None None None) 2) (HidIO.mk [] 0 [])
     = (Thrown (ConfigurationError "invalid LED color: 'Orange'" []), HidIO.mk [] 0 []).
Proof. split; vm_compute; reflexivity. Qed.

(* ===================================================================== *)
(** ** A table of key definitions (cli-impl.ts) *)
(* ===================================================================== *)

Example createKeyMaps_vector :
  Cli.createKeyMaps
    [[Some (DefKeyAction (KeyAction.mk 0 0x04)); None; None;
      Some (DefKeyAction (KeyAction.mk 0 0x05))]]
  = Done [KeyMapWithId.mk 1 1 (KeyMapKeys [KeyAction.mk 0 0x04]);
          KeyMapWithId.mk 1 4 (KeyMapKeys [KeyAction.mk 0 0x05])].
Proof. reflexivity. Qed.

Lemma createKeyMapFromActionDef_in_model (def : ActionDef) :
  Cli.createKeyMapFromActionDef def <> OutOfModel.
Proof.
  destruct def as [text| | | | |]; cbn; try done.
  pose proof (createKeyActionsFromText_loop_in_model text (JsString.split_units text) 0
                (split_units_single text)) as Hmodel.
  unfold Cli.createKeyActionsFromText.
  by destruct (Cli.createKeyActionsFromText_loop text (JsString.split_units text) 0).
Qed.

Lemma createKeyMaps_layer_spec (actionDefs : list (option ActionDef)) (l k : Z) :
  Cli.createKeyMaps_layer actionDefs l k <> OutOfModel
  /\ forall maps,
      Cli.createKeyMaps_layer actionDefs l k = Done maps ->
      Forall (fun m => KeyMapWithId.layerId m = l + 1
                       /\ k + 1 <= KeyMapWithId.keyId m <= k + Z.of_nat (length actionDefs)
                       /\ exists def,
                           actionDefs !! Z.to_nat (KeyMapWithId.keyId m - k - 1) = Some (Some def)
                           /\ Cli.createKeyMapFromActionDef def
                              = Done (KeyMapWithId.keyMap m))
        maps
      /\ length maps = length (omap id actionDefs).
Proof.
  revert k. induction actionDefs as [|[def|] actionDefs IH]; intros k;
    cbn [Cli.createKeyMaps_layer].
  - split; [done|]. intros maps [= <-]. split; [constructor|done].
  - destruct (IH (k + 1)) as [Hmodel Hdone].
    pose proof (createKeyMapFromActionDef_in_model def) as Hdef.
    destruct (Cli.createKeyMapFromActionDef def) as [keyMap| |] eqn:HkeyMap;
      cbn [outcome_bind]; [|done|done].
    destruct (Cli.createKeyMaps_layer actionDefs l (k + 1)) as [rest| |];
      cbn [outcome_bind]; [|done|done].
    split; [done|]. intros maps [= <-].
    destruct (Hdone rest eq_refl) as [Hrest Hlen].
    split; [|cbn; by rewrite Hlen].
    constructor.
    + cbn [KeyMapWithId.layerId KeyMapWithId.keyId KeyMapWithId.keyMap length].
      split; [done|]. split; [lia|]. exists def.
      replace (k + 1 - k - 1) with 0 by lia. done.
    + eapply Forall_impl; [exact Hrest|]. intros m (Hl & Hk & def' & Hlookup & Hmap).
      cbn [length]. split; [done|]. split; [lia|]. exists def'. split; [|done].
      replace (Z.to_nat (KeyMapWithId.keyId m - k - 1))
        with (S (Z.to_nat (KeyMapWithId.keyId m - (k + 1) - 1))) by lia.
      done.
  - destruct (IH (k + 1)) as [Hmodel Hdone]. split; [done|].
    intros maps Hmaps. destruct (Hdone maps Hmaps) as [Hrest Hlen].
    split; [|done].
    eapply Forall_impl; [exact Hrest|]. intros m (Hl & Hk & def' & Hlookup & Hmap).
    cbn [length]. split; [done|]. split; [lia|]. exists def'. split; [|done].
    replace (Z.to_nat (KeyMapWithId.keyId m - k - 1))
      with (S (Z.to_nat (KeyMapWithId.keyId m - (k + 1) - 1))) by lia.
    done.
Qed.

Lemma createKeyMaps_loop_spec (actionDefTable : list (list (option ActionDef))) (l : Z) :
  Cli.createKeyMaps_loop actionDefTable l <> OutOfModel
  /\ forall maps,
      Cli.createKeyMaps_loop actionDefTable l = Done maps ->
      Forall (fun m =>
                l + 1 <= KeyMapWithId.layerId m <= l + Z.of_nat (length actionDefTable)
                /\ exists actionDefs def,
                    actionDefTable !! Z.to_nat (KeyMapWithId.layerId m - l - 1)
                    = Some actionDefs
                    /\ 1 <= KeyMapWithId.keyId m <= Z.of_nat (length actionDefs)
                    /\ actionDefs !! Z.to_nat (KeyMapWithId.keyId m - 1) = Some (Some def)
                    /\ Cli.createKeyMapFromActionDef def = Done (KeyMapWithId.keyMap m))
        maps
      /\ length maps = length (omap id (concat actionDefTable)).
Proof.
  revert l. induction actionDefTable as [|actionDefs actionDefTable IH]; intros l;
    cbn [Cli.createKeyMaps_loop].
  - split; [done|]. intros maps [= <-]. split; [constructor|done].
  - destruct (createKeyMaps_layer_spec actionDefs l 0) as [Hmodel Hlayer].
    destruct (IH (l + 1)) as [Hmodel' Hdone].
    destruct (Cli.createKeyMaps_layer actionDefs l 0) as [layer| |];
      cbn [outcome_bind]; [|done|done].
    destruct (Cli.createKeyMaps_loop actionDefTable (l + 1)) as [rest| |];
      cbn [outcome_bind]; [|done|done].
    split; [done|]. intros maps [= <-].
    destruct (Hlayer layer eq_refl) as [Hl Hlen].
    destruct (Hdone rest eq_refl) as [Hrest Hlen'].
    split.
    + apply Forall_app. split.
      * eapply Forall_impl; [exact Hl|]. intros m (Hlayer' & Hk & def & Hlookup & Hmap).
        cbn [length]. split; [lia|]. exists actionDefs, def.
        replace (KeyMapWithId.layerId m - l - 1) with 0 by lia.
        replace (KeyMapWithId.keyId m - 0 - 1) with (KeyMapWithId.keyId m - 1) in Hlookup
          by lia.
        split; [done|]. split; [lia|]. done.
      * eapply Forall_impl; [exact Hrest|].
        intros m (Hlayer' & actionDefs' & def & Hrow & Hk & Hlookup & Hmap).
        cbn [length]. split; [lia|]. exists actionDefs', def.
        replace (Z.to_nat (KeyMapWithId.layerId m - l - 1))
          with (S (Z.to_nat (KeyMapWithId.layerId m - (l + 1) - 1))) by lia.
        done.
    + cbn [concat]. rewrite length_app, omap_app, length_app. by rewrite Hlen, Hlen'.
Qed.

Lemma validateKeyDefTable_Done (keyDefTable : list (list (option ActionDef)))
    (layers keyCount : Z) :
  Cli.validateKeyDefTable keyDefTable layers keyCount = Done tt
  <-> 1 <= Z.of_nat (length keyDefTable) <= layers
      /\ Forall (fun keyDefs => Z.of_nat (length keyDefs) <= keyCount) keyDefTable.
Proof.
  unfold Cli.validateKeyDefTable.
  destruct ((Z.of_nat (length keyDefTable) <=? 0) || (layers <? Z.of_nat (length keyDefTable)))
    eqn:Hlayers.
  - split; [done|]. intros [Hlen _]. apply orb_prop in Hlayers as [H|H]; lia.
  - apply orb_false_elim in Hlayers as [H1 H2].
    destruct (list_find _ keyDefTable) as [[i keyDefs]|] eqn:Hfind.
    + split; [done|]. intros [_ Hall].
      apply list_find_Some in Hfind as (Hlookup & Hlong & _).
      apply (proj1 (Forall_lookup _ _) Hall) in Hlookup. lia.
    + split; [|done]. intros _. split; [lia|].
      apply list_find_None in Hfind. eapply Forall_impl; [exact Hfind|].
      intros keyDefs Hshort. cbn in Hshort. lia.
Qed.

(** Every definition of a row that is not [null] has its key map. *)
Lemma createKeyMaps_layer_complete (actionDefs : list (option ActionDef)) (l k : Z)
    (maps : list KeyMapWithId.t) :
  Cli.createKeyMaps_layer actionDefs l k = Done maps ->
  forall (i : nat) def,
    actionDefs !! i = Some (Some def) ->
    exists keyMap,
      Cli.createKeyMapFromActionDef def = Done keyMap
      /\ KeyMapWithId.mk (l + 1) (k + Z.of_nat i + 1) keyMap ∈ maps.
Proof.
  revert k maps. induction actionDefs as [|[def'|] actionDefs IH]; intros k maps;
    cbn [Cli.createKeyMaps_layer].
  - intros _ i def Hlookup. by rewrite lookup_nil in Hlookup.
  - destruct (Cli.createKeyMapFromActionDef def') as [keyMap'| |] eqn:HkeyMap;
      cbn [outcome_bind]; [|done|done].
    destruct (Cli.createKeyMaps_layer actionDefs l (k + 1)) as [rest| |] eqn:Hrest;
      cbn [outcome_bind]; [|done|done].
    intros [= <-] [|i] def Hlookup.
    + injection Hlookup as <-. exists keyMap'. split; [done|].
      replace (k + Z.of_nat 0 + 1) with (k + 1) by lia. by left.
    + destruct (IH (k + 1) rest Hrest i def Hlookup) as (keyMap & Hmap & Hin).
      exists keyMap. split; [done|]. right.
      by replace (k + Z.of_nat (S i) + 1) with (k + 1 + Z.of_nat i + 1) by lia.
  - intros Hmaps [|i] def Hlookup; [done|].
    destruct (IH (k + 1) maps Hmaps i def Hlookup) as (keyMap & Hmap & Hin).
    exists keyMap. split; [done|].
    by replace (k + Z.of_nat (S i) + 1) with (k + 1 + Z.of_nat i + 1) by lia.
Qed.

(** The key maps of a row are on its layer, in the order of the row. *)
Lemma createKeyMaps_layer_sorted (actionDefs : list (option ActionDef)) (l k : Z)
    (maps : list KeyMapWithId.t) :
  Cli.createKeyMaps_layer actionDefs l k = Done maps ->
  Forall (fun m => KeyMapWithId.layerId m = l + 1 /\ k < KeyMapWithId.keyId m) maps
  /\ StronglySorted (fun a b => place_before (place a) (place b)) maps.
Proof.
  revert k maps. induction actionDefs as [|[def'|] actionDefs IH]; intros k maps;
    cbn [Cli.createKeyMaps_layer].
  - intros [= <-]. split; constructor.
  - destruct (Cli.createKeyMapFromActionDef def') as [keyMap'| |] eqn:HkeyMap;
      cbn [outcome_bind]; [|done|done].
    destruct (Cli.createKeyMaps_layer actionDefs l (k + 1)) as [rest| |] eqn:Hrest;
      cbn [outcome_bind]; [|done|done].
    intros [= <-]. destruct (IH (k + 1) rest Hrest) as [Hall Hsorted].
    split.
    + constructor; [cbn; lia|].
      eapply Forall_impl; [exact Hall|]. intros m [Hl Hk]. split; [done|lia].
    + constructor; [done|].
      eapply Forall_impl; [exact Hall|]. intros m [Hl Hk].
      right. cbn. split; [done|lia].
  - intros Hmaps. destruct (IH (k + 1) maps Hmaps) as [Hall Hsorted].
    split; [|done].
    eapply Forall_impl; [exact Hall|]. intros m [Hl Hk]. split; [done|lia].
Qed.

(** A row whose definitions all give a KeyMap gives its key maps. *)
Lemma createKeyMaps_layer_returns (actionDefs : list (option ActionDef)) (l k : Z) :
  (forall def, Some def ∈ actionDefs ->
     exists keyMap, Cli.createKeyMapFromActionDef def = Done keyMap) ->
  exists maps, Cli.createKeyMaps_layer actionDefs l k = Done maps.
Proof.
  revert k. induction actionDefs as [|[def'|] actionDefs IH]; intros k Hdefs;
    cbn [Cli.createKeyMaps_layer].
  - by eexists.
  - destruct (Hdefs def') as [keyMap' ->]; [by left|].
    destruct (IH (k + 1)) as [rest ->].
    { intros def Hin. apply Hdefs. by right. }
    by eexists.
  - apply IH. intros def Hin. apply Hdefs. by right.
Qed.

Lemma createKeyMaps_loop_complete (actionDefTable : list (list (option ActionDef)))
    (l : Z) (maps : list KeyMapWithId.t) :
  Cli.createKeyMaps_loop actionDefTable l = Done maps ->
  forall (i k : nat) actionDefs def,
    actionDefTable !! i = Some actionDefs ->
    actionDefs !! k = Some (Some def) ->
    exists keyMap,
      Cli.createKeyMapFromActionDef def = Done keyMap
      /\ KeyMapWithId.mk (l + Z.of_nat i + 1) (Z.of_nat k + 1) keyMap ∈ maps.
Proof.
  revert l maps. induction actionDefTable as [|actionDefs' actionDefTable IH];
    intros l maps; cbn [Cli.createKeyMaps_loop].
  - intros _ i k actionDefs def Hrow. by rewrite lookup_nil in Hrow.
  - destruct (Cli.createKeyMaps_layer actionDefs' l 0) as [layer| |] eqn:Hlayer;
      cbn [outcome_bind]; [|done|done].
    destruct (Cli.createKeyMaps_loop actionDefTable (l + 1)) as [rest| |] eqn:Hrest;
      cbn [outcome_bind]; [|done|done].
    intros [= <-] [|i] k actionDefs def Hrow Hlookup.
    + injection Hrow as <-.
      destruct (createKeyMaps_layer_complete _ _ _ _ Hlayer k def Hlookup)
        as (keyMap & Hmap & Hin).
      exists keyMap. split; [done|]. apply elem_of_app. left.
      replace (l + Z.of_nat 0 + 1) with (l + 1) by lia.
      by replace (Z.of_nat k + 1) with (0 + Z.of_nat k + 1) by lia.
    + destruct (IH (l + 1) rest Hrest i k actionDefs def Hrow Hlookup)
        as (keyMap & Hmap & Hin).
      exists keyMap. split; [done|]. apply elem_of_app. right.
      by replace (l + Z.of_nat (S i) + 1) with (l + 1 + Z.of_nat i + 1) by lia.
Qed.

Lemma createKeyMaps_loop_sorted (actionDefTable : list (list (option ActionDef)))
    (l : Z) (maps : list KeyMapWithId.t) :
  Cli.createKeyMaps_loop actionDefTable l = Done maps ->
  Forall (fun m => l < KeyMapWithId.layerId m) maps
  /\ StronglySorted (fun a b => place_before (place a) (place b)) maps.
Proof.
  revert l maps. induction actionDefTable as [|actionDefs' actionDefTable IH];
    intros l maps; cbn [Cli.createKeyMaps_loop].
  - intros [= <-]. split; constructor.
  - destruct (Cli.createKeyMaps_layer actionDefs' l 0) as [layer| |] eqn:Hlayer;
      cbn [outcome_bind]; [|done|done].
    destruct (Cli.createKeyMaps_loop actionDefTable (l + 1)) as [rest| |] eqn:Hrest;
      cbn [outcome_bind]; [|done|done].
    intros [= <-].
    destruct (createKeyMaps_layer_sorted _ _ _ _ Hlayer) as [Hall Hsorted].
    destruct (IH (l + 1) rest Hrest) as [Hall' Hsorted'].
    split.
    + apply Forall_app. split.
      * eapply Forall_impl; [exact Hall|]. intros m [Hl _]. lia.
      * eapply Forall_impl; [exact Hall'|]. intros m Hl. cbn beta in *. lia.
    + clear Hlayer. induction Hsorted as [|m layer Hsorted IHlayer Hm]; [done|].
      apply Forall_cons in Hall as [[Hl _] Hall].
      cbn [app]. constructor; [by apply IHlayer|].
      apply Forall_app. split; [done|].
      eapply Forall_impl; [exact Hall'|]. intros m' Hl'. cbn beta in *. left. cbn. lia.
Qed.

Lemma createKeyMaps_loop_returns (actionDefTable : list (list (option ActionDef)))
    (l : Z) :
  (forall def, Some def ∈ concat actionDefTable ->
     exists keyMap, Cli.createKeyMapFromActionDef def = Done keyMap) ->
  exists maps, Cli.createKeyMaps_loop actionDefTable l = Done maps.
Proof.
  revert l. induction actionDefTable as [|actionDefs actionDefTable IH]; intros l Hdefs;
    cbn [Cli.createKeyMaps_loop].
  - by eexists.
  - destruct (createKeyMaps_layer_returns actionDefs l 0) as [layer ->].
    { intros def Hin. apply Hdefs. cbn [concat]. apply elem_of_app. by left. }
    destruct (IH (l + 1)) as [rest ->].
    { intros def Hin. apply Hdefs. cbn [concat]. apply elem_of_app. by right. }
    by eexists.
Qed.

(** Places in the order of the table are all different. *)
Lemma sorted_places_NoDup (maps : list KeyMapWithId.t) :
  StronglySorted (fun a b => place_before (place a) (place b)) maps ->
  NoDup (place <$> maps).
Proof.
  induction 1 as [|m maps Hsorted IH Hm]; cbn [fmap list_fmap]; constructor; [|done].
  intros Hin. apply list_elem_of_fmap in Hin as (m' & Hplace & Hin).
  pose proof (proj1 (Forall_forall _ _) Hm m' Hin) as Hbefore.
  cbn beta in Hbefore. rewrite <- Hplace in Hbefore.
  unfold place_before in Hbefore. lia.
Qed.

(** X29: the key maps of a validated table. [validateKeyDefTable]
    returns exactly for a table of 1 to [layers] rows of at most
    [keyCount] definitions each. [createKeyMaps] returns when every
    definition that is not [null] gives a KeyMap, and no definition
    makes it go on with a value of the wrong type: it returns or it
    throws. When it returns, for a validated table, there is exactly
    one key map for each definition that is not [null]: as many key
    maps as such definitions; each key map has the layer id (from 1)
    of a row and the key id (from 1) of a place in that row, so a layer
    id of 1 to [layers] and a key id of 1 to [keyCount], and the KeyMap
    of the definition at that place; each such definition has its key
    map, with these ids, among them; and the key maps come in the order
    of the table, so no two of them have the same layer id and key
    id. *)
Theorem createKeyMaps_in_range (keyDefTable : list (list (option ActionDef)))
    (layers keyCount : Z) :
  (Cli.validateKeyDefTable keyDefTable layers keyCount = Done tt
   <-> 1 <= Z.of_nat (length keyDefTable) <= layers
       /\ Forall (fun keyDefs => Z.of_nat (length keyDefs) <= keyCount) keyDefTable)
  /\ Cli.createKeyMaps keyDefTable <> OutOfModel
  /\ ((forall def, Some def ∈ concat keyDefTable ->
         exists keyMap, Cli.createKeyMapFromActionDef def = Done keyMap) ->
      exists maps, Cli.createKeyMaps keyDefTable = Done maps)
  /\ (forall maps,
      Cli.validateKeyDefTable keyDefTable layers keyCount = Done tt ->
      Cli.createKeyMaps keyDefTable = Done maps ->
      length maps = length (omap id (concat keyDefTable))
      /\ Forall (fun m =>
                   1 <= KeyMapWithId.layerId m <= layers
                   /\ 1 <= KeyMapWithId.keyId m <= keyCount
                   /\ exists keyDefs def,
                       keyDefTable !! Z.to_nat (KeyMapWithId.layerId m - 1) = Some keyDefs
                       /\ keyDefs !! Z.to_nat (KeyMapWithId.keyId m - 1) = Some (Some def)
                       /\ Cli.createKeyMapFromActionDef def = Done (KeyMapWithId.keyMap m))
           maps
      /\ (forall (l k : nat) keyDefs def,
             keyDefTable !! l = Some keyDefs ->
             keyDefs !! k = Some (Some def) ->
             exists keyMap,
               Cli.createKeyMapFromActionDef def = Done keyMap
               /\ KeyMapWithId.mk (Z.of_nat l + 1) (Z.of_nat k + 1) keyMap ∈ maps)
      /\ StronglySorted (fun a b => place_before (place a) (place b)) maps
      /\ NoDup (place <$> maps)).
Proof.
  split; [apply validateKeyDefTable_Done|].
  destruct (createKeyMaps_loop_spec keyDefTable 0) as [Hmodel Hdone].
  split; [done|].
  split; [apply createKeyMaps_loop_returns|].
  intros maps Hvalid Hmaps. apply validateKeyDefTable_Done in Hvalid as [Hlayers Hrows].
  destruct (Hdone maps Hmaps) as [Hall Hlen]. split; [done|].
  destruct (createKeyMaps_loop_sorted _ _ _ Hmaps) as [_ Hsorted].
  split; [|split; [|split; [done|by apply sorted_places_NoDup]]].
  - eapply Forall_impl; [exact Hall|].
    intros m (Hlayer & keyDefs & def & Hrow & Hk & Hlookup & Hmap).
    replace (KeyMapWithId.layerId m - 0 - 1) with (KeyMapWithId.layerId m - 1) in Hrow
      by lia.
    pose proof (proj1 (Forall_lookup _ _) Hrows _ _ Hrow) as Hshort. cbn in Hshort.
    split; [lia|]. split; [lia|]. by exists keyDefs, def.
  - intros l k keyDefs def Hrow Hlookup.
    destruct (createKeyMaps_loop_complete _ _ _ Hmaps l k keyDefs def Hrow Hlookup)
      as (keyMap & Hmap & Hin).
    exists keyMap. split; [done|].
    by replace (Z.of_nat l + 1) with (0 + Z.of_nat l + 1) by lia.
Qed.

Lemma createKeyMaps_in_range_witness :
  let keyDefTable :=
    [[Some (DefKeyAction (KeyAction.mk 0 0x04)); None; None;
      Some (DefKeyAction (KeyAction.mk 0 0x05))]] in
  let maps := [KeyMapWithId.mk 1 1 (KeyMapKeys [KeyAction.mk 0 0x04]);
               KeyMapWithId.mk 1 4 (KeyMapKeys [KeyAction.mk 0 0x05])] in
  length maps = length (omap id (concat keyDefTable))
  /\ Forall (fun m =>
               1 <= KeyMapWithId.layerId m <= 3
               /\ 1 <= KeyMapWithId.keyId m <= 4
               /\ exists keyDefs def,
                   keyDefTable !! Z.to_nat (KeyMapWithId.layerId m - 1) = Some keyDefs
                   /\ keyDefs !! Z.to_nat (KeyMapWithId.keyId m - 1) = Some (Some def)
                   /\ Cli.createKeyMapFromActionDef def = Done (KeyMapWithId.keyMap m))
       maps
  /\ (forall (l k : nat) keyDefs def,
         keyDefTable !! l = Some keyDefs ->
         keyDefs !! k = Some (Some def) ->
         exists keyMap,
           Cli.createKeyMapFromActionDef def = Done keyMap
           /\ KeyMapWithId.mk (Z.of_nat l + 1) (Z.of_nat k + 1) keyMap ∈ maps)
  /\ StronglySorted (fun a b => place_before (place a) (place b)) maps
  /\ NoDup (place <$> maps).
Proof.
  intros keyDefTable maps.
  apply (proj2 (proj2 (proj2 (createKeyMaps_in_range keyDefTable 3 4))) maps);
    reflexivity.
Defined.

(* ===================================================================== *)
(** ** The records of the generator (tools/generate-key-actions.ts) *)
(* ===================================================================== *)

Lemma insert_new_Permutation {A} (record : JsObject.t A) (name : string)
    (index : option N) (v : A) :
  JsObject.insert_new record name index v ≡ₚ (name, v) :: record.
Proof.
  induction record as [|e record IH]; cbn [JsObject.insert_new]; [done|].
  destruct index as [n|].
  - destruct (JsObject.array_index (fst e)) as [m|]; [|done].
    destruct (n <? m)%N; [done|]. rewrite IH. apply Permutation_swap.
  - rewrite IH. apply Permutation_swap.
Qed.

Lemma existsb_name {A} (record : JsObject.t A) (name : string) :
  existsb (fun e => String.eqb (fst e) name) record = true
  <-> name ∈ JsObject.keys record.
Proof.
  unfold JsObject.keys. rewrite existsb_exists, list_elem_of_fmap. split.
  - intros (e & Hin & Heq). apply String.eqb_eq in Heq. exists e.
    split; [done|]. by apply list_elem_of_In.
  - intros (e & -> & Hin). exists e. split; [by apply list_elem_of_In|].
    apply String.eqb_refl.
Qed.

Lemma set_keys {A} (record : JsObject.t A) (name : string) (v : A) :
  JsObject.keys (JsObject.set record name v)
  ≡ₚ if String.eqb name "__proto__" then JsObject.keys record
     else if bool_decide (name ∈ JsObject.keys record) then JsObject.keys record
     else name :: JsObject.keys record.
Proof.
  unfold JsObject.set. destruct (String.eqb name "__proto__"); [done|].
  destruct (existsb _ record) eqn:Hexists.
  - rewrite bool_decide_eq_true_2 by (by apply existsb_name).
    unfold JsObject.keys. rewrite <- list_fmap_compose.
    assert (fst <$> record
            = (fst ∘ (fun e : string * A => if String.eqb (fst e) name then (name, v) else e))
                <$> record) as <-; [|done].
    apply list_fmap_ext. intros i e _. cbn.
    destruct (String.eqb (fst e) name) eqn:Heq; [|done].
    apply String.eqb_eq in Heq. done.
  - rewrite bool_decide_eq_false_2.
    + unfold JsObject.keys. by rewrite insert_new_Permutation.
    + intros Hin. apply existsb_name in Hin. congruence.
Qed.

Lemma set_NoDup {A} (record : JsObject.t A) (name : string) (v : A) :
  NoDup (JsObject.keys record) -> NoDup (JsObject.keys (JsObject.set record name v)).
Proof.
  intros Hnodup. rewrite set_keys.
  destruct (String.eqb name "__proto__"); [done|].
  destruct (bool_decide (name ∈ JsObject.keys record)) eqn:Hin; [done|].
  apply bool_decide_eq_false in Hin. by constructor.
Qed.

Lemma set_elem_of {A} (record : JsObject.t A) (name : string) (v : A) (e : string * A) :
  e ∈ JsObject.set record name v -> e = (name, v) \/ e ∈ record.
Proof.
  unfold JsObject.set. destruct (String.eqb name "__proto__"); [by right|].
  destruct (existsb _ record).
  - intros Hin. apply list_elem_of_fmap in Hin as (e' & -> & Hin).
    destruct (String.eqb (fst e') name); [by left|by right].
  - rewrite insert_new_Permutation. intros Hin.
    apply elem_of_cons in Hin as [->|Hin]; [by left|by right].
Qed.

Lemma set_keys_subseteq {A} (record : JsObject.t A) (name name' : string) (v : A) :
  name' ∈ JsObject.keys record -> name' ∈ JsObject.keys (JsObject.set record name v).
Proof.
  intros Hin. rewrite set_keys.
  destruct (String.eqb name "__proto__"); [done|].
  destruct (bool_decide _); [done|]. by right.
Qed.

Lemma set_keys_name {A} (record : JsObject.t A) (name : string) (v : A) :
  name <> "__proto__"%string -> name ∈ JsObject.keys (JsObject.set record name v).
Proof.
  intros Hname. rewrite set_keys.
  rewrite (proj2 (String.eqb_neq name "__proto__")) by done.
  destruct (bool_decide (name ∈ JsObject.keys record)) eqn:Hin.
  - by apply bool_decide_eq_true in Hin.
  - by left.
Qed.

Lemma fold_set_spec (names : list string) (v : KeyAction.t) (record : JsObject.t KeyAction.t) :
  let record' := fold_left (fun r i => JsObject.set r i v) names record in
  (NoDup (JsObject.keys record) -> NoDup (JsObject.keys record'))
  /\ (forall e, e ∈ record' -> e ∈ record \/ (fst e ∈ names /\ snd e = v))
  /\ (forall name, name ∈ JsObject.keys record -> name ∈ JsObject.keys record')
  /\ (forall name, name ∈ names -> name <> "__proto__"%string ->
        name ∈ JsObject.keys record').
Proof.
  revert record. induction names as [|name names IH]; intros record; cbn [fold_left].
  - repeat split; auto. intros name Hin. by apply elem_of_nil in Hin.
  - destruct (IH (JsObject.set record name v)) as (Hnodup & Hin & Hkeys & Hnames).
    split; [|split; [|split]].
    + intros H. by apply Hnodup, set_NoDup.
    + intros e He. destruct (Hin e He) as [Hset|[Hname Hv]].
      * apply set_elem_of in Hset as [->|Hrecord]; [|by left].
        right. split; [by left|done].
      * right. split; [by right|done].
    + intros name' Hname'. by apply Hkeys, set_keys_subseteq.
    + intros name' Hname' Hproto. apply elem_of_cons in Hname' as [->|Hname'].
      * by apply Hkeys, set_keys_name.
      * by apply Hnames.
Qed.

Lemma truthy_spec (v : option string) (name : string) :
  GenerateKeyActions.truthy v = Some name <-> v = Some name /\ name <> EmptyString.
Proof.
  destruct v as [[|c s]|]; cbn; split; try done.
  - by intros [[= <-] ?].
  - intros [= <-]. done.
  - by intros [[= <-] _].
  - by intros [? _].
Qed.

Lemma createKeyRecord_snoc (keyCodeDefs : list KeyCodeDef.t) (def : KeyCodeDef.t) :
  GenerateKeyActions.createKeyRecord (keyCodeDefs ++ [def])
  = GenerateKeyActions.createKeyRecord_step
      (GenerateKeyActions.createKeyRecord keyCodeDefs) def.
Proof. unfold GenerateKeyActions.createKeyRecord. by rewrite fold_left_app. Qed.

Lemma createKeyRecord_keyRecord (keyCodeDefs : list KeyCodeDef.t) :
  let keyRecord := KeyRecords.keyRecord (GenerateKeyActions.createKeyRecord keyCodeDefs) in
  NoDup (JsObject.keys keyRecord)
  /\ (forall name keyAction,
         (name, keyAction) ∈ keyRecord ->
         exists def,
           def ∈ keyCodeDefs
           /\ KeyAction.keyCode keyAction = KeyCodeDef.keyCode def
           /\ (KeyAction.modKey keyAction = 0
               /\ name ∈ default [] (KeyCodeDef.keyName def)
               \/ KeyAction.modKey keyAction = Types.ModKey_Shift
                  /\ name ∈ default [] (KeyCodeDef.keyNameS def)))
  /\ (forall def name,
         def ∈ keyCodeDefs -> name <> "__proto__"%string ->
         name ∈ default [] (KeyCodeDef.keyName def)
         \/ name ∈ default [] (KeyCodeDef.keyNameS def) ->
         name ∈ JsObject.keys keyRecord).
Proof.
  induction keyCodeDefs as [|def keyCodeDefs IH] using rev_ind.
  - cbn. split; [constructor|]. split.
    + intros name keyAction Hin. by apply elem_of_nil in Hin.
    + intros def name Hin. by apply elem_of_nil in Hin.
  - cbv zeta in IH |- *. rewrite createKeyRecord_snoc.
    destruct IH as (Hnodup & Hentries & Hnames).
    unfold GenerateKeyActions.createKeyRecord_step. cbn [KeyRecords.keyRecord].
    set (keyRecord := KeyRecords.keyRecord (GenerateKeyActions.createKeyRecord keyCodeDefs))
      in *.
    set (key := Types.createKeyAction (KeyCodeDef.keyCode def) 0).
    set (keyRecord1 := match KeyCodeDef.keyName def with
                       | Some keyName => fold_left (fun r i => JsObject.set r i key) keyName keyRecord
                       | None => keyRecord
                       end).
    assert ((NoDup (JsObject.keys keyRecord1))
            /\ (forall e, e ∈ keyRecord1 ->
                  e ∈ keyRecord
                  \/ (fst e ∈ default [] (KeyCodeDef.keyName def) /\ snd e = key))
            /\ (forall name, name ∈ JsObject.keys keyRecord -> name ∈ JsObject.keys keyRecord1)
            /\ (forall name, name ∈ default [] (KeyCodeDef.keyName def) ->
                  name <> "__proto__"%string -> name ∈ JsObject.keys keyRecord1))
      as (Hnodup1 & Hentries1 & Hkeys1 & Hnames1).
    { unfold keyRecord1. destruct (KeyCodeDef.keyName def) as [keyName|]; cbn [default].
      - destruct (fold_set_spec keyName key keyRecord) as (? & ? & ? & ?). auto.
      - repeat split; auto. intros name Hin. by apply elem_of_nil in Hin. }
    set (keyRecord2 := match KeyCodeDef.keyNameS def with
                       | Some keyNameS =>
                           fold_left (fun r i => JsObject.set r i (Types.Shift key))
                             keyNameS keyRecord1
                       | None => keyRecord1
                       end).
    assert ((NoDup (JsObject.keys keyRecord2))
            /\ (forall e, e ∈ keyRecord2 ->
                  e ∈ keyRecord1
                  \/ (fst e ∈ default [] (KeyCodeDef.keyNameS def)
                      /\ snd e = Types.Shift key))
            /\ (forall name, name ∈ JsObject.keys keyRecord1 -> name ∈ JsObject.keys keyRecord2)
            /\ (forall name, name ∈ default [] (KeyCodeDef.keyNameS def) ->
                  name <> "__proto__"%string -> name ∈ JsObject.keys keyRecord2))
      as (Hnodup2 & Hentries2 & Hkeys2 & Hnames2).
    { unfold keyRecord2. destruct (KeyCodeDef.keyNameS def) as [keyNameS|]; cbn [default].
      - destruct (fold_set_spec keyNameS (Types.Shift key) keyRecord1) as (? & ? & ? & ?).
        auto.
      - repeat split; auto. intros name Hin. by apply elem_of_nil in Hin. }
    split; [done|]. split.
    + intros name keyAction Hin.
      destruct (Hentries2 _ Hin) as [Hin1|[Hname Hv]]; cbn [fst snd] in *;
        [|subst keyAction].
      * destruct (Hentries1 _ Hin1) as [Hin0|[Hname Hv]]; cbn [fst snd] in *;
          [|subst keyAction].
        -- destruct (Hentries _ _ Hin0) as (def' & Hdef' & Hrest).
           exists def'. split; [|done]. apply elem_of_app. by left.
        -- exists def. split; [apply elem_of_app; right; by left|].
           split; [done|]. left. done.
      * exists def. split; [apply elem_of_app; right; by left|].
        split; [done|]. right. done.
    + intros def' name Hdef' Hproto Hname.
      apply elem_of_app in Hdef' as [Hdef'|Hdef'].
      * apply Hkeys2, Hkeys1. by eapply Hnames.
      * apply list_elem_of_singleton in Hdef' as ->.
        destruct Hname as [Hname|Hname]; [apply Hkeys2, Hnames1|apply Hnames2]; done.
Qed.

Lemma createKeyRecord_dictRecord (keyCodeDefs : list KeyCodeDef.t) :
  let dictRecord := KeyRecords.dictRecord (GenerateKeyActions.createKeyRecord keyCodeDefs) in
  NoDup (JsObject.keys dictRecord)
  /\ (forall name keyAction,
         (name, keyAction) ∈ dictRecord ->
         exists def,
           def ∈ keyCodeDefs
           /\ KeyAction.keyCode keyAction = KeyCodeDef.keyCode def
           /\ (KeyAction.modKey keyAction = 0 /\ KeyCodeDef.dictName def = Some name
               \/ KeyAction.modKey keyAction = Types.ModKey_Shift
                  /\ KeyCodeDef.dictNameS def = Some name))
  /\ (forall def name,
         def ∈ keyCodeDefs -> name <> EmptyString -> name <> "__proto__"%string ->
         KeyCodeDef.dictName def = Some name \/ KeyCodeDef.dictNameS def = Some name ->
         name ∈ JsObject.keys dictRecord).
Proof.
  induction keyCodeDefs as [|def keyCodeDefs IH] using rev_ind.
  - cbn. split; [constructor|]. split.
    + intros name keyAction Hin. by apply elem_of_nil in Hin.
    + intros def name Hin. by apply elem_of_nil in Hin.
  - cbv zeta in IH |- *. rewrite createKeyRecord_snoc.
    destruct IH as (Hnodup & Hentries & Hnames).
    unfold GenerateKeyActions.createKeyRecord_step. cbn [KeyRecords.dictRecord].
    set (dictRecord := KeyRecords.dictRecord (GenerateKeyActions.createKeyRecord keyCodeDefs))
      in *.
    set (key := Types.createKeyAction (KeyCodeDef.keyCode def) 0).
    set (dictRecord1 := match GenerateKeyActions.truthy (KeyCodeDef.dictName def) with
                        | Some dictName => JsObject.set dictRecord dictName key
                        | None => dictRecord
                        end).
    assert ((NoDup (JsObject.keys dictRecord1))
            /\ (forall e, e ∈ dictRecord1 ->
                  e ∈ dictRecord
                  \/ (KeyCodeDef.dictName def = Some (fst e) /\ snd e = key))
            /\ (forall name, name ∈ JsObject.keys dictRecord ->
                  name ∈ JsObject.keys dictRecord1)
            /\ (forall name, KeyCodeDef.dictName def = Some name ->
                  name <> EmptyString -> name <> "__proto__"%string ->
                  name ∈ JsObject.keys dictRecord1))
      as (Hnodup1 & Hentries1 & Hkeys1 & Hnames1).
    { unfold dictRecord1.
      destruct (GenerateKeyActions.truthy (KeyCodeDef.dictName def)) as [dictName|] eqn:Hname.
      - apply truthy_spec in Hname as [Hname Hne].
        split; [by apply set_NoDup|]. split; [|split].
        + intros e He. apply set_elem_of in He as [->|He]; [|by left]. by right.
        + intros name Hin. by apply set_keys_subseteq.
        + intros name Hname' _ Hproto. rewrite Hname in Hname'. injection Hname' as ->.
          by apply set_keys_name.
      - repeat split; auto. intros name Hname' Hne _.
        assert (GenerateKeyActions.truthy (KeyCodeDef.dictName def) = Some name) as Htruthy
            by (by apply truthy_spec).
        congruence. }
    set (dictRecord2 := match GenerateKeyActions.truthy (KeyCodeDef.dictNameS def) with
                        | Some dictNameS => JsObject.set dictRecord1 dictNameS (Types.Shift key)
                        | None => dictRecord1
                        end).
    assert ((NoDup (JsObject.keys dictRecord2))
            /\ (forall e, e ∈ dictRecord2 ->
                  e ∈ dictRecord1
                  \/ (KeyCodeDef.dictNameS def = Some (fst e) /\ snd e = Types.Shift key))
            /\ (forall name, name ∈ JsObject.keys dictRecord1 ->
                  name ∈ JsObject.keys dictRecord2)
            /\ (forall name, KeyCodeDef.dictNameS def = Some name ->
                  name <> EmptyString -> name <> "__proto__"%string ->
                  name ∈ JsObject.keys dictRecord2))
      as (Hnodup2 & Hentries2 & Hkeys2 & Hnames2).
    { unfold dictRecord2.
      destruct (GenerateKeyActions.truthy (KeyCodeDef.dictNameS def)) as [dictNameS|] eqn:Hname.
      - apply truthy_spec in Hname as [Hname Hne].
        split; [by apply set_NoDup|]. split; [|split].
        + intros e He. apply set_elem_of in He as [->|He]; [|by left]. by right.
        + intros name Hin. by apply set_keys_subseteq.
        + intros name Hname' _ Hproto. rewrite Hname in Hname'. injection Hname' as ->.
          by apply set_keys_name.
      - repeat split; auto. intros name Hname' Hne _.
        assert (GenerateKeyActions.truthy (KeyCodeDef.dictNameS def) = Some name) as Htruthy
            by (by apply truthy_spec).
        congruence. }
    split; [done|]. split.
    + intros name keyAction Hin.
      destruct (Hentries2 _ Hin) as [Hin1|[Hname Hv]]; cbn [fst snd] in *;
        [|subst keyAction].
      * destruct (Hentries1 _ Hin1) as [Hin0|[Hname Hv]]; cbn [fst snd] in *;
          [|subst keyAction].
        -- destruct (Hentries _ _ Hin0) as (def' & Hdef' & Hrest).
           exists def'. split; [|done]. apply elem_of_app. by left.
        -- exists def. split; [apply elem_of_app; right; by left|].
           split; [done|]. left. done.
      * exists def. split; [apply elem_of_app; right; by left|].
        split; [done|]. right. done.
    + intros def' name Hdef' Hne Hproto Hname.
      apply elem_of_app in Hdef' as [Hdef'|Hdef'].
      * apply Hkeys2, Hkeys1. by eapply Hnames.
      * apply list_elem_of_singleton in Hdef' as ->.
        destruct Hname as [Hname|Hname]; [apply Hkeys2, Hnames1|apply Hnames2]; done.
Qed.

(** X30: what [createKeyRecord] puts into its records, for every list
    of definitions. No name occurs twice in a record. Every entry of
    [keyRecord] comes from a definition: its key action has the key
    code of the definition and either no modifier, under a name of
    [keyName], or Shift, under a name of [keyNameS]; every entry of
    [dictRecord] likewise, under [dictName] or [dictNameS]. And every
    name of a definition is a key of its record (an empty [dictName] or
    [dictNameS] is skipped, and ['__proto__'] is no property). For the
    definitions of [createKeyCodeDefs], whose records are [key] and
    [dict], a name is the name [findKeyActionName] gives for a key
    action exactly when [findKeyAction] finds that key action under
    it. *)
Theorem createKeyRecord_entries (keyCodeDefs : list KeyCodeDef.t) :
  let records := GenerateKeyActions.createKeyRecord keyCodeDefs in
  let keyRecord := KeyRecords.keyRecord records in
  let dictRecord := KeyRecords.dictRecord records in
  NoDup (JsObject.keys keyRecord) /\ NoDup (JsObject.keys dictRecord)
  /\ (forall name keyAction,
         (name, keyAction) ∈ keyRecord ->
         exists def,
           def ∈ keyCodeDefs
           /\ KeyAction.keyCode keyAction = KeyCodeDef.keyCode def
           /\ (KeyAction.modKey keyAction = 0
               /\ name ∈ default [] (KeyCodeDef.keyName def)
               \/ KeyAction.modKey keyAction = Types.ModKey_Shift
                  /\ name ∈ default [] (KeyCodeDef.keyNameS def)))
  /\ (forall name keyAction,
         (name, keyAction) ∈ dictRecord ->
         exists def,
           def ∈ keyCodeDefs
           /\ KeyAction.keyCode keyAction = KeyCodeDef.keyCode def
           /\ (KeyAction.modKey keyAction = 0 /\ KeyCodeDef.dictName def = Some name
               \/ KeyAction.modKey keyAction = Types.ModKey_Shift
                  /\ KeyCodeDef.dictNameS def = Some name))
  /\ (forall def name,
         def ∈ keyCodeDefs -> name <> "__proto__"%string ->
         (name ∈ default [] (KeyCodeDef.keyName def)
          \/ name ∈ default [] (KeyCodeDef.keyNameS def) ->
          name ∈ JsObject.keys keyRecord)
         /\ (name <> EmptyString ->
             KeyCodeDef.dictName def = Some name \/ KeyCodeDef.dictNameS def = Some name ->
             name ∈ JsObject.keys dictRecord))
  /\ (keyCodeDefs = GenerateKeyActions.createKeyCodeDefs ->
      keyRecord = KeyActionRecord.key /\ dictRecord = KeyActionRecord.dict
      /\ forall name keyAction,
          KeyActions.findKeyAction name = JsObject.Own keyAction
          <-> KeyActions.findKeyActionName keyAction = Some name).
Proof.
  intros records keyRecord dictRecord.
  destruct (createKeyRecord_keyRecord keyCodeDefs) as (Hnodup & Hentries & Hnames).
  destruct (createKeyRecord_dictRecord keyCodeDefs) as (Hnodup' & Hentries' & Hnames').
  split; [done|]. split; [done|]. split; [done|]. split; [done|]. split.
  - intros def name Hdef Hproto. split.
    + by apply Hnames.
    + intros Hne. by apply Hnames'.
  - intros ->. split; [reflexivity|]. split; [reflexivity|].
    intros name keyAction. split.
    + intros Hget. apply get_Own_elem in Hget.
      by pose proof (proj1 (Forall_forall _ _) key_entries _ Hget) as (_ & ? & _).
    + intros Hfind. by apply findKeyActionName_entry in Hfind as [? _].
Qed.
